(** * Instance scheduler: the scheduling decision engine

    A shallow embedding of
    [instance_scheduler/schedulers/instance_scheduler.py] (class
    [InstanceScheduler]) and of [SchedulerConfig.tag_list] /
    [SchedulerConfig.get_schedule] from
    [instance_scheduler/configuration/scheduler_config.py]; further on, of
    the tag templates of [SchedulerConfig], the usage counters of the engine
    and the account names of [SchedulerRequestHandler].

    The engine is stateful Python: it mutates the three per-region batches,
    the in-memory instance-state store, and it talks to a logger, to STS, to
    the Lambda client and to a service driver.  The mutable attributes of the
    [InstanceScheduler] object are the fields of the record [Scheduler]; a
    method is a computation in the state monad [M] over that record.  The
    external collaborators (service driver, STS, Lambda client, clock) are
    the records [Service] and [Boto], whose fields are the answers those
    collaborators give. *)

From Stdlib Require Import String Ascii List ZArith Bool DecimalString.
From stdpp Require Import base option list gmap strings.

Open Scope string_scope.

(** ** States *)

Module InstanceSchedule.

(** Modelled from the spec: the state constants of [InstanceSchedule]
    ([instance_schedule.py] is not part of the sources at hand).  The spec
    lists the desired states running, stopped, stopped_for_resize and any,
    and the persisted values unknown, running, stopped and retain_running;
    the engine compares and stores them interchangeably, so they form one
    enumeration. *)
Inductive State : Type :=
| STATE_UNKNOWN
| STATE_ANY
| STATE_STOPPED
| STATE_STOPPED_FOR_RESIZE
| STATE_RUNNING
| STATE_RETAIN_RUNNING.

#[global] Instance State_eq_dec : EqDecision State.
Proof. solve_decision. Defined.

Definition state_str (s : State) : string :=
  match s with
  | STATE_UNKNOWN => "unknown"
  | STATE_ANY => "any"
  | STATE_STOPPED => "stopped"
  | STATE_STOPPED_FOR_RESIZE => "stopped_for_resize"
  | STATE_RUNNING => "running"
  | STATE_RETAIN_RUNNING => "retain-running"
  end.

End InstanceSchedule.
Export InstanceSchedule.

(** An instant of the clock (seconds). *)
Definition Time : Type := Z.

(** What a schedule or a maintenance window answers:
    [(desired_state, desired_type, active_period_name)]. *)
Definition Desired : Type := (State * option string * option string)%type.

(** ** Instances, schedules, configuration *)

(** The plain attributes of the instance record yielded by the service
    driver and enriched by [_scheduled_instances_in_region]. *)
Record InstanceInfo : Type := {
  inst_id : string;
  inst_name : option string;
  current_state : string;
  instancetype : string;
  is_running : bool;
  is_terminated : bool;
  allow_resize : bool;
  schedule_name : string;
  resized : bool;
  inst_account : string;
  inst_region : string;
  inst_service : string;
  instance_str : string
}.

(** [instance.maintenance_window]: an object with a [name] and a
    [get_desired_state(instance, logger, dt)] method. *)
Record MaintenanceWindow : Type := {
  mw_name : string;
  mw_get_desired_state : InstanceInfo -> Time -> Desired
}.

Record Instance : Type := {
  info :> InstanceInfo;
  maintenance_window : option MaintenanceWindow
}.

(** [instance._replace(resized=True)] *)
Definition replace_resized (i : Instance) (b : bool) : Instance :=
  {| info :=
       {| inst_id := inst_id i; inst_name := inst_name i;
          current_state := current_state i; instancetype := instancetype i;
          is_running := is_running i; is_terminated := is_terminated i;
          allow_resize := allow_resize i; schedule_name := schedule_name i;
          resized := b;
          inst_account := inst_account i; inst_region := inst_region i;
          inst_service := inst_service i; instance_str := instance_str i |};
     maintenance_window := maintenance_window i |}.

(** The attributes of an [InstanceSchedule] that the engine reads.  The
    evaluator [get_desired_state(instance, logger)] reads the clock itself;
    here the instant is an argument. *)
Record Schedule : Type := {
  sched_name : string;
  enforced : bool;
  retain_running : bool;
  stop_new_instances : bool;
  use_maintenance_window : bool;
  get_desired_state : InstanceInfo -> Time -> Desired
}.

Module SchedulerConfig.

(** The attributes of [SchedulerConfig] that the engine reads. *)
Record t : Type := {
  regions : list string;
  schedule_lambda_account : bool;
  remote_account_ids : list string;
  namespace : string;
  aws_partition : string;
  scheduler_role_name : string;
  trace : bool;
  use_metrics : bool;
  schedules : gmap string Schedule
}.

(** [get_schedule]: [self.schedules[name] if name in self.schedules else None] *)
Definition get_schedule (cfg : t) (name : string) : option Schedule :=
  schedules cfg !! name.

(** *** [tag_list] *)

(** A Python [dict] of tags: keys in insertion order, no key twice. *)
Definition TagsDict : Type := list (string * string).

Definition keys (d : TagsDict) : list string := map fst d.

(** [tags_dict[k]]; [None] stands for [KeyError]. *)
Fixpoint getitem (d : TagsDict) (k : string) : option string :=
  match d with
  | [] => None
  | (k', v) :: d' => if String.eqb k' k then Some v else getitem d' k
  end.

Record Tag : Type := { Key : string; Value : string }.

(** [str.startswith] *)
Definition startswith (s p : string) : bool := String.prefix p s.

(** The dict comprehension
    [{k: tags_dict[k] for k in tags_dict if not (...)}]; [None] is a
    [KeyError] raised while building it. *)
Fixpoint valid_tags_of (d : TagsDict) (ks : list string) : option TagsDict :=
  match ks with
  | [] => Some []
  | tag_key :: ks' =>
      if negb (startswith tag_key "aws:" || startswith tag_key "cloudformation:")
      then
        match getitem d tag_key, valid_tags_of d ks' with
        | Some v, Some r => Some ((tag_key, v) :: r)
        | _, _ => None
        end
      else valid_tags_of d ks'
  end.

(** The list comprehension [[{"Key": t, "Value": tags_dict[t]} for t in tags_dict]]. *)
Fixpoint tag_entries (d : TagsDict) (ks : list string) : option (list Tag) :=
  match ks with
  | [] => Some []
  | t :: ks' =>
      match getitem d t, tag_entries d ks' with
      | Some v, Some r => Some ({| Key := t; Value := v |} :: r)
      | _, _ => None
      end
  end.

(** [tag_list(cls, tags_dict)]; the outer [option] is [None] when the
    function raises. *)
Definition tag_list (tags_dict : TagsDict) : option (list Tag) :=
  match valid_tags_of tags_dict (keys tags_dict) with
  | None => None
  | Some comprehension =>
      (* a Python reference: the dict just built, or [None] *)
      let valid_tags : option TagsDict := Some comprehension in
      match valid_tags with
      | Some _ => tag_entries tags_dict (keys tags_dict)
      | None => Some []
      end
  end.

(** *** [build_tags_from_template] *)

(** [s.split(sep)], for a separator of one character: the pieces between its
    occurrences, always one at least. *)
Fixpoint split (sep : ascii) (s : string) : list string :=
  match s with
  | EmptyString => [EmptyString]
  | String c s' =>
      if Ascii.eqb c sep then EmptyString :: split sep s'
      else
        match split sep s' with
        | piece :: pieces => String c piece :: pieces
        | [] => [String c EmptyString]
        end
  end.

(** [sep in s], for a separator of one character. *)
Fixpoint contains (sep : ascii) (s : string) : bool :=
  match s with
  | EmptyString => false
  | String c s' => Ascii.eqb c sep || contains sep s'
  end.

(** [s.partition(sep)]: the parts [t[0]] and [t[2]] of the triple, the text
    before the first separator and the text after it. *)
Fixpoint partition (sep : ascii) (s : string) : string * string :=
  match s with
  | EmptyString => (EmptyString, EmptyString)
  | String c s' =>
      if Ascii.eqb c sep then (EmptyString, s')
      else let (before, after) := partition sep s' in (String c before, after)
  end.

(** [d[k] = v]: the value of an existing key is replaced where it stands, a
    new key goes last. *)
Fixpoint setitem (d : TagsDict) (k v : string) : TagsDict :=
  match d with
  | [] => [(k, v)]
  | (k', v') :: d' =>
      if String.eqb k' k then (k', v) :: d' else (k', v') :: setitem d' k v
  end.

(** The first loop of [build_tags_from_template],
    [for tag in tags_str.split(",")], with its variables [tags] and
    [lastkey]; [None] is a [KeyError]. *)
Fixpoint parse_tags (pieces : list string) (tags : TagsDict) (lastkey : option string)
  : option TagsDict :=
  match pieces with
  | [] => Some tags
  | tag :: pieces' =>
      if contains "=" tag then
        let t := partition "=" tag in
        parse_tags pieces' (setitem tags t.1 t.2) (Some t.1)
      else
        match lastkey with
        | Some key =>
            match getitem tags key with
            | Some value => parse_tags pieces' (setitem tags key (value ++ "," ++ tag)) lastkey
            | None => None
            end
        | None => parse_tags pieces' tags lastkey
        end
  end.

(** [s.replace(old, new)] while [skip] characters of an occurrence of [old]
    just replaced are still to be passed over. *)
Fixpoint replace_from (old new : string) (skip : nat) (s : string) : string :=
  match s with
  | EmptyString => EmptyString
  | String c s' =>
      match skip with
      | S skip' => replace_from old new skip' s'
      | O =>
          if String.prefix old s
          then new ++ replace_from old new (String.length old - 1) s'
          else String c (replace_from old new 0 s')
      end
  end.

(** [s.replace(old, new)] for a non-empty [old]: every occurrence, from left
    to right, without overlap.  ([old] is [TAG_VAL_STR.format(v)] here, which
    is never empty.) *)
Definition replace (s old new : string) : string := replace_from old new 0 s.

(** [TAG_VAL_STR.format(v)], with [TAG_VAL_STR = "{{{}}}"]: [v] in braces. *)
Definition TAG_VAL_STR_format (v : string) : string := "{" ++ v ++ "}".

(** [d.update(other)] *)
Definition update (d other : TagsDict) : TagsDict :=
  fold_left (fun d kv => setitem d kv.1 kv.2) other d.

(** The digits of a number, and ["{:0>Nd}".format(n)]: the digits, filled
    with zeros on the left up to the width [N]. *)
Definition decimal (n : nat) : string := NilEmpty.string_of_uint (Nat.to_uint n).

Definition zero_fill (width n : nat) : string :=
  String.concat EmptyString (repeat "0" (width - String.length (decimal n))) ++ decimal n.

(** The fields of [datetime.utcnow()] that are read. *)
Record DateTime : Type := {
  year : nat;
  month : nat;
  day : nat;
  hour : nat;
  minute : nat
}.

(** The names of the tag variables: constants of the package
    [instance_scheduler.configuration], which is not among the sources at
    hand. *)
Record TagVariableNames : Type := {
  TAG_VAL_SCHEDULER : string;
  TAG_VAL_YEAR : string;
  TAG_VAL_MONTH : string;
  TAG_VAL_DAY : string;
  TAG_VAL_HOUR : string;
  TAG_VAL_MINUTE : string;
  TAG_VAL_TIMEZONE : string
}.

Section Template.

Variable names : TagVariableNames.
(** [os.getenv(configuration.ENV_STACK, "")] *)
Variable stack : string.
(** [datetime.utcnow()] *)
Variable dt : DateTime.

(** The dictionary [tag_vars] after its [update]. *)
Definition tag_vars_of (tag_variables : option TagsDict) : TagsDict :=
  let tag_vars := match tag_variables with None => [] | Some d => d end in
  update tag_vars
    [ (TAG_VAL_SCHEDULER names, stack);
      (TAG_VAL_YEAR names, zero_fill 4 (year dt));
      (TAG_VAL_MONTH names, zero_fill 2 (month dt));
      (TAG_VAL_DAY names, zero_fill 2 (day dt));
      (TAG_VAL_HOUR names, zero_fill 2 (hour dt));
      (TAG_VAL_MINUTE names, zero_fill 2 (minute dt));
      (TAG_VAL_TIMEZONE names, "UTC") ].

(** The loop [for v in tag_vars] on the value of one tag. *)
Fixpoint substitute (tag_vars : TagsDict) (vars : list string) (tag : string)
    (tags : TagsDict) : option TagsDict :=
  match vars with
  | [] => Some tags
  | v :: vars' =>
      match getitem tags tag, getitem tag_vars v with
      | Some value, Some by_value =>
          substitute tag_vars vars' tag
            (setitem tags tag (replace value (TAG_VAL_STR_format v) by_value))
      | _, _ => None
      end
  end.

(** The loop [for tag in tags]. *)
Fixpoint substitute_all (tag_vars : TagsDict) (todo : list string) (tags : TagsDict)
  : option TagsDict :=
  match todo with
  | [] => Some tags
  | tag :: todo' =>
      match getitem tags tag with
      | Some value =>
          (* [value not in ["", None]] *)
          if negb (String.eqb value EmptyString)
          then
            match substitute tag_vars (keys tag_vars) tag tags with
            | Some tags' => substitute_all tag_vars todo' tags'
            | None => None
            end
          else substitute_all tag_vars todo' tags
      | None => None
      end
  end.

(** [build_tags_from_template(cls, tags_str, tag_variables=None)]; [None] is
    a [KeyError]. *)
Definition build_tags_from_template (tags_str : string) (tag_variables : option TagsDict)
  : option TagsDict :=
  match parse_tags (split "," tags_str) [] None with
  | Some tags => substitute_all (tag_vars_of tag_variables) (keys tags) tags
  | None => None
  end.

(** ["" or None]: the first operand when it is truthy, the second otherwise. *)
Definition or_ (a b : option string) : option string :=
  match a with
  | Some s => if String.eqb s EmptyString then b else a
  | None => b
  end.

(** The attributes [started_tags] and [stopped_tags] as [__init__] computes
    them from its argument of the same name:
    [[] if tags in ["" or None] else self.tag_list(self.build_tags_from_template(tags))].
    [None] is an exception; a call of [build_tags_from_template] on the
    Python [None] would be one. *)
Definition init_tags (template : option string) : option (list Tag) :=
  if bool_decide (template ∈ [ or_ (Some EmptyString) None ])
  then Some []
  else
    match template with
    | Some tags_str =>
        match build_tags_from_template tags_str None with
        | Some tags => tag_list tags
        | None => None
        end
    | None => None
    end.

End Template.

End SchedulerConfig.

(** ** External collaborators *)

(** A [boto3.Session]: the default one, or one built from the credentials of
    an assumed role. *)
Inductive Session : Type :=
| DefaultSession
| RoleSession (access_key_id secret_access_key session_token : string).

(** The outcome of a call that may raise. *)
Inductive Outcome (A : Type) : Type :=
| Returned (a : A)
| Raised (ex : string).
Arguments Returned {A} a.
Arguments Raised {A} ex.

(** [sts.assume_role]: a token with credentials, or a [ClientError] whose
    response carries [Error.Code] (possibly absent).  Only [ClientError] is
    caught by [get_session_for_account]; other exceptions are outside this
    model. *)
Inductive AssumeRoleResult : Type :=
| Token (access_key_id secret_access_key session_token : string)
| ClientError (code : option string) (ex : string).

(** JSON documents, as far as the engine builds them. *)
#[warnings="-register-all"]
Inductive Json : Type :=
| JStr (s : string)
| JObj (fields : list (string * Json)).

(** The service strategy ([self._service]). *)
Record Service : Type := {
  service_name : string;
  svc_allow_resize : bool;
  (** [get_schedulable_instances({session, account, role, region, ...})] *)
  get_schedulable_instances :
    Session -> string -> option string -> string -> list Instance;
  (** [start_instances({account, region, started_instances, ...})] *)
  start_instances : string -> string -> list Instance -> list (string * State);
  (** [stop_instances({account, region, stopped_instances, ...})] *)
  stop_instances : string -> string -> list Instance -> list (string * State);
  (** [resize_instance({account, region, instance, desired_type, ...})] *)
  resize_instance : string -> string -> Instance -> option string -> Outcome unit
}.

(** The AWS SDK and the clock. *)
Record Boto : Type := {
  (** [boto3.Session().region_name] *)
  home_region : string;
  (** [sts.assume_role(RoleArn, RoleSessionName)] *)
  assume_role : string -> string -> AssumeRoleResult;
  (** [lambda_client.invoke(FunctionName, InvocationType="Event", Payload)] *)
  lambda_invoke : string -> Json -> Outcome string;
  (** [datetime.utcnow()] *)
  utcnow : Time
}.

(** ** The instance-state store *)

Module InstanceStates.

(** Modelled from the spec: the class [InstanceStates]
    ([instance_states.py] is not part of the sources at hand), after
    section 4.3: [load] fetches the records of one (account, region) into
    memory, [get] answers unknown when no record exists, [set] and
    [delete] are point updates of the in-memory view, [cleanup] removes the
    in-memory records whose id was not observed, [save] persists the
    in-memory snapshot for the loaded (account, region).  [table] is the
    backing key-value table of this service. *)
Record t : Type := {
  account_region : option (string * string);
  state_info : gmap string State;
  table : gmap (string * string) (gmap string State)
}.

(** [InstanceStates(state_table, service_name, logger, context)] *)
Definition new (tbl : gmap (string * string) (gmap string State)) : t :=
  {| account_region := None; state_info := ∅; table := tbl |}.

Definition load (account region : string) (st : t) : t :=
  {| account_region := Some (account, region);
     state_info := default ∅ (table st !! (account, region));
     table := table st |}.

Definition get_instance_state (instance_id : string) (st : t) : State :=
  default STATE_UNKNOWN (state_info st !! instance_id).

Definition set_instance_state (instance_id : string) (new_state : State) (st : t) : t :=
  {| account_region := account_region st;
     state_info := <[instance_id := new_state]> (state_info st);
     table := table st |}.

Definition delete_instance_state (instance_id : string) (st : t) : t :=
  {| account_region := account_region st;
     state_info := delete instance_id (state_info st);
     table := table st |}.

Definition cleanup (instances : list string) (st : t) : t :=
  {| account_region := account_region st;
     state_info := filter (λ kv, bool_decide (kv.1 ∈ instances)) (state_info st);
     table := table st |}.

Definition save (st : t) : t :=
  match account_region st with
  | Some scope =>
      {| account_region := account_region st;
         state_info := state_info st;
         table := <[scope := state_info st]> (table st) |}
  | None => st
  end.

End InstanceStates.

(** ** The scheduler object and its monad *)

Inductive Level : Type := DEBUG | INFO | WARNING | ERROR.

(** One call on the logger: level, message template, arguments. *)
Record LogRecord : Type := {
  log_level : Level;
  log_msg : string;
  log_args : list string
}.

(** The mutable attributes of an [InstanceScheduler], together with the
    calls it has made on the logger and on the Lambda client. *)
Record Scheduler : Type := {
  instance_states : InstanceStates.t;
  scheduler_start_list : list Instance;
  scheduler_stop_list : list Instance;
  schedule_resize_list : list (Instance * option string);
  logger : list LogRecord;
  lambda_invocations : list (string * Json)
}.

Definition M (A : Type) : Type := Scheduler -> A * Scheduler.

Definition ret {A} (a : A) : M A := fun s => (a, s).

Definition bind {A B} (m : M A) (k : A -> M B) : M B :=
  fun s => let (a, s') := m s in k a s'.

#[global] Instance M_ret : MRet M := @ret.
#[global] Instance M_bind : MBind M := fun A B k m => bind m k.

(** The state reached, and the value returned, from a given state. *)
Definition exec {A} (m : M A) (s : Scheduler) : Scheduler := snd (m s).
Definition eval {A} (m : M A) (s : Scheduler) : A := fst (m s).

Definition modify_states (f : InstanceStates.t -> InstanceStates.t) : M unit :=
  fun s =>
    (tt, {| instance_states := f (instance_states s);
            scheduler_start_list := scheduler_start_list s;
            scheduler_stop_list := scheduler_stop_list s;
            schedule_resize_list := schedule_resize_list s;
            logger := logger s;
            lambda_invocations := lambda_invocations s |}).

Definition get_instance_state (instance_id : string) : M State :=
  fun s => (InstanceStates.get_instance_state instance_id (instance_states s), s).

Definition set_start_list (l : list Instance) : M unit :=
  fun s =>
    (tt, {| instance_states := instance_states s;
            scheduler_start_list := l;
            scheduler_stop_list := scheduler_stop_list s;
            schedule_resize_list := schedule_resize_list s;
            logger := logger s;
            lambda_invocations := lambda_invocations s |}).

Definition set_stop_list (l : list Instance) : M unit :=
  fun s =>
    (tt, {| instance_states := instance_states s;
            scheduler_start_list := scheduler_start_list s;
            scheduler_stop_list := l;
            schedule_resize_list := schedule_resize_list s;
            logger := logger s;
            lambda_invocations := lambda_invocations s |}).

Definition set_resize_list (l : list (Instance * option string)) : M unit :=
  fun s =>
    (tt, {| instance_states := instance_states s;
            scheduler_start_list := scheduler_start_list s;
            scheduler_stop_list := scheduler_stop_list s;
            schedule_resize_list := l;
            logger := logger s;
            lambda_invocations := lambda_invocations s |}).

Definition get_start_list : M (list Instance) := fun s => (scheduler_start_list s, s).
Definition get_stop_list : M (list Instance) := fun s => (scheduler_stop_list s, s).
Definition get_resize_list : M (list (Instance * option string)) :=
  fun s => (schedule_resize_list s, s).

(** [self._logger.<level>(msg, *args)] *)
Definition log (lvl : Level) (msg : string) (args : list string) : M unit :=
  fun s =>
    (tt, {| instance_states := instance_states s;
            scheduler_start_list := scheduler_start_list s;
            scheduler_stop_list := scheduler_stop_list s;
            schedule_resize_list := schedule_resize_list s;
            logger := logger s ++ [ {| log_level := lvl; log_msg := msg; log_args := args |} ];
            lambda_invocations := lambda_invocations s |}).

(** Record a call on the Lambda client. *)
Definition record_invocation (function_name : string) (payload : Json) : M unit :=
  fun s =>
    (tt, {| instance_states := instance_states s;
            scheduler_start_list := scheduler_start_list s;
            scheduler_stop_list := scheduler_stop_list s;
            schedule_resize_list := schedule_resize_list s;
            logger := logger s;
            lambda_invocations := lambda_invocations s ++ [ (function_name, payload) ] |}).

(** [for x in l: body(x)] *)
Fixpoint for_each {A} (l : list A) (body : A -> M unit) : M unit :=
  match l with
  | [] => ret tt
  | x :: l' => body x;; for_each l' body
  end.

(** ** Message templates *)

(** The double-quote character, as a one-character string. *)
Definition dquote : string :=
  String (Ascii.Ascii false true false false false true false false) EmptyString.

Definition ERR_ASSUMING_ROLE := "Can not assume role {} for account {}, ({}))".
Definition ERR_SETTING_INSTANCE_TYPE := "Error changing instance type ({})".
Definition INF_DESIRED_TYPE := ", desired type is {}".
Definition INF_PROCESSING_ACCOUNT := "Running {} scheduler for account {}{} in region(s) {}".
Definition INF_STARTING_INSTANCES := "Starting instances {} in region {}".
Definition INF_STOPPED_INSTANCES := "Stopping instances {} in region {}".
Definition INF_MAINTENANCE_WINDOW :=
  ("Maintenance window " ++ dquote ++ "{}" ++ dquote ++ " used as running period found for instance {}").
Definition INF_DO_NOT_STOP_RETAINED_INSTANCE :=
  "Instance {} was already running at start of period and schedule uses retain option, desired state set to {} but instance will not be stopped if it is still running.".
Definition WARN_DUPLICATE_ACCOUNT := "Account {} is already processed, skipping ".
Definition WARN_SKIPPING_UNKNOWN_SCHEDULE :=
  ("Skipping instance {} in region {} for account {}, schedule name " ++ dquote ++ "{}" ++ dquote ++ " is unknown").
Definition WARN_RESIZE_NOT_SUPPORTED := "Instance {} with type {} does not support resizing".
Definition DEBUG_STOPPED_REGION_INSTANCES :=
  "Listing instance {} in region {} to be stopped by scheduler".
Definition DEBUG_INSTANCE_HEADER := "[ Instance {} ]".
Definition DEBUG_NEW_INSTANCE :=
  ("New instance " ++ dquote ++ "{}" ++ dquote ++ " will not be stopped until next scheduling period").
Definition DEBUG_CURRENT_INSTANCE_STATE :=
  ("Current state is {}, instance type is {}, schedule is " ++ dquote ++ "{}" ++ dquote).
Definition DEBUG_SKIPPING_TERMINATED_INSTANCE :=
  ("Skipping terminated instance " ++ dquote ++ "{}" ++ dquote ++ " in region {} for account {}").
Definition DEBUG_STARTED_REGION_INSTANCES :=
  "Listing instance {} in region {} with instance type {} to be started by scheduler".
Definition DEBUG_CURRENT_AND_DESIRED_STATE :=
  ("Desired state for instance from schedule " ++ dquote ++ "{}" ++ dquote ++ " is {}, last desired state was {}, actual state is {}{} ").
Definition DEBUG_ENFORCED_STATE :=
  "Using enforcement flag of schedule to set actual state of instance {} from {} to {}".
Definition DEBUG_APPLY_RETAIN_RUNNING_STATE :=
  "Desired state is {} for instance {} which is already running and retain running period is used the schedule, desired state set to {} so it is not stopped automatically at the end of this running period".

(** ** String helpers *)

(** [str.upper], on ASCII letters. *)
Definition upper_ascii (c : ascii) : ascii :=
  let n := nat_of_ascii c in
  if (97 <=? n)%nat && (n <=? 122)%nat then ascii_of_nat (n - 32) else c.

Fixpoint upper (s : string) : string :=
  match s with
  | EmptyString => EmptyString
  | String c s' => String (upper_ascii c) (upper s')
  end.

(** [sep.join(l)] *)
Definition join (sep : string) (l : list string) : string := String.concat sep l.

(** [str(x)] of an optional string. *)
Definition str_opt (o : option string) : string := default "None" o.

Definition str_bool (b : bool) : string := if b then "True" else "False".

(** Truthiness of an optional string: neither [None] nor empty. *)
Definition truthy (o : option string) : bool :=
  match o with
  | Some s => negb (String.eqb s EmptyString)
  | None => false
  end.

(** [len(l) > 0] *)
Definition nonempty {A} (l : list A) : bool := (0 <? length l)%nat.

(** ** The engine *)

Record Account : Type := {
  session : Session;
  acc_name : string;
  role : option string
}.

(** The value [_process_account] returns: region -> entries. *)
Record AccountResult : Type := {
  started : gmap string (list (string * string));
  stopped : gmap string (list (string * string));
  res_resized : option (gmap string (list (string * string * string * option string)))
}.

Section Engine.

Variable service : Service.
Variable boto : Boto.
(** [self._context.function_name] *)
Variable function_name : string.
(** [self._configuration], set by [run] *)
Variable configuration : SchedulerConfig.t.
(** [self._lambda_account], set by [run] *)
Variable lambda_account : string.

(** [_regions] *)
Definition _regions : list string :=
  if (0 <? length (SchedulerConfig.regions configuration))%nat
  then SchedulerConfig.regions configuration
  else [home_region boto].

(** [remove_account_from_config] *)
Definition remove_account_from_config (aws_account cross_account_role : string) : M unit :=
  log ERROR
    "Removing the account {} from scheduling configuration as assume role permission is missing for the iam role {}"
    [aws_account; cross_account_role];;
  let payload :=
    JObj [ ("account", JStr aws_account);
           ("detail-type", JStr "Parameter Store Change");
           ("detail", JObj [ ("operation", JStr "Delete") ]) ] in
  record_invocation function_name payload;;
  match lambda_invoke boto function_name payload with
  | Returned response =>
      log INFO "Removing account {} from configuration" [aws_account];;
      log DEBUG "Lambda response {} for removing account from configuration" [response]
  | Raised ex =>
      log ERROR "Error invoking lambda {} error {}" [function_name; ex]
  end.

(** ["{}-scheduler-{}".format(self._service.service_name, aws_account)] *)
Definition role_session_name (aws_account : string) : string :=
  service_name service ++ "-scheduler-" ++ aws_account.

(** [get_session_for_account], the helper of [_accounts]; [None] is the
    Python [None]. *)
Definition get_session_for_account (cross_account_role aws_account : string)
  : M (option Session) :=
  let session_name := role_session_name aws_account in
  match assume_role boto cross_account_role session_name with
  | Token access_key_id secret_access_key session_token =>
      mret (Some (RoleSession access_key_id secret_access_key session_token))
  | ClientError code ex =>
      log ERROR "Error Code {}" [str_opt code];;
      if bool_decide (code = Some "AccessDenied")
      then
        remove_account_from_config aws_account cross_account_role;;
        (* falls off the end of the function *)
        mret None
      else
        log ERROR ERR_ASSUMING_ROLE [cross_account_role; aws_account; ex];;
        mret None
  end.

(** [accounts_done] when the loop over the remote accounts starts; nothing
    is appended to it afterwards. *)
Definition accounts_done : list string :=
  if SchedulerConfig.schedule_lambda_account configuration
  then [lambda_account]
  else [].

(** The ARN of the cross-account role of an account: the f-string
    [arn:{aws_partition}:iam::{account}:role/{namespace}-{scheduler_role_name}]. *)
Definition role_arn (account : string) : string :=
  "arn:" ++ SchedulerConfig.aws_partition configuration ++ ":iam::" ++ account
  ++ ":role/" ++ SchedulerConfig.namespace configuration ++ "-"
  ++ SchedulerConfig.scheduler_role_name configuration.

(** One turn of the loop over [remote_account_ids] in the generator
    [_accounts]: the account yielded, if any. *)
Definition remote_account_step (account : string) : M (option Account) :=
  if bool_decide (account ∈ accounts_done)
  then
    log WARNING WARN_DUPLICATE_ACCOUNT [account];;
    mret None
  else
    let role := role_arn account in
    session ← get_session_for_account role account;
    match session with
    | Some session =>
        mret (Some {| session := session; acc_name := account; role := Some role |})
    | None => mret None
    end.

(** The generator [_accounts], as the sequence of its resumptions: each
    one runs the generator up to its next [yield] (or to the next turn of
    its loop) and answers the account yielded, if any. *)
Definition _accounts : list (M (option Account)) :=
  (if SchedulerConfig.schedule_lambda_account configuration
   then [ mret (Some {| session := DefaultSession;
                        acc_name := lambda_account;
                        role := None |}) ]
   else [])
  ++ map remote_account_step (SchedulerConfig.remote_account_ids configuration).

(** The accounts the generator yields when it is run to its end. *)
Fixpoint yielded (gen : list (M (option Account))) : M (list Account) :=
  match gen with
  | [] => mret []
  | step :: gen' =>
      a ← step;
      rest ← yielded gen';
      mret (match a with Some a => a :: rest | None => rest end)
  end.

(** [_instance_display_str] *)
Definition _instance_display_str (inst_id : string) (name : option string) : string :=
  let s := upper (service_name service) ++ ":" ++ inst_id in
  if truthy name then s ++ " (" ++ str_opt name ++ ")" else s.

(** [_scheduled_instances_in_region] *)
Definition _scheduled_instances_in_region (account : Account) (region : string)
  : list Instance :=
  map (fun instance : Instance =>
         {| info :=
              {| inst_id := inst_id instance; inst_name := inst_name instance;
                 current_state := current_state instance;
                 instancetype := instancetype instance;
                 is_running := is_running instance;
                 is_terminated := is_terminated instance;
                 allow_resize := allow_resize instance;
                 schedule_name := schedule_name instance;
                 resized := resized instance;
                 inst_account := acc_name account;
                 inst_region := region;
                 inst_service := service_name service;
                 instance_str :=
                   _instance_display_str (inst_id instance) (inst_name instance) |};
            maintenance_window := maintenance_window instance |})
      (get_schedulable_instances service (session account) (acc_name account)
         (role account) region).

(** [get_desired_state_and_type] *)
Definition get_desired_state_and_type (schedule : Schedule) (instance : Instance)
  : M (State * option string) :=
  let from_schedule : M (State * option string) :=
    let '(inst_state, inst_type, _) := get_desired_state schedule instance (utcnow boto) in
    mret (inst_state, inst_type) in
  match maintenance_window instance with
  | Some window =>
      if use_maintenance_window schedule
      then
        log INFO INF_MAINTENANCE_WINDOW [mw_name window; inst_id instance];;
        let '(inst_state, inst_type, running_period) :=
          mw_get_desired_state window instance (utcnow boto) in
        if bool_decide (inst_state = STATE_RUNNING)
        then mret (inst_state, inst_type)
        else from_schedule
      else from_schedule
  | None => from_schedule
  end.

(** [_process_new_desired_state]: handle the new state of an instance. *)
Section NewDesiredState.

Variables (account : Account) (region : string) (instance : Instance).
Variables (desired_state : State) (desired_type : option string).
Variables (last_desired_state : State) (retain_running : bool).

Definition need_and_can_resize : M bool :=
  match desired_type with
  | Some new_type =>
      if negb (String.eqb (instancetype instance) new_type)
      then
        if negb (allow_resize instance)
        then
          log WARNING WARN_RESIZE_NOT_SUPPORTED
            [instance_str instance; instancetype instance];;
          mret false
        else mret true
      else mret false
  | None => mret false
  end.

Definition do_resize_instance (inst : Instance) (new_type : option string) : M unit :=
  match resize_instance service (acc_name account) region instance new_type with
  | Returned _ =>
      l ← get_resize_list;
      set_resize_list (l ++ [(inst, new_type)])
  | Raised ex =>
      (* if changing the instance type does fail do not add instance to
         start list so it is handled a next time *)
      log ERROR ERR_SETTING_INSTANCE_TYPE [ex]
  end.

Definition _process_new_desired_state : M unit :=
  (* last desired status was saved as retain-running *)
  if bool_decide (last_desired_state = STATE_RETAIN_RUNNING)
  then
    if bool_decide (desired_state = STATE_RUNNING)
    then mret tt
    else if bool_decide (desired_state = STATE_STOPPED)
    then
      log DEBUG INF_DO_NOT_STOP_RETAINED_INSTANCE
        [inst_id instance; state_str STATE_STOPPED];;
      modify_states (InstanceStates.set_instance_state (inst_id instance) STATE_STOPPED)
    else
      modify_states (InstanceStates.set_instance_state (inst_id instance) desired_state)
  else
    if bool_decide (desired_state = STATE_RUNNING)
    then
      if negb (is_running instance)
      then
        let inst_type := default (instancetype instance) desired_type in
        log DEBUG DEBUG_STARTED_REGION_INSTANCES
          [instance_str instance; inst_region instance; inst_type];;
        (* for instances to be started test if resizing is required *)
        resize ← need_and_can_resize;
        (if resize : bool then do_resize_instance instance desired_type else mret tt);;
        (* append instance to list of instances to start *)
        l ← get_start_list;
        set_start_list (l ++ [instance])
      else
        if bool_decide (last_desired_state = STATE_STOPPED)
        then
          if retain_running
          then
            log DEBUG DEBUG_APPLY_RETAIN_RUNNING_STATE
              [state_str desired_state; inst_id instance;
               state_str STATE_RETAIN_RUNNING];;
            modify_states
              (InstanceStates.set_instance_state (inst_id instance) STATE_RETAIN_RUNNING)
          else
            modify_states
              (InstanceStates.set_instance_state (inst_id instance) STATE_RUNNING)
        else mret tt
    else if bool_decide (desired_state ∈ [STATE_STOPPED; STATE_STOPPED_FOR_RESIZE])
    then
      if is_running instance
      then
        log DEBUG DEBUG_STOPPED_REGION_INSTANCES
          [instance_str instance; inst_region instance];;
        let instance' :=
          if bool_decide (desired_state = STATE_STOPPED_FOR_RESIZE)
          then replace_resized instance true
          else instance in
        l ← get_stop_list;
        set_stop_list (l ++ [instance'])
      else
        modify_states (InstanceStates.set_instance_state (inst_id instance) STATE_STOPPED)
    else
      modify_states (InstanceStates.set_instance_state (inst_id instance) desired_state).

End NewDesiredState.

(** The body of the loop over the instances of a region in
    [_process_account], after [instances.append(instance)]; each branch
    that ends early is a [continue].  The test
    [last_desired_state is InstanceSchedule.STATE_UNKNOWN] is read as an
    equality of states. *)
Definition process_instance (account : Account) (region : string) (instance : Instance)
  : M unit :=
  (* handle terminated instances *)
  if is_terminated instance
  then
    log DEBUG DEBUG_SKIPPING_TERMINATED_INSTANCE
      [instance_str instance; region; inst_account instance];;
    modify_states (InstanceStates.delete_instance_state (inst_id instance))
  else
    (* get the schedule for this instance *)
    match SchedulerConfig.get_schedule configuration (schedule_name instance) with
    | None =>
        log WARNING WARN_SKIPPING_UNKNOWN_SCHEDULE
          [instance_str instance; region; inst_account instance; schedule_name instance]
    | Some instance_schedule =>
        log DEBUG DEBUG_INSTANCE_HEADER [instance_str instance];;
        log DEBUG DEBUG_CURRENT_INSTANCE_STATE
          [current_state instance; instancetype instance; sched_name instance_schedule];;
        '(desired_state, desired_type) ←
          get_desired_state_and_type instance_schedule instance;
        (* get the previous desired instance state *)
        last_desired_state ← get_instance_state (inst_id instance);
        log DEBUG DEBUG_CURRENT_AND_DESIRED_STATE
          [sched_name instance_schedule; state_str desired_state;
           state_str last_desired_state; current_state instance;
           if truthy desired_type
           then ", desired type is " ++ str_opt desired_type
           else EmptyString];;
        let process :=
          _process_new_desired_state account region instance desired_state desired_type
            last_desired_state (retain_running instance_schedule) in
        (* last desired state unknown: first time the instance is seen *)
        if bool_decide (last_desired_state = STATE_UNKNOWN)
        then
          if is_running instance && bool_decide (desired_state = STATE_STOPPED)
          then
            if negb (stop_new_instances instance_schedule)
            then
              modify_states
                (InstanceStates.set_instance_state (inst_id instance) STATE_STOPPED);;
              log DEBUG DEBUG_NEW_INSTANCE [instance_str instance]
            else process
          else process
        (* existing instance; enforced: hold the actual state against the desired one *)
        else if enforced instance_schedule
        then
          if (is_running instance && bool_decide (desired_state = STATE_STOPPED))
             || (negb (is_running instance) && bool_decide (desired_state = STATE_RUNNING))
          then
            log DEBUG DEBUG_ENFORCED_STATE
              [instance_str instance;
               state_str (if is_running instance then STATE_RUNNING else STATE_STOPPED);
               state_str desired_state];;
            process
          else mret tt
        (* not enforced: act on a change of the desired state only *)
        else if bool_decide (last_desired_state ≠ desired_state)
        then process
        else mret tt
    end.

(** [_start_and_stop_instances] *)
Definition _start_and_stop_instances (account : Account) (region : string) : M unit :=
  start_list ← get_start_list;
  (if nonempty start_list
   then
     log INFO INF_STARTING_INSTANCES
       [join ", " (map (fun i : Instance => instance_str i) start_list); region];;
     for_each (start_instances service (acc_name account) region start_list)
       (fun '(inst_id, state) =>
          modify_states (InstanceStates.set_instance_state inst_id state))
   else mret tt);;
  stop_list ← get_stop_list;
  if nonempty stop_list
  then
    log INFO INF_STOPPED_INSTANCES
      [join ", " (map (fun i : Instance => instance_str i) stop_list); region];;
    for_each (stop_instances service (acc_name account) region stop_list)
      (fun '(inst_id, state) =>
         modify_states (InstanceStates.set_instance_state inst_id state))
  else mret tt.

(** The loop [for instance in self._scheduled_instances_in_region(...)] of
    [_process_account], with its local variables [state_loaded] and
    [instances]; it answers [instances]. *)
Fixpoint instances_loop (account : Account) (region : string)
    (todo : list Instance) (state_loaded : bool) (instances : list Instance)
  : M (list Instance) :=
  match todo with
  | [] => mret instances
  | instance :: todo' =>
      (* delay loading instance state until first instance is returned *)
      (if negb state_loaded
       then modify_states (InstanceStates.load (acc_name account) region)
       else mret tt);;
      process_instance account region instance;;
      instances_loop account region todo' true (instances ++ [instance])
  end.

(** The three dictionaries local to [_process_account]. *)
Definition Batches : Type :=
  (gmap string (list (string * string))
   * gmap string (list (string * string))
   * gmap string (list (string * string * string * option string)))%type.

(** The body of [for region in self._regions] in [_process_account].  The
    calls on the metrics collaborators ([add_schedule_metrics],
    [_collect_usage_metrics]) touch none of the attributes modelled here
    and are left out. *)
Definition process_region (account : Account) (region : string) (out : Batches)
  : M Batches :=
  let '(started_instances, stopped_instances, resized_instances) := out in
  set_start_list [];;
  set_stop_list [];;
  set_resize_list [];;
  instances ←
    instances_loop account region (_scheduled_instances_in_region account region)
      false [];
  (* process lists of instances that must be started or stopped *)
  _start_and_stop_instances account region;;
  (* cleanup desired instance states and save *)
  modify_states
    (InstanceStates.cleanup (map (fun i : Instance => inst_id i) instances));;
  modify_states InstanceStates.save;;
  (* build output structure *)
  start_list ← get_start_list;
  stop_list ← get_stop_list;
  resize_list ← get_resize_list;
  let started_instances :=
    if nonempty start_list
    then <[region := map (fun i : Instance => (inst_id i, schedule_name i)) start_list]>
           started_instances
    else started_instances in
  let stopped_instances :=
    if nonempty stop_list
    then <[region := map (fun i : Instance => (inst_id i, schedule_name i)) stop_list]>
           stopped_instances
    else stopped_instances in
  let resized_instances :=
    if nonempty resize_list
    then <[region := map (fun i : Instance * option string =>
                            (inst_id i.1, schedule_name i.1, instancetype i.1, i.2))
                       resize_list]>
           resized_instances
    else resized_instances in
  mret (started_instances, stopped_instances, resized_instances).

Fixpoint regions_loop (account : Account) (regions : list string) (out : Batches)
  : M Batches :=
  match regions with
  | [] => mret out
  | region :: regions' =>
      out' ← process_region account region out;
      regions_loop account regions' out'
  end.

(** [_process_account] *)
Definition _process_account (account : Account) : M AccountResult :=
  log INFO INF_PROCESSING_ACCOUNT
    [upper (service_name service); acc_name account;
     if truthy (role account) then " using role " ++ str_opt (role account)
     else EmptyString;
     join ", " (SchedulerConfig.regions configuration)];;
  '(started_instances, stopped_instances, resized_instances) ←
    regions_loop account _regions (∅, ∅, ∅);
  mret {| started := started_instances;
          stopped := stopped_instances;
          res_resized :=
            if svc_allow_resize service then Some resized_instances else None |}.

(** The loop [for account in self._accounts] of [run]: the generator is
    resumed, and the account it yields is processed before it is resumed
    again. *)
Fixpoint accounts_loop (gen : list (M (option Account)))
    (response : gmap string AccountResult) : M (gmap string AccountResult) :=
  match gen with
  | [] => mret response
  | step :: gen' =>
      a ← step;
      match a with
      | Some account =>
          r ← _process_account account;
          accounts_loop gen' (<[acc_name account := r]> response)
      | None => accounts_loop gen' response
      end
  end.

(** [run]: the instance-state store is created anew over the state table,
    then every account is processed.  ([_send_usage_metrics] is left out,
    as above.) *)
Definition run : M (gmap string AccountResult) :=
  modify_states (fun st => InstanceStates.new (InstanceStates.table st));;
  accounts_loop _accounts ∅.

End Engine.

(** [InstanceScheduler(service, scheduler_configuration)], over a state table
    with the given content. *)
Definition new_scheduler (state_table : gmap (string * string) (gmap string State))
  : Scheduler :=
  {| instance_states := InstanceStates.new state_table;
     scheduler_start_list := [];
     scheduler_stop_list := [];
     schedule_resize_list := [];
     logger := [];
     lambda_invocations := [] |}.

(** ** Usage metrics *)

(** [self._usage_metrics]: for each action ("Started", "Stopped",
    "Resized") a dictionary from instance type to a number of instances.
    Both levels are Python dictionaries, kept in insertion order; an instance
    type is a string or [None]. *)
Definition Counts : Type := list (option string * nat).
Definition UsageMetrics : Type := list (string * Counts).

(** [{"Started": {}, "Stopped": {}, "Resized": {}}], as [__init__] sets it. *)
Definition new_usage_metrics : UsageMetrics :=
  [ ("Started", []); ("Stopped", []); ("Resized", []) ].

(** [if k in d: d[k] += 1 else: d[k] = 1] *)
Fixpoint count_one (k : option string) (d : Counts) : Counts :=
  match d with
  | [] => [(k, 1%nat)]
  | (k', n) :: d' =>
      if bool_decide (k' = k) then (k', (n + 1)%nat) :: d' else (k', n) :: count_one k d'
  end.

(** [self._usage_metrics[action]]; [None] is a [KeyError]. *)
Fixpoint usage_of (action : string) (usage_metrics : UsageMetrics) : option Counts :=
  match usage_metrics with
  | [] => None
  | (a, d) :: rest => if String.eqb a action then Some d else usage_of action rest
  end.

(** The dictionary of an action is updated in place. *)
Fixpoint set_usage_of (action : string) (d : Counts) (usage_metrics : UsageMetrics)
  : UsageMetrics :=
  match usage_metrics with
  | [] => []
  | (a, d') :: rest =>
      if String.eqb a action then (a, d) :: rest
      else (a, d') :: set_usage_of action d rest
  end.

(** [del self._usage_metrics[action]] *)
Fixpoint del_usage_of (action : string) (usage_metrics : UsageMetrics) : UsageMetrics :=
  match usage_metrics with
  | [] => []
  | (a, d) :: rest =>
      if String.eqb a action then rest else (a, d) :: del_usage_of action rest
  end.

(** One more instance of type [k] under [action]. *)
Definition count_usage (action : string) (k : option string) (usage_metrics : UsageMetrics)
  : option UsageMetrics :=
  match usage_of action usage_metrics with
  | Some d => Some (set_usage_of action (count_one k d) usage_metrics)
  | None => None
  end.

(** The instance type under which a started instance is counted: the new
    type of its first entry in the resize list, its own type when it has
    none.  The outer [None] is the [IndexError] of [[...][0]]. *)
Definition started_instance_type (resize_list : list (Instance * option string))
    (i : Instance) : option (option string) :=
  if bool_decide (inst_id i ∈ map (fun r : Instance * option string => inst_id r.1) resize_list)
  then head (map snd (List.filter
                        (fun r : Instance * option string => String.eqb (inst_id r.1) (inst_id i))
                        resize_list))
  else Some (Some (instancetype i)).

(** The three loops of [_collect_usage_metrics]. *)
Fixpoint collect_started (resize_list : list (Instance * option string))
    (start_list : list Instance) (usage_metrics : UsageMetrics) : option UsageMetrics :=
  match start_list with
  | [] => Some usage_metrics
  | i :: rest =>
      match started_instance_type resize_list i with
      | Some instance_type =>
          match count_usage "Started" instance_type usage_metrics with
          | Some usage_metrics' => collect_started resize_list rest usage_metrics'
          | None => None
          end
      | None => None
      end
  end.

Fixpoint collect_stopped (stop_list : list Instance) (usage_metrics : UsageMetrics)
  : option UsageMetrics :=
  match stop_list with
  | [] => Some usage_metrics
  | i :: rest =>
      match count_usage "Stopped" (Some (instancetype i)) usage_metrics with
      | Some usage_metrics' => collect_stopped rest usage_metrics'
      | None => None
      end
  end.

(** ["{}-{}".format(i[0].instancetype, i[1])] *)
Definition type_change (i : Instance * option string) : string :=
  instancetype i.1 ++ "-" ++ str_opt i.2.

Fixpoint collect_resized (resize_list : list (Instance * option string))
    (usage_metrics : UsageMetrics) : option UsageMetrics :=
  match resize_list with
  | [] => Some usage_metrics
  | i :: rest =>
      match count_usage "Resized" (Some (type_change i)) usage_metrics with
      | Some usage_metrics' => collect_resized rest usage_metrics'
      | None => None
      end
  end.

(** [_collect_usage_metrics], on the batches of the scheduler [s]; the
    counters are passed in and out, [None] is an exception. *)
Definition _collect_usage_metrics (s : Scheduler) (usage_metrics : UsageMetrics)
  : option UsageMetrics :=
  match collect_started (schedule_resize_list s) (scheduler_start_list s) usage_metrics with
  | Some m1 =>
      match collect_stopped (scheduler_stop_list s) m1 with
      | Some m2 => collect_resized (schedule_resize_list s) m2
      | None => None
      end
  | None => None
  end.

(** One record of the usage data sent. *)
Record UsageDatum : Type := {
  datum_service : string;
  datum_action : string;
  datum_instance_type : option string;
  datum_instances : nat
}.

(** The first loop of [_send_usage_metrics]:
    [for s in list(self._usage_metrics): if len(self._usage_metrics[s]) == 0: del self._usage_metrics[s]]. *)
Fixpoint drop_unused (actions : list string) (usage_metrics : UsageMetrics)
  : option UsageMetrics :=
  match actions with
  | [] => Some usage_metrics
  | s :: actions' =>
      match usage_of s usage_metrics with
      | Some d =>
          drop_unused actions'
            (if (length d =? 0)%nat then del_usage_of s usage_metrics else usage_metrics)
      | None => None
      end
  end.

(** [self._usage_metrics.get(action, {})] *)
Definition usage_get (action : string) (usage_metrics : UsageMetrics) : Counts :=
  match usage_of action usage_metrics with
  | Some d => d
  | None => []
  end.

(** [d[k]] on the dictionary of an action; [None] is a [KeyError]. *)
Fixpoint count_of (d : Counts) (k : option string) : option nat :=
  match d with
  | [] => None
  | (k', n) :: d' => if bool_decide (k' = k) then Some n else count_of d' k
  end.

(** The loop [for instance_type in self._usage_metrics.get(action, {})]: the
    records it appends to [usage_data]. *)
Fixpoint usage_rows (service : Service) (usage_metrics : UsageMetrics) (action : string)
    (instance_types : list (option string)) : option (list UsageDatum) :=
  match instance_types with
  | [] => Some []
  | instance_type :: instance_types' =>
      match usage_of action usage_metrics with
      | Some d =>
          match count_of d instance_type,
                usage_rows service usage_metrics action instance_types' with
          | Some n, Some rows =>
              Some ({| datum_service := service_name service;
                       datum_action := action;
                       datum_instance_type := instance_type;
                       datum_instances := n |} :: rows)
          | _, _ => None
          end
      | None => None
      end
  end.

(** The loop [for action in self._usage_metrics]. *)
Fixpoint usage_data (service : Service) (usage_metrics : UsageMetrics)
    (actions : list string) : option (list UsageDatum) :=
  match actions with
  | [] => Some []
  | action :: actions' =>
      match usage_rows service usage_metrics action
              (map fst (usage_get action usage_metrics)),
            usage_data service usage_metrics actions' with
      | Some rows, Some rest => Some (rows ++ rest)%list
      | _, _ => None
      end
  end.

(** [_send_usage_metrics]: the counters it leaves, and the usage data it
    hands to [send_metrics_data] ([None] when that function is not called).
    The outer [None] is an exception. *)
Definition _send_usage_metrics (service : Service) (usage_metrics : UsageMetrics)
  : option (UsageMetrics * option (list UsageDatum)) :=
  match drop_unused (map fst usage_metrics) usage_metrics with
  | Some usage_metrics' =>
      if (0 <? length usage_metrics')%nat
      then
        match usage_data service usage_metrics' (map fst usage_metrics') with
        | Some data => Some (usage_metrics', Some data)
        | None => None
        end
      else Some (usage_metrics', None)
  | None => None
  end.

(** ** The request handler *)

Module SchedulerRequestHandler.

(** The fields of the event that the handler reads; [None] when the event
    has no such key. *)
Record Event : Type := {
  action : option string;
  account : option string
}.

(** [is_handling_request]: [event.get("action", "") == "scheduler:run"] *)
Definition is_handling_request (event : Event) : bool :=
  String.eqb (default EmptyString (action event)) "scheduler:run".

(** [lambda_account]: the account of the event, the one of the environment
    ([os.getenv(configuration.ENV_ACCOUNT)]) when the event names none. *)
Definition lambda_account (event : Event) (env_account : option string) : option string :=
  match account event with
  | Some a => Some a
  | None => env_account
  end.

(** [account_names], the generator run to its end: the hosting account when
    it is scheduled, then the remote accounts. *)
Definition account_names (configuration : SchedulerConfig.t) (lambda_account : string)
  : list string :=
  ((if SchedulerConfig.schedule_lambda_account configuration then [lambda_account] else [])
   ++ SchedulerConfig.remote_account_ids configuration)%list.

End SchedulerRequestHandler.

Open Scope list_scope.

(** * Verification *)

(** ** The answer of the evaluators *)

(** The value [get_desired_state_and_type] returns; it does not depend on
    the state of the scheduler (lemma [get_desired_state_and_type_eval]). *)
Definition desired_state_and_type (boto : Boto) (schedule : Schedule) (instance : Instance)
  : State * option string :=
  eval (get_desired_state_and_type boto schedule instance) (new_scheduler ∅).

Ltac unfold_monad :=
  unfold exec, eval, mbind, M_bind, bind, mret, M_ret, ret, log, modify_states,
    get_instance_state, get_start_list, get_stop_list, get_resize_list,
    set_start_list, set_stop_list, set_resize_list, record_invocation in *.

(** Run the monadic plumbing of a goal. *)
Ltac msimpl :=
  repeat (progress (unfold mbind, M_bind, bind, mret, M_ret, ret; cbn)).

Lemma get_desired_state_and_type_eval boto schedule instance s :
  (get_desired_state_and_type boto schedule instance s).1
  = desired_state_and_type boto schedule instance.
Proof.
  unfold desired_state_and_type, get_desired_state_and_type.
  destruct (maintenance_window instance) as [w|]; [destruct (use_maintenance_window schedule)|];
    unfold_monad; cbn;
    repeat (match goal with |- context [let '(_, _) := ?x in _] => destruct x end);
    repeat case_bool_decide; reflexivity.
Qed.

(** What a computation leaves untouched: everything but the logger. *)
Definition same_but_log (s s' : Scheduler) : Prop :=
  instance_states s' = instance_states s
  ∧ scheduler_start_list s' = scheduler_start_list s
  ∧ scheduler_stop_list s' = scheduler_stop_list s
  ∧ schedule_resize_list s' = schedule_resize_list s
  ∧ lambda_invocations s' = lambda_invocations s.

Lemma get_desired_state_and_type_exec boto schedule instance s :
  same_but_log s (get_desired_state_and_type boto schedule instance s).2.
Proof.
  unfold get_desired_state_and_type, same_but_log.
  destruct (maintenance_window instance) as [w|]; [destruct (use_maintenance_window schedule)|];
    unfold_monad; cbn;
    repeat (match goal with |- context [let '(_, _) := ?x in _] => destruct x end);
    repeat case_bool_decide; cbn; auto.
Qed.

(** ** The decision taken for one instance *)

(** What the engine does with an instance: nothing, write a state record,
    delete the record, list the instance to be started, or to be stopped. *)
Inductive Decision : Type :=
| Skip
| Persist (st : State)
| Forget
| Start
| Stop.

#[global] Instance Decision_eq_dec : EqDecision Decision.
Proof. solve_decision. Defined.

(** The decision of [_process_new_desired_state], read off its branches. *)
Definition new_state_decision (instance : Instance) (desired_state last : State)
    (retain : bool) : Decision :=
  if bool_decide (last = STATE_RETAIN_RUNNING) then
    if bool_decide (desired_state = STATE_RUNNING) then Skip
    else if bool_decide (desired_state = STATE_STOPPED) then Persist STATE_STOPPED
    else Persist desired_state
  else if bool_decide (desired_state = STATE_RUNNING) then
    if negb (is_running instance) then Start
    else if bool_decide (last = STATE_STOPPED)
         then Persist (if retain then STATE_RETAIN_RUNNING else STATE_RUNNING)
         else Skip
  else if bool_decide (desired_state ∈ [STATE_STOPPED; STATE_STOPPED_FOR_RESIZE]) then
    if is_running instance then Stop else Persist STATE_STOPPED
  else Persist desired_state.

(** The decision of the loop body [process_instance], given the last desired
    state found in the store. *)
Definition decision (boto : Boto) (configuration : SchedulerConfig.t)
    (instance : Instance) (last : State) : Decision :=
  if is_terminated instance then Forget
  else
    match SchedulerConfig.get_schedule configuration (schedule_name instance) with
    | None => Skip
    | Some sch =>
        let desired_state := (desired_state_and_type boto sch instance).1 in
        let process :=
          new_state_decision instance desired_state last (retain_running sch) in
        if bool_decide (last = STATE_UNKNOWN) then
          if is_running instance && bool_decide (desired_state = STATE_STOPPED)
             && negb (stop_new_instances sch)
          then Persist STATE_STOPPED
          else process
        else if enforced sch then
          if (is_running instance && bool_decide (desired_state = STATE_STOPPED))
             || (negb (is_running instance) && bool_decide (desired_state = STATE_RUNNING))
          then process
          else Skip
        else if bool_decide (last ≠ desired_state) then process
        else Skip
    end.

Definition store_after (d : Decision) (instance : Instance) (st : InstanceStates.t)
  : InstanceStates.t :=
  match d with
  | Persist x => InstanceStates.set_instance_state (inst_id instance) x st
  | Forget => InstanceStates.delete_instance_state (inst_id instance) st
  | _ => st
  end.

Definition started_by (d : Decision) (instance : Instance) : list Instance :=
  match d with Start => [instance] | _ => [] end.

Definition stopped_by (d : Decision) (desired_state : State) (instance : Instance)
  : list Instance :=
  match d with
  | Stop => [ if bool_decide (desired_state = STATE_STOPPED_FOR_RESIZE)
              then replace_resized instance true else instance ]
  | _ => []
  end.

(** The resize test of [need_and_can_resize]. *)
Definition resize_warranted (instance : Instance) (desired_type : option string) : bool :=
  match desired_type with
  | Some new_type => negb (String.eqb (instancetype instance) new_type) && allow_resize instance
  | None => false
  end.

Definition resized_by (service : Service) (account : Account) (region : string)
    (d : Decision) (instance : Instance) (desired_type : option string)
  : list (Instance * option string) :=
  match d with
  | Start =>
      if resize_warranted instance desired_type then
        match resize_instance service (acc_name account) region instance desired_type with
        | Returned _ => [(instance, desired_type)]
        | Raised _ => []
        end
      else []
  | _ => []
  end.

(** A state [s'] is [s] after a decision [d] on [instance] (up to the logger). *)
Definition decided (service : Service) (account : Account) (region : string)
    (d : Decision) (instance : Instance) (desired : State * option string)
    (s s' : Scheduler) : Prop :=
  instance_states s' = store_after d instance (instance_states s)
  ∧ scheduler_start_list s' = scheduler_start_list s ++ started_by d instance
  ∧ scheduler_stop_list s' = scheduler_stop_list s ++ stopped_by d desired.1 instance
  ∧ schedule_resize_list s'
    = schedule_resize_list s ++ resized_by service account region d instance desired.2
  ∧ lambda_invocations s' = lambda_invocations s.

Lemma need_and_can_resize_eval instance desired_type s :
  (need_and_can_resize instance desired_type s).1 = resize_warranted instance desired_type.
Proof.
  unfold need_and_can_resize, resize_warranted.
  destruct desired_type as [t|]; [|reflexivity].
  destruct (String.eqb (instancetype instance) t), (allow_resize instance); reflexivity.
Qed.

Lemma need_and_can_resize_exec instance desired_type s :
  same_but_log s (need_and_can_resize instance desired_type s).2.
Proof.
  unfold need_and_can_resize, same_but_log.
  destruct desired_type as [t|]; [|cbn; auto].
  destruct (String.eqb (instancetype instance) t), (allow_resize instance); cbn; auto.
Qed.

Lemma process_new_desired_state_decided service account region instance
    desired_state desired_type last retain s :
  decided service account region
    (new_state_decision instance desired_state last retain)
    instance (desired_state, desired_type) s
    (exec (_process_new_desired_state service account region instance
             desired_state desired_type last retain) s).
Proof.
  unfold decided, _process_new_desired_state, new_state_decision, exec.
  destruct (bool_decide (last = STATE_RETAIN_RUNNING)).
  { repeat case_bool_decide; cbn; rewrite ?app_nil_r; auto. }
  destruct (bool_decide (desired_state = STATE_RUNNING)).
  - destruct (is_running instance); cbn.
    { case_bool_decide; [destruct retain|]; cbn; rewrite ?app_nil_r; auto. }
    (* the instance is to be started *)
    msimpl.
    match goal with
    | |- context [need_and_can_resize ?i ?t ?st] =>
        pose proof (need_and_can_resize_eval i t st) as Hv;
        pose proof (need_and_can_resize_exec i t st) as (Ha & Hb & Hc & Hd & He);
        destruct (need_and_can_resize i t st) as [b s1]
    end; cbn in *; subst b.
    destruct (resize_warranted instance desired_type); cbn;
      [unfold do_resize_instance; destruct (resize_instance _ _ _ _ _); msimpl|];
      rewrite ?Ha, ?Hb, ?Hc, ?Hd, ?He, ?app_nil_r; auto.
  - destruct (bool_decide (desired_state ∈ [STATE_STOPPED; STATE_STOPPED_FOR_RESIZE]));
      [destruct (is_running instance)|]; cbn; rewrite ?app_nil_r; auto.
Qed.

Lemma same_but_log_refl s : same_but_log s s.
Proof. repeat split. Qed.

Lemma same_but_log_trans s1 s2 s3 :
  same_but_log s1 s2 -> same_but_log s2 s3 -> same_but_log s1 s3.
Proof.
  intros (a1 & a2 & a3 & a4 & a5) (b1 & b2 & b3 & b4 & b5).
  repeat split; congruence.
Qed.

Lemma same_but_log_log lvl msg args s : same_but_log s (log lvl msg args s).2.
Proof. repeat split. Qed.

Lemma decided_same_but_log service account region d instance desired s s1 s' :
  same_but_log s s1 ->
  decided service account region d instance desired s1 s' ->
  decided service account region d instance desired s s'.
Proof.
  intros (a1 & a2 & a3 & a4 & a5) (b1 & b2 & b3 & b4 & b5).
  repeat split; congruence.
Qed.

Lemma decided_skip service account region instance desired s s' :
  same_but_log s s' -> decided service account region Skip instance desired s s'.
Proof.
  intros (a1 & a2 & a3 & a4 & a5). repeat split; cbn; rewrite ?app_nil_r; assumption.
Qed.

(** The desired state and type evaluated for an instance: those of its
    schedule (a placeholder when the schedule is unknown and nothing is
    evaluated). *)
Definition desired_of (boto : Boto) (configuration : SchedulerConfig.t)
    (instance : Instance) : State * option string :=
  match SchedulerConfig.get_schedule configuration (schedule_name instance) with
  | Some sch => desired_state_and_type boto sch instance
  | None => (STATE_UNKNOWN, None)
  end.

#[local] Arguments nonempty : simpl never.
#[local] Arguments _process_new_desired_state : simpl never.
#[local] Arguments get_desired_state_and_type : simpl never.

(** The loop body carries out the decision. *)
Lemma process_instance_decided service boto configuration account region instance s :
  decided service account region
    (decision boto configuration instance
       (InstanceStates.get_instance_state (inst_id instance) (instance_states s)))
    instance (desired_of boto configuration instance) s
    (exec (process_instance service boto configuration account region instance) s).
Proof.
  unfold process_instance, decision, desired_of, exec.
  destruct (is_terminated instance).
  { repeat split; cbn; rewrite ?app_nil_r; reflexivity. }
  destruct (SchedulerConfig.get_schedule configuration (schedule_name instance)) as [sch|].
  2:{ apply decided_skip, same_but_log_log. }
  msimpl.
  match goal with
  | |- context [get_desired_state_and_type ?b ?sc ?i ?st] =>
      pose proof (get_desired_state_and_type_eval b sc i st) as Hv;
      pose proof (get_desired_state_and_type_exec b sc i st) as Hs;
      remember (get_desired_state_and_type b sc i st) as r eqn:Hr
  end.
  clear Hr. destruct r as [[desired_state desired_type] s1].
  unfold same_but_log in Hs.
  cbn in Hv, Hs. rewrite <- Hv. cbn.
  unfold get_instance_state; msimpl.
  destruct Hs as (Ha & Hb & Hc & Hd & He). rewrite Ha.
  set (last := InstanceStates.get_instance_state (inst_id instance) (instance_states s)).
  match goal with
  | |- decided _ _ _ _ _ _ _ (_ ?st).2 =>
      assert (same_but_log s st) as Hst by (repeat split; cbn; congruence);
      generalize dependent st; intros s2 Hst
  end.
  assert (forall s3, same_but_log s2 s3 ->
            decided service account region
              (new_state_decision instance desired_state last (retain_running sch))
              instance (desired_state, desired_type) s
              (_process_new_desired_state service account region instance
                 desired_state desired_type last (retain_running sch) s3).2) as Hp.
  { intros s3 H23.
    eapply decided_same_but_log; [exact (same_but_log_trans _ _ _ Hst H23)|].
    apply process_new_desired_state_decided. }
  destruct (bool_decide (last = STATE_UNKNOWN)).
  - destruct (is_running instance); cbn; [|apply Hp, same_but_log_refl].
    destruct (bool_decide (desired_state = STATE_STOPPED)); cbn;
      [|apply Hp, same_but_log_refl].
    destruct (stop_new_instances sch); cbn; [apply Hp, same_but_log_refl|].
    destruct Hst as (Ha' & Hb' & Hc' & Hd' & He').
    repeat split; cbn; rewrite ?app_nil_r; congruence.
  - destruct (enforced sch).
    + destruct (is_running instance && bool_decide (desired_state = STATE_STOPPED)
                || negb (is_running instance) && bool_decide (desired_state = STATE_RUNNING)).
      * cbn. apply Hp. repeat split.
      * apply decided_skip. exact Hst.
    + destruct (bool_decide (last ≠ desired_state)); [apply Hp, same_but_log_refl|].
      apply decided_skip. exact Hst.
Qed.

(** The ids of a list of instances. *)
Definition ids (l : list Instance) : list string := map (fun i : Instance => inst_id i) l.

Lemma elem_of_ids x l : x ∈ ids l <-> exists i : Instance, i ∈ l ∧ inst_id i = x.
Proof.
  unfold ids. rewrite list_elem_of_In, in_map_iff.
  split; intros (i & H1 & H2); exists i; [rewrite list_elem_of_In|rewrite <- list_elem_of_In];
    tauto.
Qed.

Lemma ids_cons i l : ids (i :: l) = inst_id i :: ids l.
Proof. reflexivity. Qed.

(** With distinct ids, an id names one instance of the list. *)
Lemma NoDup_ids_inj l (i j : Instance) :
  NoDup (ids l) -> i ∈ l -> j ∈ l -> inst_id i = inst_id j -> i = j.
Proof.
  induction l as [|a l IH]; intros Hnd Hi Hj Hid; [inversion Hi|].
  rewrite ids_cons in Hnd. apply NoDup_cons in Hnd as [Ha Hnd].
  apply elem_of_cons in Hi as [->|Hi]; apply elem_of_cons in Hj as [->|Hj].
  - reflexivity.
  - exfalso. apply Ha. apply elem_of_ids. exists j. auto.
  - exfalso. apply Ha. apply elem_of_ids. exists i. auto.
  - auto.
Qed.

Lemma scheduled_instances_ids service account region :
  ids (_scheduled_instances_in_region service account region)
  = ids (get_schedulable_instances service (session account) (acc_name account)
           (role account) region).
Proof.
  unfold _scheduled_instances_in_region, ids. rewrite map_map. reflexivity.
Qed.

(** ** The loop over the instances of a region, as a function *)

Section Pass.

Variable service : Service.
Variable boto : Boto.
Variable configuration : SchedulerConfig.t.
Variable account : Account.
Variable region : string.

(** The decision for an instance against a store. *)
Definition decision_in (st : InstanceStates.t) (instance : Instance) : Decision :=
  decision boto configuration instance
    (InstanceStates.get_instance_state (inst_id instance) st).

Definition step_store (st : InstanceStates.t) (instance : Instance) : InstanceStates.t :=
  store_after (decision_in st instance) instance st.

(** The store after the loop has gone through [todo]. *)
Definition loop_store (todo : list Instance) (st : InstanceStates.t) : InstanceStates.t :=
  foldl step_store st todo.

(** The instances the loop appends to the start list. *)
Fixpoint loop_starts (todo : list Instance) (st : InstanceStates.t) : list Instance :=
  match todo with
  | [] => []
  | i :: todo' => started_by (decision_in st i) i ++ loop_starts todo' (step_store st i)
  end.

(** The instances the loop appends to the stop list. *)
Fixpoint loop_stops (todo : list Instance) (st : InstanceStates.t) : list Instance :=
  match todo with
  | [] => []
  | i :: todo' =>
      stopped_by (decision_in st i) (desired_of boto configuration i).1 i
      ++ loop_stops todo' (step_store st i)
  end.

(** The entries the loop appends to the resize list. *)
Fixpoint loop_resizes (todo : list Instance) (st : InstanceStates.t)
  : list (Instance * option string) :=
  match todo with
  | [] => []
  | i :: todo' =>
      resized_by service account region (decision_in st i) i
        (desired_of boto configuration i).2
      ++ loop_resizes todo' (step_store st i)
  end.

Lemma instances_loop_load instance todo instances s :
  instances_loop service boto configuration account region
    (instance :: todo) false instances s
  = instances_loop service boto configuration account region
      (instance :: todo) true instances
      (exec (modify_states (InstanceStates.load (acc_name account) region)) s).
Proof. reflexivity. Qed.

(** The loop refines its functional description. *)
Lemma instances_loop_spec todo : forall instances s,
  let r := instances_loop service boto configuration account region
             todo true instances s in
  r.1 = instances ++ todo
  ∧ instance_states r.2 = loop_store todo (instance_states s)
  ∧ scheduler_start_list r.2
    = scheduler_start_list s ++ loop_starts todo (instance_states s)
  ∧ scheduler_stop_list r.2
    = scheduler_stop_list s ++ loop_stops todo (instance_states s)
  ∧ schedule_resize_list r.2
    = schedule_resize_list s ++ loop_resizes todo (instance_states s)
  ∧ lambda_invocations r.2 = lambda_invocations s.
Proof.
  induction todo as [|i todo IH]; intros instances s.
  { cbn. rewrite !app_nil_r. repeat split. }
  cbn [instances_loop negb].
  unfold mbind, M_bind, bind, mret, M_ret, ret.
  pose proof (process_instance_decided service boto configuration account region i s)
    as (Ha & Hb & Hc & Hd & He).
  unfold exec in *.
  destruct (process_instance service boto configuration account region i s) as [[] s1].
  cbn [snd] in *.
  specialize (IH (instances ++ [i]) s1).
  cbv zeta in IH. destruct IH as (I0 & Ia & Ib & Ic & Id & Ie).
  cbn [loop_starts loop_stops loop_resizes].
  unfold loop_store in *. cbn [foldl]. fold (decision_in (instance_states s) i) in *.
  rewrite I0, Ia, Ib, Ic, Id, Ie, Ha, Hb, Hc, Hd, He.
  unfold step_store. rewrite <- !app_assoc. repeat split.
Qed.

(** The store after the states reported by the driver are recorded. *)
Definition record_results (results : list (string * State)) (st : InstanceStates.t)
  : InstanceStates.t :=
  foldl (fun st r => InstanceStates.set_instance_state r.1 r.2 st) st results.

(** The store after [_start_and_stop_instances]. *)
Definition commit_store (starts stops : list Instance) (st : InstanceStates.t)
  : InstanceStates.t :=
  let st1 :=
    if nonempty starts
    then record_results (start_instances service (acc_name account) region starts) st
    else st in
  if nonempty stops
  then record_results (stop_instances service (acc_name account) region stops) st1
  else st1.

Lemma for_each_record results : forall s,
  for_each results
    (fun '(inst_id, state) =>
       modify_states (InstanceStates.set_instance_state inst_id state)) s
  = modify_states (record_results results) s.
Proof.
  induction results as [|[x st] results IH]; intros s.
  { destruct s; reflexivity. }
  cbn [for_each]. unfold mbind, M_bind, bind. cbn [modify_states].
  rewrite IH. reflexivity.
Qed.

Lemma start_and_stop_spec s :
  let s' := exec (_start_and_stop_instances service account region) s in
  instance_states s'
  = commit_store (scheduler_start_list s) (scheduler_stop_list s) (instance_states s)
  ∧ scheduler_start_list s' = scheduler_start_list s
  ∧ scheduler_stop_list s' = scheduler_stop_list s
  ∧ schedule_resize_list s' = schedule_resize_list s
  ∧ lambda_invocations s' = lambda_invocations s.
Proof.
  unfold _start_and_stop_instances, commit_store, exec. msimpl.
  destruct (nonempty (scheduler_start_list s)); msimpl;
    rewrite ?for_each_record; cbn;
    destruct (nonempty (scheduler_stop_list s)); msimpl;
    rewrite ?for_each_record; cbn; repeat split.
Qed.

(** The store the loop starts from: loaded when the driver yields an
    instance, left as it is otherwise. *)
Definition loaded_store (todo : list Instance) (st : InstanceStates.t) : InstanceStates.t :=
  match todo with
  | [] => st
  | _ :: _ => InstanceStates.load (acc_name account) region st
  end.

(** The store at the end of [process_region]. *)
Definition region_store (todo : list Instance) (st : InstanceStates.t) : InstanceStates.t :=
  let st0 := loaded_store todo st in
  InstanceStates.save
    (InstanceStates.cleanup (map (fun i : Instance => inst_id i) todo)
       (commit_store (loop_starts todo st0) (loop_stops todo st0) (loop_store todo st0))).

(** [process_region] refines its functional description. *)
Lemma process_region_spec out s :
  let todo := _scheduled_instances_in_region service account region in
  let st0 := loaded_store todo (instance_states s) in
  let s' := exec (process_region service boto configuration account region out) s in
  instance_states s' = region_store todo (instance_states s)
  ∧ scheduler_start_list s' = loop_starts todo st0
  ∧ scheduler_stop_list s' = loop_stops todo st0
  ∧ schedule_resize_list s' = loop_resizes todo st0
  ∧ lambda_invocations s' = lambda_invocations s.
Proof.
  intros todo st0. unfold process_region, exec.
  destruct out as [[o1 o2] o3]. msimpl. fold todo.
  match goal with
  | |- context [instances_loop _ _ _ _ _ todo false [] ?st] =>
      assert (exists s1,
                instances_loop service boto configuration account region todo false [] st
                = instances_loop service boto configuration account region todo true [] s1
                ∧ instance_states s1 = st0
                ∧ scheduler_start_list s1 = []
                ∧ scheduler_stop_list s1 = []
                ∧ schedule_resize_list s1 = []
                ∧ lambda_invocations s1 = lambda_invocations s) as (s1 & -> & H1)
  end.
  { subst st0. destruct todo as [|i todo'].
    - eexists. split; [reflexivity|]. repeat split.
    - eexists. rewrite instances_loop_load. split; [reflexivity|]. repeat split. }
  destruct H1 as (E0 & E1 & E2 & E3 & E4).
  pose proof (instances_loop_spec todo [] s1) as L. cbv zeta in L.
  destruct (instances_loop service boto configuration account region todo true [] s1)
    as [instances s2].
  cbn [fst snd] in L. destruct L as (L0 & La & Lb & Lc & Ld & Le).
  rewrite E0 in *. rewrite E1 in Lb. rewrite E2 in Lc. rewrite E3 in Ld.
  cbn in L0, Lb, Lc, Ld. subst instances.
  pose proof (start_and_stop_spec s2) as C. cbv zeta in C. unfold exec in C.
  destruct (_start_and_stop_instances service account region s2) as [[] s3].
  cbn [snd] in C. destruct C as (Ca & Cb & Cc & Cd & Ce).
  cbn. unfold region_store. fold st0.
  rewrite Ca, Cb, Cc, Cd, Ce, La, Lb, Lc, Ld, Le, E4. repeat split.
Qed.

(** *** Properties of the functional description *)

Lemma decision_in_ext st st' (i : Instance) :
  InstanceStates.state_info st !! inst_id i = InstanceStates.state_info st' !! inst_id i ->
  decision_in st i = decision_in st' i.
Proof.
  intros H. unfold decision_in, InstanceStates.get_instance_state.
  rewrite H. reflexivity.
Qed.

Lemma step_store_other st (i : Instance) x :
  x ≠ inst_id i ->
  InstanceStates.state_info (step_store st i) !! x = InstanceStates.state_info st !! x.
Proof.
  intros Hx. unfold step_store, store_after.
  destruct (decision_in st i); cbn; try reflexivity.
  - apply lookup_insert_ne. congruence.
  - apply lookup_delete_ne. congruence.
Qed.

Lemma step_store_frame st i :
  InstanceStates.account_region (step_store st i) = InstanceStates.account_region st
  ∧ InstanceStates.table (step_store st i) = InstanceStates.table st.
Proof.
  unfold step_store, store_after. destruct (decision_in st i); split; reflexivity.
Qed.

Lemma loop_store_cons i todo st :
  loop_store (i :: todo) st = loop_store todo (step_store st i).
Proof. reflexivity. Qed.

Lemma loop_store_frame todo : forall st,
  InstanceStates.account_region (loop_store todo st) = InstanceStates.account_region st
  ∧ InstanceStates.table (loop_store todo st) = InstanceStates.table st.
Proof.
  induction todo as [|i todo IH]; intros st; [split; reflexivity|].
  rewrite loop_store_cons. destruct (IH (step_store st i)) as [-> ->].
  apply step_store_frame.
Qed.

Lemma loop_store_other todo : forall st x,
  x ∉ ids todo ->
  InstanceStates.state_info (loop_store todo st) !! x = InstanceStates.state_info st !! x.
Proof.
  induction todo as [|i todo IH]; intros st x Hx; [reflexivity|].
  rewrite ids_cons in Hx. apply not_elem_of_cons in Hx as [Hne Hx].
  rewrite loop_store_cons, IH by assumption. apply step_store_other. assumption.
Qed.

Lemma loop_store_own todo : forall st (i : Instance),
  NoDup (ids todo) -> i ∈ todo ->
  InstanceStates.state_info (loop_store todo st) !! inst_id i
  = InstanceStates.state_info (step_store st i) !! inst_id i.
Proof.
  induction todo as [|a todo IH]; intros st i Hnd Hi; [inversion Hi|].
  rewrite ids_cons in Hnd. apply NoDup_cons in Hnd as [Ha Hnd].
  apply elem_of_cons in Hi as [->|Hi]; rewrite loop_store_cons.
  - apply loop_store_other. assumption.
  - rewrite IH by assumption.
    assert (inst_id i ≠ inst_id a) as Hne.
    { intros E. apply Ha. apply elem_of_ids. exists i. auto. }
    unfold step_store at 1.
    rewrite (decision_in_ext (step_store st a) st i)
      by (apply step_store_other; assumption).
    unfold step_store at 2, store_after.
    destruct (decision_in st i); cbn; rewrite ?lookup_insert_eq, ?lookup_delete_eq;
      try reflexivity; apply step_store_other; assumption.
Qed.

(** With distinct ids every decision is taken against the store the loop
    started from. *)
Lemma elem_of_loop_starts todo : forall st j,
  NoDup (ids todo) ->
  j ∈ loop_starts todo st <-> j ∈ todo ∧ decision_in st j = Start.
Proof.
  induction todo as [|a todo IH]; intros st j Hnd; cbn.
  { split; [inversion 1|intros [H _]; inversion H]. }
  rewrite ids_cons in Hnd. apply NoDup_cons in Hnd as [Ha Hnd].
  rewrite elem_of_app, IH, elem_of_cons by assumption. split.
  - intros [H|[H1 H2]].
    + destruct (decision_in st a) eqn:E; cbn in H; try (inversion H; fail).
      apply list_elem_of_singleton in H as ->. auto.
    + split; [auto|]. rewrite <- H2. symmetry. apply decision_in_ext.
      apply step_store_other. intros E. apply Ha, elem_of_ids. exists j. auto.
  - intros [[->|H1] H2].
    + left. rewrite H2. cbn. apply list_elem_of_singleton. reflexivity.
    + right. split; [assumption|]. rewrite <- H2. apply decision_in_ext.
      apply step_store_other. intros E. apply Ha, elem_of_ids. exists j. auto.
Qed.

Lemma elem_of_loop_stops todo : forall st j,
  NoDup (ids todo) ->
  j ∈ loop_stops todo st <->
  exists i : Instance, i ∈ todo ∧ decision_in st i = Stop
            ∧ j = if bool_decide ((desired_of boto configuration i).1
                                  = STATE_STOPPED_FOR_RESIZE)
                  then replace_resized i true else i.
Proof.
  induction todo as [|a todo IH]; intros st j Hnd; cbn.
  { split; [inversion 1|intros (i & H & _); inversion H]. }
  rewrite ids_cons in Hnd. apply NoDup_cons in Hnd as [Ha Hnd].
  rewrite elem_of_app, IH by assumption. split.
  - intros [H|(i & H1 & H2 & H3)].
    + destruct (decision_in st a) eqn:E; cbn in H; try (inversion H; fail).
      apply list_elem_of_singleton in H. exists a. rewrite elem_of_cons. auto.
    + exists i. rewrite elem_of_cons. split; [auto|]. split; [|assumption].
      rewrite <- H2. symmetry. apply decision_in_ext.
      apply step_store_other. intros E. apply Ha, elem_of_ids. exists i. auto.
  - intros (i & H1 & H2 & H3). apply elem_of_cons in H1 as [->|H1].
    + left. rewrite H2. cbn. apply list_elem_of_singleton. assumption.
    + right. exists i. split; [assumption|]. split; [|assumption].
      rewrite <- H2. apply decision_in_ext.
      apply step_store_other. intros E. apply Ha, elem_of_ids. exists i. auto.
Qed.

Lemma elem_of_loop_resizes todo : forall st j,
  NoDup (ids todo) ->
  j ∈ loop_resizes todo st <->
  exists i : Instance, i ∈ todo
            ∧ j ∈ resized_by service account region (decision_in st i) i
                   (desired_of boto configuration i).2.
Proof.
  induction todo as [|a todo IH]; intros st j Hnd; cbn.
  { split; [inversion 1|intros (i & H & _); inversion H]. }
  rewrite ids_cons in Hnd. apply NoDup_cons in Hnd as [Ha Hnd].
  rewrite elem_of_app, IH by assumption. split.
  - intros [H|(i & H1 & H2)].
    + exists a. rewrite elem_of_cons. auto.
    + exists i. rewrite elem_of_cons. split; [auto|].
      rewrite (decision_in_ext st (step_store st a) i);
        [assumption|].
      symmetry. apply step_store_other. intros E. apply Ha, elem_of_ids. exists i. auto.
  - intros (i & H1 & H2). apply elem_of_cons in H1 as [->|H1].
    + left. assumption.
    + right. exists i. split; [assumption|].
      rewrite (decision_in_ext (step_store st a) st i);
        [assumption|].
      apply step_store_other. intros E. apply Ha, elem_of_ids. exists i. auto.
Qed.

End Pass.

(** ** [tag_list] *)

Lemma getitem_of_elem (d : SchedulerConfig.TagsDict) k v :
  NoDup (SchedulerConfig.keys d) -> (k, v) ∈ d -> SchedulerConfig.getitem d k = Some v.
Proof.
  induction d as [|[k' v'] d IH]; intros Hnd Hin; [inversion Hin|].
  cbn in Hnd. apply NoDup_cons in Hnd as [Hk Hnd].
  cbn. apply elem_of_cons in Hin as [E|Hin].
  - injection E as -> ->. rewrite String.eqb_refl. reflexivity.
  - destruct (String.eqb_spec k' k) as [->|Hne]; [|auto].
    exfalso. apply Hk. unfold SchedulerConfig.keys.
    apply list_elem_of_In, in_map_iff. exists (k, v). split; [reflexivity|].
    apply list_elem_of_In. assumption.
Qed.

Lemma valid_tags_of_total (d0 d : SchedulerConfig.TagsDict) :
  (forall k v, (k, v) ∈ d -> SchedulerConfig.getitem d0 k = Some v) ->
  is_Some (SchedulerConfig.valid_tags_of d0 (SchedulerConfig.keys d)).
Proof.
  induction d as [|[k v] d IH]; intros H; cbn; [eexists; reflexivity|].
  destruct IH as [r Hr].
  { intros k' v' Hin. apply H. apply elem_of_cons. auto. }
  unfold SchedulerConfig.keys in Hr. rewrite Hr.
  rewrite (H k v) by (apply elem_of_cons; auto).
  destruct (negb _); eexists; reflexivity.
Qed.

Lemma tag_entries_total (d0 d : SchedulerConfig.TagsDict) :
  (forall k v, (k, v) ∈ d -> SchedulerConfig.getitem d0 k = Some v) ->
  SchedulerConfig.tag_entries d0 (SchedulerConfig.keys d)
  = Some (map (fun kv => {| SchedulerConfig.Key := kv.1; SchedulerConfig.Value := kv.2 |}) d).
Proof.
  induction d as [|[k v] d IH]; intros H; cbn; [reflexivity|].
  unfold SchedulerConfig.keys in IH. rewrite IH.
  - rewrite (H k v) by (apply elem_of_cons; auto). reflexivity.
  - intros k' v' Hin. apply H. apply elem_of_cons. auto.
Qed.

(** C10: for every tags dictionary (a Python dict: no key twice),
    [SchedulerConfig.tag_list] returns, in the order of the dictionary, one
    [{Key, Value}] entry per key -- the keys starting with "aws:" or
    "cloudformation:" included: the [valid_tags] filter it computes has no
    effect on the list returned. *)
Theorem tag_list_every_key (tags_dict : SchedulerConfig.TagsDict) :
  NoDup (SchedulerConfig.keys tags_dict) ->
  SchedulerConfig.tag_list tags_dict
  = Some (map (fun kv => {| SchedulerConfig.Key := kv.1; SchedulerConfig.Value := kv.2 |})
            tags_dict).
Proof.
  intros Hnd. unfold SchedulerConfig.tag_list.
  destruct (valid_tags_of_total tags_dict tags_dict) as [vt ->].
  { intros k v. apply getitem_of_elem. assumption. }
  apply tag_entries_total. intros k v. apply getitem_of_elem. assumption.
Qed.

(** A dictionary with an "aws:" key and a "cloudformation:" key: both are in
    the list returned. *)
Lemma tag_list_every_key_witness :
  SchedulerConfig.tag_list
    [("aws:autoscaling:groupName", "blue"); ("Name", "web"); ("cloudformation:stack", "s1")]
  = Some [ {| SchedulerConfig.Key := "aws:autoscaling:groupName";
              SchedulerConfig.Value := "blue" |};
           {| SchedulerConfig.Key := "Name"; SchedulerConfig.Value := "web" |};
           {| SchedulerConfig.Key := "cloudformation:stack";
              SchedulerConfig.Value := "s1" |} ].
Proof.
  apply (tag_list_every_key
           [("aws:autoscaling:groupName", "blue"); ("Name", "web");
            ("cloudformation:stack", "s1")]).
  apply (bool_decide_unpack _). vm_compute. exact I.
Defined.

(** ** Concrete collaborators, for the scenarios below *)

Module Scenario.

(** An instance as the driver yields it. *)
Definition instance (id : string) (running : bool) (type : string) (schedule : string)
  : Instance :=
  {| info :=
       {| inst_id := id; inst_name := None;
          current_state := if running then "running" else "stopped";
          instancetype := type; is_running := running; is_terminated := false;
          allow_resize := true; schedule_name := schedule; resized := false;
          inst_account := EmptyString; inst_region := EmptyString;
          inst_service := EmptyString; instance_str := EmptyString |};
     maintenance_window := None |}.

(** A schedule whose evaluator answers the same state and type at any time. *)
Definition schedule (name : string) (desired : State) (desired_type : option string)
    (enforce retain stop_new : bool) : Schedule :=
  {| sched_name := name; enforced := enforce; retain_running := retain;
     stop_new_instances := stop_new; use_maintenance_window := true;
     get_desired_state := fun _ _ => (desired, desired_type, Some "period") |}.

(** A driver that yields the given instances in every region, reports every
    instance it starts as running and every instance it stops as stopped,
    and resizes or fails to, as told. *)
Definition driver (instances : list Instance) (resize_ok : bool) : Service :=
  {| service_name := "ec2";
     svc_allow_resize := true;
     get_schedulable_instances := fun _ _ _ _ => instances;
     start_instances := fun _ _ l => map (fun i : Instance => (inst_id i, STATE_RUNNING)) l;
     stop_instances := fun _ _ l => map (fun i : Instance => (inst_id i, STATE_STOPPED)) l;
     resize_instance :=
       fun _ _ _ _ => if resize_ok then Returned tt else Raised "InvalidInstanceType" |}.

(** An SDK whose STS answers as told. *)
Definition sdk (sts : string -> string -> AssumeRoleResult) : Boto :=
  {| home_region := "us-east-1";
     assume_role := sts;
     lambda_invoke := fun _ _ => Returned "202";
     utcnow := 0%Z |}.

Definition sts_ok : string -> string -> AssumeRoleResult :=
  fun _ _ => Token "AKIA" "secret" "token".

(** A configuration with the given schedules and no region of its own. *)
Definition config (lambda_too : bool) (remote : list string) (schs : list Schedule)
  : SchedulerConfig.t :=
  {| SchedulerConfig.regions := [];
     SchedulerConfig.schedule_lambda_account := lambda_too;
     SchedulerConfig.remote_account_ids := remote;
     SchedulerConfig.namespace := "prod";
     SchedulerConfig.aws_partition := "aws";
     SchedulerConfig.scheduler_role_name := "Scheduler-Role";
     SchedulerConfig.trace := false;
     SchedulerConfig.use_metrics := false;
     SchedulerConfig.schedules :=
       list_to_map (map (fun sch => (sched_name sch, sch)) schs) |}.

(** The hosting account, as an [Account] of the generator. *)
Definition host : Account :=
  {| session := DefaultSession; acc_name := "111122223333"; role := None |}.

End Scenario.

(** ** The schedule evaluator *)

(** C8: for a schedule with [use_maintenance_window] and an instance that
    carries a maintenance window, [get_desired_state_and_type] asks the
    window first (it logs so, and the window is evaluated at the current UTC
    instant); when the window answers running, the state and type it answers
    are returned in place of the schedule's, otherwise the state and type of
    the schedule's own evaluation are returned. *)
Theorem maintenance_window_first (boto : Boto) (schedule : Schedule) (instance : Instance)
    (window : MaintenanceWindow) (s : Scheduler) :
  use_maintenance_window schedule = true ->
  maintenance_window instance = Some window ->
  let in_window := mw_get_desired_state window instance (utcnow boto) in
  let scheduled := get_desired_state schedule instance (utcnow boto) in
  eval (get_desired_state_and_type boto schedule instance) s
  = (if bool_decide (in_window.1.1 = STATE_RUNNING)
     then (in_window.1.1, in_window.1.2)
     else (scheduled.1.1, scheduled.1.2))
  ∧ head (drop (length (logger s))
            (logger (exec (get_desired_state_and_type boto schedule instance) s)))
    = Some {| log_level := INFO; log_msg := INF_MAINTENANCE_WINDOW;
              log_args := [mw_name window; inst_id instance] |}.
Proof.
  intros Huse Hmw in_window scheduled. subst in_window scheduled.
  unfold eval, exec, get_desired_state_and_type. rewrite Huse, Hmw. msimpl.
  destruct (mw_get_desired_state window instance (utcnow boto)) as [[w_state w_type] w_period].
  destruct (get_desired_state schedule instance (utcnow boto)) as [[s_state s_type] s_period].
  cbn. case_bool_decide; cbn; rewrite drop_app_length; split; reflexivity.
Qed.

(** An instance inside its maintenance window, under a schedule that would
    have it stopped: the window's answer is returned. *)
Lemma maintenance_window_first_witness :
  let window :=
    {| mw_name := "mon-1";
       mw_get_desired_state := fun _ _ => (STATE_RUNNING, Some "m5.large", Some "mon-1-period") |} in
  let instance :=
    {| info := Scenario.instance "i-1" false "m5.large" "office";
       maintenance_window := Some window |} in
  let schedule := Scenario.schedule "office" STATE_STOPPED None false false true in
  eval (get_desired_state_and_type (Scenario.sdk Scenario.sts_ok) schedule instance)
    (new_scheduler ∅)
  = (STATE_RUNNING, Some "m5.large")
  ∧ head (logger (exec (get_desired_state_and_type (Scenario.sdk Scenario.sts_ok)
                          schedule instance) (new_scheduler ∅)))
    = Some {| log_level := INFO; log_msg := INF_MAINTENANCE_WINDOW;
              log_args := ["mon-1"; "i-1"] |}.
Proof.
  exact (maintenance_window_first (Scenario.sdk Scenario.sts_ok)
           (Scenario.schedule "office" STATE_STOPPED None false false true)
           {| info := Scenario.instance "i-1" false "m5.large" "office";
              maintenance_window :=
                Some {| mw_name := "mon-1";
                        mw_get_desired_state :=
                          fun _ _ => (STATE_RUNNING, Some "m5.large", Some "mon-1-period") |} |}
           _ (new_scheduler ∅) eq_refl eq_refl).
Defined.

(** ** The start list and the stop list of a region *)

Lemma stopped_instance_id (instance : Instance) (b : bool) :
  inst_id (info (if b then replace_resized instance true else instance)) = inst_id instance.
Proof. destruct b; reflexivity. Qed.

(** C9: in every cycle and for every (account, region), when the service
    driver yields each instance id at most once for the region, no instance
    id is both in the start list and in the stop list built for that
    (account, region). *)
Theorem start_stop_disjoint (service : Service) (boto : Boto)
    (configuration : SchedulerConfig.t) (account : Account) (region : string)
    (out : Batches) (s : Scheduler) :
  NoDup (ids (get_schedulable_instances service (session account) (acc_name account)
                (role account) region)) ->
  let s' := exec (process_region service boto configuration account region out) s in
  forall i j : Instance,
    i ∈ scheduler_start_list s' -> j ∈ scheduler_stop_list s' -> inst_id i ≠ inst_id j.
Proof.
  intros Hnd s' i j Hi Hj Hid. subst s'.
  rewrite <- scheduled_instances_ids in Hnd.
  destruct (process_region_spec service boto configuration account region out s)
    as (_ & Hstart & Hstop & _).
  rewrite Hstart in Hi. rewrite Hstop in Hj.
  apply elem_of_loop_starts in Hi as [Hi Di]; [|assumption].
  apply elem_of_loop_stops in Hj as (j0 & Hj0 & Dj & ->); [|assumption].
  rewrite stopped_instance_id in Hid.
  assert (i = j0) as -> by (eapply NoDup_ids_inj; eassumption).
  congruence.
Qed.

(** Two instances of one region, one to be started and one to be stopped. *)
Definition two_instances : list Instance :=
  [ Scenario.instance "i-1" false "m5.large" "office";
    Scenario.instance "i-2" true "m5.large" "night" ].

Definition two_schedules : SchedulerConfig.t :=
  Scenario.config true []
    [ Scenario.schedule "office" STATE_RUNNING None false false true;
      Scenario.schedule "night" STATE_STOPPED None false false true ].

Example two_instances_lists :
  let s' := exec (process_region (Scenario.driver two_instances true)
                    (Scenario.sdk Scenario.sts_ok) two_schedules Scenario.host "us-east-1"
                    (∅, ∅, ∅)) (new_scheduler ∅) in
  ids (scheduler_start_list s') = ["i-1"] ∧ ids (scheduler_stop_list s') = ["i-2"].
Proof. vm_compute. split; reflexivity. Qed.

Lemma start_stop_disjoint_witness :
  NoDup (ids two_instances)
  ∧ forall i j : Instance,
      i ∈ scheduler_start_list
            (exec (process_region (Scenario.driver two_instances true)
                     (Scenario.sdk Scenario.sts_ok) two_schedules Scenario.host "us-east-1"
                     (∅, ∅, ∅)) (new_scheduler ∅)) ->
      j ∈ scheduler_stop_list
            (exec (process_region (Scenario.driver two_instances true)
                     (Scenario.sdk Scenario.sts_ok) two_schedules Scenario.host "us-east-1"
                     (∅, ∅, ∅)) (new_scheduler ∅)) ->
      inst_id i ≠ inst_id j.
Proof.
  split.
  - apply (bool_decide_unpack _). vm_compute. exact I.
  - apply (start_stop_disjoint (Scenario.driver two_instances true)
             (Scenario.sdk Scenario.sts_ok) two_schedules Scenario.host "us-east-1"
             (∅, ∅, ∅) (new_scheduler ∅)).
    apply (bool_decide_unpack _). vm_compute. exact I.
Defined.

(** ** A failed resize *)

(** A stopped instance whose schedule wants it running with another machine
    type, and a driver whose [resize_instance] raises. *)
Definition to_resize : list Instance := [ Scenario.instance "i-1" false "m5.large" "office" ].

Definition pinned_type : SchedulerConfig.t :=
  Scenario.config true []
    [ Scenario.schedule "office" STATE_RUNNING (Some "m5.xlarge") false false true ].

(** Whenever the instance is to be started and a resize is warranted, a
    failure of the driver's [resize_instance] is logged, and the instance is
    appended to the start list all the same. *)
Lemma failed_resize_appends (service : Service) (account : Account) (region : string)
    (instance : Instance) (new_type : string) (last : State) (retain : bool) (ex : string)
    (s : Scheduler) :
  last ≠ STATE_RETAIN_RUNNING ->
  is_running instance = false ->
  instancetype instance ≠ new_type ->
  allow_resize instance = true ->
  resize_instance service (acc_name account) region instance (Some new_type) = Raised ex ->
  let s' := exec (_process_new_desired_state service account region instance
                    STATE_RUNNING (Some new_type) last retain) s in
  scheduler_start_list s' = scheduler_start_list s ++ [instance]
  ∧ schedule_resize_list s' = schedule_resize_list s.
Proof.
  intros Hlast Hrun Htype Hallow Hraise s'. subst s'.
  destruct (process_new_desired_state_decided service account region instance
              STATE_RUNNING (Some new_type) last retain s) as (_ & Hb & _ & Hd & _).
  rewrite Hb, Hd. unfold new_state_decision.
  rewrite (bool_decide_eq_false_2 _ Hlast), Hrun.
  apply String.eqb_neq in Htype.
  rewrite (bool_decide_eq_true_2 (STATE_RUNNING = STATE_RUNNING)) by reflexivity.
  unfold started_by, resized_by, resize_warranted.
  cbn [negb snd]. rewrite Htype, Hallow. cbn. rewrite Hraise, app_nil_r. split; reflexivity.
Qed.

(** C2 (the code departs from the claim): the driver's [resize_instance]
    raises for a stopped instance that is to run with another machine type;
    the failure is logged and nothing enters the resize list, but the
    instance is in the start list of the cycle, and it is started and
    recorded as running. *)
Theorem failed_resize_still_started :
  let s' := exec (process_region (Scenario.driver to_resize false)
                    (Scenario.sdk Scenario.sts_ok) pinned_type Scenario.host "us-east-1"
                    (∅, ∅, ∅)) (new_scheduler ∅) in
  ids (scheduler_start_list s') = ["i-1"]
  ∧ schedule_resize_list s' = []
  ∧ {| log_level := ERROR; log_msg := ERR_SETTING_INSTANCE_TYPE;
       log_args := ["InvalidInstanceType"] |} ∈ logger s'
  ∧ InstanceStates.table (instance_states s') !! ("111122223333", "us-east-1")
    = Some {[ "i-1" := STATE_RUNNING ]}.
Proof.
  cbv zeta. repeat apply conj.
  - vm_compute. reflexivity.
  - vm_compute. reflexivity.
  - vm_compute. repeat first [apply list_elem_of_here | apply list_elem_of_further].
  - vm_compute. reflexivity.
Qed.

(** ** The account generator *)

(** C6 (the code departs from the claim): a remote account id that occurs
    twice in [remote_account_ids] is yielded twice, and no warning is logged:
    only the hosting account is ever entered in [accounts_done]. *)
Theorem duplicate_remote_account_yielded_twice :
  let configuration :=
    Scenario.config false ["444455556666"; "444455556666"]
      [ Scenario.schedule "office" STATE_RUNNING None false false true ] in
  let r := yielded (_accounts (Scenario.driver [] true) (Scenario.sdk Scenario.sts_ok)
                      "scheduler" configuration "111122223333") (new_scheduler ∅) in
  map acc_name r.1 = ["444455556666"; "444455556666"] ∧ logger r.2 = [].
Proof. vm_compute. split; reflexivity. Qed.

(** The duplicate the generator does detect: a remote account id equal to the
    hosting account, when the hosting account is scheduled. *)
Example duplicate_of_hosting_account_skipped :
  let configuration :=
    Scenario.config true ["111122223333"; "444455556666"]
      [ Scenario.schedule "office" STATE_RUNNING None false false true ] in
  let r := yielded (_accounts (Scenario.driver [] true) (Scenario.sdk Scenario.sts_ok)
                      "scheduler" configuration "111122223333") (new_scheduler ∅) in
  map acc_name r.1 = ["111122223333"; "444455556666"]
  ∧ logger r.2 = [ {| log_level := WARNING; log_msg := WARN_DUPLICATE_ACCOUNT;
                      log_args := ["111122223333"] |} ].
Proof. vm_compute. split; reflexivity. Qed.

(** ** What the engine leaves behind in the log *)

(** A computation only appends to the log. *)
Definition log_grows {A} (m : M A) : Prop :=
  forall s, logger s `prefix_of` logger (m s).2.

Lemma log_grows_ret {A} (a : A) : log_grows (mret a).
Proof. intros s. reflexivity. Qed.

Lemma log_grows_bind {A B} (m : M A) (k : A -> M B) :
  log_grows m -> (forall a, log_grows (k a)) -> log_grows (m ≫= k).
Proof.
  intros Hm Hk s. unfold mbind, M_bind, bind.
  specialize (Hm s). destruct (m s) as [a s1]. cbn in Hm.
  etrans; [exact Hm|]. apply Hk.
Qed.

Lemma log_grows_log lvl msg args : log_grows (log lvl msg args).
Proof. intros s. cbn. apply prefix_app_r. reflexivity. Qed.

Lemma log_grows_modify_states f : log_grows (modify_states f).
Proof. intros s. reflexivity. Qed.

Lemma log_grows_get_instance_state x : log_grows (get_instance_state x).
Proof. intros s. reflexivity. Qed.

Lemma log_grows_record_invocation fn payload : log_grows (record_invocation fn payload).
Proof. intros s. reflexivity. Qed.

Lemma log_grows_get_start_list : log_grows get_start_list.
Proof. intros s. reflexivity. Qed.

Lemma log_grows_get_stop_list : log_grows get_stop_list.
Proof. intros s. reflexivity. Qed.

Lemma log_grows_get_resize_list : log_grows get_resize_list.
Proof. intros s. reflexivity. Qed.

Lemma log_grows_set_start_list l : log_grows (set_start_list l).
Proof. intros s. reflexivity. Qed.

Lemma log_grows_set_stop_list l : log_grows (set_stop_list l).
Proof. intros s. reflexivity. Qed.

Lemma log_grows_set_resize_list l : log_grows (set_resize_list l).
Proof. intros s. reflexivity. Qed.

Lemma log_grows_for_each {A} (l : list A) (body : A -> M unit) :
  (forall a, log_grows (body a)) -> log_grows (for_each l body).
Proof.
  intros Hb. induction l as [|a l IH]; cbn [for_each].
  - apply log_grows_ret.
  - apply log_grows_bind; auto.
Qed.

(** Decompose a computation along its binds and branches. *)
Ltac log_grows_step :=
  first
    [ apply log_grows_ret
    | apply log_grows_log
    | apply log_grows_modify_states
    | apply log_grows_get_instance_state
    | apply log_grows_record_invocation
    | apply log_grows_get_start_list
    | apply log_grows_get_stop_list
    | apply log_grows_get_resize_list
    | apply log_grows_set_start_list
    | apply log_grows_set_stop_list
    | apply log_grows_set_resize_list
    | apply log_grows_for_each; intros
    | apply log_grows_bind; [|intros]
    | match goal with
      | |- log_grows (if ?b then _ else _) => destruct b
      | |- log_grows (match ?x with _ => _ end) => destruct x
      end ].

Section LogGrows.

Variable service : Service.
Variable boto : Boto.
Variable function_name : string.
Variable configuration : SchedulerConfig.t.
Variable lambda_account : string.

Lemma log_grows_process_instance account region instance :
  log_grows (process_instance service boto configuration account region instance).
Proof.
  unfold process_instance, get_desired_state_and_type, _process_new_desired_state,
    need_and_can_resize, do_resize_instance.
  repeat log_grows_step.
Qed.

Lemma log_grows_instances_loop account region todo :
  forall loaded instances,
    log_grows (instances_loop service boto configuration account region todo loaded instances).
Proof.
  induction todo as [|i todo IH]; intros loaded instances; cbn [instances_loop].
  - apply log_grows_ret.
  - repeat (apply log_grows_bind; [|intros]); auto using log_grows_process_instance.
    repeat log_grows_step.
Qed.

Lemma log_grows_process_region account region out :
  log_grows (process_region service boto configuration account region out).
Proof.
  unfold process_region, _start_and_stop_instances. destruct out as [[o1 o2] o3].
  repeat first [apply log_grows_instances_loop | log_grows_step].
Qed.

Lemma log_grows_regions_loop account regions :
  forall out, log_grows (regions_loop service boto configuration account regions out).
Proof.
  induction regions as [|r regions IH]; intros out; cbn [regions_loop].
  - apply log_grows_ret.
  - apply log_grows_bind; [apply log_grows_process_region|auto].
Qed.

Lemma log_grows_process_account account :
  log_grows (_process_account service boto configuration account).
Proof.
  unfold _process_account.
  repeat first [apply log_grows_regions_loop | log_grows_step].
Qed.

Lemma log_grows_remote_account_step account :
  log_grows (remote_account_step service boto function_name configuration lambda_account
               account).
Proof.
  unfold remote_account_step, get_session_for_account, remove_account_from_config.
  repeat log_grows_step.
Qed.

Lemma log_grows_accounts_loop ids :
  forall response,
    log_grows (accounts_loop service boto configuration
                 (map (remote_account_step service boto function_name configuration
                         lambda_account) ids) response).
Proof.
  induction ids as [|a ids IH]; intros response; cbn [map accounts_loop].
  - apply log_grows_ret.
  - apply log_grows_bind; [apply log_grows_remote_account_step|].
    intros [acc|]; [|auto].
    apply log_grows_bind; [apply log_grows_process_account|auto].
Qed.

End LogGrows.

(** ** Accounts whose role cannot be assumed *)

Section AssumeRole.

Variable service : Service.
Variable boto : Boto.
Variable function_name : string.
Variable configuration : SchedulerConfig.t.
Variable lambda_account : string.

(** The payload of the deconfigure notice for an account. *)
Definition deconfigure_notice (account : string) : Json :=
  JObj [ ("account", JStr account);
         ("detail-type", JStr "Parameter Store Change");
         ("detail", JObj [ ("operation", JStr "Delete") ]) ].

(** The answer of STS for the cross-account role of an account. *)
Definition sts_answer (account : string) : AssumeRoleResult :=
  assume_role boto (role_arn configuration account) (role_session_name service account).

(** The remote accounts the engine deconfigures: those it asks STS about and
    for which STS answers access denied. *)
Definition denied (account : string) : bool :=
  bool_decide (account ∉ accounts_done configuration lambda_account)
  && match sts_answer account with
     | ClientError code _ => bool_decide (code = Some "AccessDenied")
     | Token _ _ _ => false
     end.

Lemma regions_loop_invocations account regions : forall out s,
  lambda_invocations (regions_loop service boto configuration account regions out s).2
  = lambda_invocations s.
Proof.
  induction regions as [|r regions IH]; intros out s; [reflexivity|].
  cbn [regions_loop]. unfold mbind, M_bind, bind.
  destruct (process_region_spec service boto configuration account r out s)
    as (_ & _ & _ & _ & He).
  unfold exec in He.
  destruct (process_region service boto configuration account r out s) as [out' s1].
  rewrite IH. exact He.
Qed.

Lemma process_account_invocations account s :
  lambda_invocations (_process_account service boto configuration account s).2
  = lambda_invocations s.
Proof.
  unfold _process_account. msimpl.
  match goal with
  | |- context [regions_loop _ _ _ _ ?rs ?out ?st] =>
      pose proof (regions_loop_invocations account rs out st) as H;
      destruct (regions_loop service boto configuration account rs out st)
        as [[[o1 o2] o3] s1]
  end.
  cbn in *. exact H.
Qed.

(** One turn of the generator for a remote account: what it yields, the
    calls it makes on the Lambda client, and what it logs. *)
Lemma remote_account_step_spec account s :
  let r := remote_account_step service boto function_name configuration lambda_account
             account s in
  lambda_invocations r.2
  = lambda_invocations s
    ++ (if denied account then [(function_name, deconfigure_notice account)] else [])
  ∧ (forall a, r.1 = Some a ->
       acc_name a = account
       ∧ exists k sk t, sts_answer account = Token k sk t)
  ∧ (forall code ex,
       account ∉ accounts_done configuration lambda_account ->
       sts_answer account = ClientError code ex ->
       code ≠ Some "AccessDenied" ->
       {| log_level := ERROR; log_msg := ERR_ASSUMING_ROLE;
          log_args := [role_arn configuration account; account; ex] |} ∈ logger r.2).
Proof.
  unfold remote_account_step, denied, get_session_for_account, remove_account_from_config.
  fold (sts_answer account).
  destruct (decide (account ∈ accounts_done configuration lambda_account)) as [Hin|Hnin].
  { rewrite (bool_decide_eq_true_2 _ Hin).
    rewrite (bool_decide_eq_false_2 (account ∉ _)) by (intros H; exact (H Hin)).
    cbn. rewrite app_nil_r. split; [reflexivity|]. split; [discriminate|].
    intros code ex H. destruct (H Hin). }
  rewrite (bool_decide_eq_false_2 _ Hnin), (bool_decide_eq_true_2 (account ∉ _) Hnin).
  cbn [andb]. msimpl.
  destruct (sts_answer account) as [k sk t|code ex]; msimpl.
  { rewrite app_nil_r. split; [reflexivity|]. split; [|discriminate].
    intros a [= <-]. split; [reflexivity|eauto]. }
  destruct (bool_decide (code = Some "AccessDenied")) eqn:Hcode; msimpl.
  - destruct (lambda_invoke boto function_name _); msimpl;
      (split; [reflexivity|]); (split; [discriminate|]);
      intros code' ex' _ [= <- <-] Hne; apply bool_decide_eq_true_1 in Hcode; tauto.
  - rewrite app_nil_r. split; [reflexivity|]. split; [discriminate|].
    intros code' ex' _ [= <- <-] _.
    apply elem_of_app. right. apply list_elem_of_here.
Qed.

(** The loop of [run] over the remote accounts. *)
Lemma accounts_loop_remote ids : forall response s,
  let r := accounts_loop service boto configuration
             (map (remote_account_step service boto function_name configuration
                     lambda_account) ids) response s in
  lambda_invocations r.2
  = lambda_invocations s
    ++ map (fun a => (function_name, deconfigure_notice a)) (filter denied ids)
  ∧ (forall a code ex,
       sts_answer a = ClientError code ex -> response !! a = None -> r.1 !! a = None)
  ∧ (forall a code ex,
       a ∈ ids ->
       a ∉ accounts_done configuration lambda_account ->
       sts_answer a = ClientError code ex ->
       code ≠ Some "AccessDenied" ->
       {| log_level := ERROR; log_msg := ERR_ASSUMING_ROLE;
          log_args := [role_arn configuration a; a; ex] |} ∈ logger r.2).
Proof.
  induction ids as [|x ids IH]; intros response s.
  { cbn. rewrite app_nil_r. repeat split; [auto|]. intros a code ex H. inversion H. }
  cbn [map accounts_loop]. unfold mbind, M_bind, bind.
  pose proof (remote_account_step_spec x s) as (Hinv & Hyield & Hlog).
  destruct (remote_account_step service boto function_name configuration lambda_account x s)
    as [yield s1].
  cbn [fst snd] in Hinv, Hyield, Hlog.
  assert (map (fun a => (function_name, deconfigure_notice a)) (filter denied (x :: ids))
          = (if denied x then [(function_name, deconfigure_notice x)] else [])
            ++ map (fun a => (function_name, deconfigure_notice a)) (filter denied ids))
    as Hfilter.
  { rewrite filter_cons. destruct (decide (denied x)) as [Hd|Hd].
    - rewrite (Is_true_true_1 _ Hd). reflexivity.
    - apply Is_true_false_1 in Hd. rewrite Hd. reflexivity. }
  rewrite Hfilter, app_assoc, <- Hinv. clear Hfilter.
  destruct yield as [account|].
  - pose proof (process_account_invocations account s1) as Hp.
    pose proof (log_grows_process_account service boto configuration account s1) as Hg.
    destruct (_process_account service boto configuration account s1) as [r s2].
    cbn [fst snd] in Hp, Hg.
    destruct (Hyield account eq_refl) as (Hname & k & sk & t & Htok).
    specialize (IH (<[acc_name account := r]> response) s2).
    cbv zeta in IH. destruct IH as (I1 & I2 & I3).
    split; [|split].
    + rewrite I1, Hp. reflexivity.
    + intros a code ex Ha Hr. eapply I2; [eassumption|].
      rewrite lookup_insert_ne; [assumption|].
      rewrite Hname. intros ->. congruence.
    + intros a code ex Ha Hdone Hans Hne.
      apply elem_of_cons in Ha as [->|Ha]; [congruence|].
      eapply I3; eauto.
  - specialize (IH response s1). cbv zeta in IH. destruct IH as (I1 & I2 & I3).
    split; [|split].
    + exact I1.
    + exact I2.
    + intros a code ex Ha Hdone Hans Hne.
      apply elem_of_cons in Ha as [->|Ha]; [|eapply I3; eauto].
      pose proof (log_grows_accounts_loop service boto function_name configuration
                    lambda_account ids response s1) as Hg.
      eapply elem_of_prefix; [|exact Hg].
      eapply Hlog; eauto.
Qed.

End AssumeRole.

Lemma deconfigure_notice_inj a b : deconfigure_notice a = deconfigure_notice b -> a = b.
Proof. intros [= ->]. reflexivity. Qed.


(** Scenario S4 of the specification: the hosting account is scheduled, and
    STS denies access to the one remote account. *)
Definition sts_denied : string -> string -> AssumeRoleResult :=
  fun _ _ => ClientError (Some "AccessDenied") "not authorized to perform sts:AssumeRole".

Definition one_remote : SchedulerConfig.t :=
  Scenario.config true ["444455556666"]
    [ Scenario.schedule "office" STATE_RUNNING None false false true ].

Example access_denied_scenario :
  let r := run (Scenario.driver two_instances true) (Scenario.sdk sts_denied) "scheduler"
             one_remote "111122223333" (new_scheduler ∅) in
  dom r.1 = {[ "111122223333" ]}
  ∧ lambda_invocations r.2 = [ ("scheduler", deconfigure_notice "444455556666") ].
Proof.
  cbv zeta. split.
  - apply (bool_decide_unpack _). vm_compute. exact I.
  - vm_compute. reflexivity.
Qed.


(** ** The records of a region after a cycle *)

(** The desired-state record of an instance in the state table, keyed by
    (account, region, instance id); [None] when there is none. *)
Definition recorded (st : InstanceStates.t) (account region id : string) : option State :=
  InstanceStates.table st !! (account, region) ≫= fun records => records !! id.

Section Records.

Variable service : Service.
Variable boto : Boto.
Variable configuration : SchedulerConfig.t.
Variable account : Account.
Variable region : string.

Lemma record_results_cons x v results st :
  record_results ((x, v) :: results) st
  = record_results results (InstanceStates.set_instance_state x v st).
Proof. reflexivity. Qed.

Lemma record_results_frame results : forall st,
  InstanceStates.account_region (record_results results st) = InstanceStates.account_region st
  ∧ InstanceStates.table (record_results results st) = InstanceStates.table st.
Proof.
  induction results as [|[x v] results IH]; intros st; [split; reflexivity|].
  rewrite record_results_cons.
  destruct (IH (InstanceStates.set_instance_state x v st)) as [-> ->].
  split; reflexivity.
Qed.

(** A record after the driver's results are recorded is one of the results,
    or the record that was there. *)
Lemma record_results_lookup results : forall st x,
  InstanceStates.state_info (record_results results st) !! x
  = InstanceStates.state_info st !! x
  ∨ exists v, (x, v) ∈ results
              ∧ InstanceStates.state_info (record_results results st) !! x = Some v.
Proof.
  induction results as [|[y w] results IH]; intros st x; [left; reflexivity|].
  rewrite record_results_cons.
  destruct (IH (InstanceStates.set_instance_state y w st) x) as [H|(v & Hin & H)].
  - rewrite H. cbn. destruct (decide (y = x)) as [->|Hne].
    + right. exists w. split; [apply list_elem_of_here|]. apply lookup_insert_eq.
    + left. apply lookup_insert_ne. assumption.
  - right. exists v. split; [apply list_elem_of_further|]; assumption.
Qed.

(** When the driver reports one and the same state for every instance it
    was given, that state is recorded for each of them. *)
Lemma record_results_uniform (l : list Instance) (v : State) : forall st x,
  x ∈ ids l ->
  InstanceStates.state_info
    (record_results (map (fun i : Instance => (inst_id i, v)) l) st) !! x = Some v.
Proof.
  induction l as [|i l IH]; intros st x Hx; [inversion Hx|].
  rewrite ids_cons in Hx. cbn [map]. rewrite record_results_cons.
  destruct (decide (x ∈ ids l)) as [Hin|Hnin]; [apply IH; assumption|].
  apply elem_of_cons in Hx as [->|Hx]; [|contradiction].
  destruct (record_results_lookup (map (fun i : Instance => (inst_id i, v)) l)
              (InstanceStates.set_instance_state (inst_id i) v st) (inst_id i))
    as [H|(w & Hin & H)].
  - rewrite H. cbn. apply lookup_insert_eq.
  - exfalso. apply Hnin. apply list_elem_of_In, in_map_iff in Hin as (j & [= Hj _] & Hjl).
    apply elem_of_ids. exists j. split; [apply list_elem_of_In|]; assumption.
Qed.

Lemma commit_store_frame starts stops st :
  InstanceStates.account_region (commit_store service account region starts stops st)
  = InstanceStates.account_region st
  ∧ InstanceStates.table (commit_store service account region starts stops st)
    = InstanceStates.table st.
Proof.
  unfold commit_store.
  destruct (nonempty starts), (nonempty stops);
    repeat match goal with
           | |- context [record_results ?r ?s] =>
               destruct (record_results_frame r s) as [-> ->]
           end; split; reflexivity.
Qed.

(** A record after [_start_and_stop_instances] is a state the driver
    reported for that id, or the record that was there. *)
Lemma commit_store_lookup starts stops st x :
  InstanceStates.state_info (commit_store service account region starts stops st) !! x
  = InstanceStates.state_info st !! x
  ∨ exists v,
      InstanceStates.state_info (commit_store service account region starts stops st) !! x
      = Some v
      ∧ ((x, v) ∈ start_instances service (acc_name account) region starts
         ∨ (x, v) ∈ stop_instances service (acc_name account) region stops).
Proof.
  unfold commit_store.
  destruct (nonempty starts), (nonempty stops);
    repeat match goal with
           | |- context [record_results ?r ?s] =>
               let H := fresh "H" in
               destruct (record_results_lookup r s x) as [H|(? & ? & H)]; rewrite H;
               clear H
           end; eauto.
Qed.

(** The store of the region is loaded from the table, and saved to it. *)
Lemma region_store_recorded todo st (instance : Instance) :
  instance ∈ todo ->
  let st0 := loaded_store account region todo st in
  recorded (region_store service boto configuration account region todo st)
    (acc_name account) region (inst_id instance)
  = InstanceStates.state_info
      (commit_store service account region
         (loop_starts boto configuration todo st0)
         (loop_stops boto configuration todo st0)
         (loop_store boto configuration todo st0)) !! inst_id instance.
Proof.
  intros Hin st0. unfold recorded, region_store. fold st0.
  set (c := commit_store _ _ _ _ _ _).
  assert (InstanceStates.account_region c = Some (acc_name account, region)) as Hscope.
  { subst c. destruct (commit_store_frame
                         (loop_starts boto configuration todo st0)
                         (loop_stops boto configuration todo st0)
                         (loop_store boto configuration todo st0)) as [-> _].
    destruct (loop_store_frame boto configuration todo st0) as [-> _].
    subst st0. destruct todo; [inversion Hin|reflexivity]. }
  unfold InstanceStates.save, InstanceStates.cleanup. cbn. rewrite Hscope. cbn.
  rewrite lookup_insert_eq. cbn.
  rewrite map_lookup_filter.
  destruct (InstanceStates.state_info c !! inst_id instance) as [v|] eqn:E; [|reflexivity].
  cbn. rewrite option_guard_True; [reflexivity|].
  apply (bool_decide_pack _). apply elem_of_ids. exists instance. auto.
Qed.

Lemma loaded_store_get todo st (instance : Instance) :
  instance ∈ todo ->
  InstanceStates.state_info (loaded_store account region todo st) !! inst_id instance
  = recorded st (acc_name account) region (inst_id instance).
Proof.
  intros Hin. destruct todo; [inversion Hin|].
  unfold recorded. cbn.
  destruct (InstanceStates.table st !! (acc_name account, region)); reflexivity.
Qed.

(** The record an instance is left with by the loop, before the batches are
    committed. *)
Definition after_decision (d : Decision) (before : option State) : option State :=
  match d with
  | Persist v => Some v
  | Forget => None
  | _ => before
  end.

(** What a cycle over the region does with one of its instances, when the
    ids of the region are distinct: its decision is taken against the record
    found in the table; the instance is in the start (stop) list exactly when
    the decision is to start (stop) it; and its record in the table is the
    one the decision leaves, unless the driver reported a state for it. *)
Lemma region_outcome out s (instance : Instance) :
  let todo := _scheduled_instances_in_region service account region in
  NoDup (ids todo) ->
  instance ∈ todo ->
  let before := recorded (instance_states s) (acc_name account) region (inst_id instance) in
  let d := decision boto configuration instance (default STATE_UNKNOWN before) in
  let s1 := exec (process_region service boto configuration account region out) s in
  let after := recorded (instance_states s1) (acc_name account) region (inst_id instance) in
  (inst_id instance ∈ ids (scheduler_start_list s1) <-> d = Start)
  ∧ (inst_id instance ∈ ids (scheduler_stop_list s1) <-> d = Stop)
  ∧ (after = after_decision d before
     ∨ exists v,
         after = Some v
         ∧ ((inst_id instance, v)
              ∈ start_instances service (acc_name account) region (scheduler_start_list s1)
            ∨ (inst_id instance, v)
              ∈ stop_instances service (acc_name account) region (scheduler_stop_list s1))).
Proof.
  intros todo Hnd Hin before d s1 after.
  destruct (process_region_spec service boto configuration account region out s)
    as (Hst & Hstart & Hstop & _). fold todo s1 in Hst, Hstart, Hstop.
  set (st0 := loaded_store account region todo (instance_states s)) in *.
  assert (decision_in boto configuration st0 instance = d) as Hd.
  { unfold decision_in, InstanceStates.get_instance_state. subst st0.
    rewrite loaded_store_get by assumption. reflexivity. }
  split; [|split].
  - rewrite Hstart, elem_of_ids. split.
    + intros (j & Hj & Hid). apply elem_of_loop_starts in Hj as [Hj Dj]; [|assumption].
      assert (j = instance) as -> by (eapply NoDup_ids_inj; eassumption).
      congruence.
    + intros Hs. exists instance. split; [|reflexivity].
      apply elem_of_loop_starts; [assumption|]. split; [assumption|congruence].
  - rewrite Hstop, elem_of_ids. split.
    + intros (j & Hj & Hid).
      apply elem_of_loop_stops in Hj as (j0 & Hj0 & Dj & ->); [|assumption].
      rewrite stopped_instance_id in Hid.
      assert (j0 = instance) as -> by (eapply NoDup_ids_inj; eassumption).
      congruence.
    + intros Hs. eexists. split.
      * apply elem_of_loop_stops; [assumption|]. exists instance.
        split; [assumption|]. split; [congruence|reflexivity].
      * apply stopped_instance_id.
  - assert (InstanceStates.state_info (loop_store boto configuration todo st0)
              !! inst_id instance = after_decision d before) as Hloop.
    { rewrite loop_store_own by assumption.
      unfold step_store. rewrite Hd. subst st0.
      pose proof (loaded_store_get todo (instance_states s) instance Hin) as Hget.
      fold before in Hget.
      unfold store_after, after_decision.
      destruct d; cbn; rewrite ?lookup_insert_eq, ?lookup_delete_eq; auto. }
    subst after. rewrite Hst. rewrite region_store_recorded by assumption.
    fold st0. rewrite Hstart, Hstop.
    destruct (commit_store_lookup
                (loop_starts boto configuration todo st0)
                (loop_stops boto configuration todo st0)
                (loop_store boto configuration todo st0) (inst_id instance))
      as [H|(v & H & Hv)].
    + left. rewrite H. exact Hloop.
    + right. exists v. split; assumption.
Qed.

End Records.

(** ** What is assumed of the service driver *)

(** The driver reports states only for the instances it was given. *)
Definition reports_given (service : Service) (account : Account) (region : string) : Prop :=
  forall (l : list Instance) x v,
    ((x, v) ∈ start_instances service (acc_name account) region l -> x ∈ ids l)
    ∧ ((x, v) ∈ stop_instances service (acc_name account) region l -> x ∈ ids l).

(** The driver reports every instance it was given to start as running, and
    every instance it was given to stop as stopped. *)
Definition reports_outcome (service : Service) (account : Account) (region : string) : Prop :=
  forall l : list Instance,
    start_instances service (acc_name account) region l
    = map (fun i : Instance => (inst_id i, STATE_RUNNING)) l
    ∧ stop_instances service (acc_name account) region l
      = map (fun i : Instance => (inst_id i, STATE_STOPPED)) l.

Lemma reports_outcome_given service account region :
  reports_outcome service account region -> reports_given service account region.
Proof.
  intros H l x v. destruct (H l) as [-> ->].
  split; intros Hin; apply list_elem_of_In, in_map_iff in Hin as (i & [= <- _] & Hi);
    apply elem_of_ids; exists i; (split; [apply list_elem_of_In; assumption|reflexivity]).
Qed.

Lemma scenario_driver_reports_outcome instances resize_ok account region :
  reports_outcome (Scenario.driver instances resize_ok) account region.
Proof. intros l. split; reflexivity. Qed.

(** ** First sighting of a running instance *)







(** ** The state retain-running *)

(** When the decision is to persist retain-running, either the evaluator
    itself answered retain-running, or the instance is running, the schedule
    wants it running and retains, and the last desired state was stopped. *)
Lemma decision_retain_running boto configuration (instance : Instance) last :
  decision boto configuration instance last = Persist STATE_RETAIN_RUNNING ->
  exists sch,
    SchedulerConfig.get_schedule configuration (schedule_name instance) = Some sch
    ∧ ((desired_state_and_type boto sch instance).1 = STATE_RETAIN_RUNNING
       ∨ (is_running instance = true
          ∧ (desired_state_and_type boto sch instance).1 = STATE_RUNNING
          ∧ retain_running sch = true
          ∧ last = STATE_STOPPED)).
Proof.
  unfold decision, new_state_decision.
  destruct (is_terminated instance); [discriminate|].
  destruct (SchedulerConfig.get_schedule configuration (schedule_name instance)) as [sch|];
    [|discriminate].
  intros H. exists sch. split; [reflexivity|].
  destruct (desired_state_and_type boto sch instance).1, last, (is_running instance),
    (retain_running sch), (stop_new_instances sch), (enforced sch);
    vm_compute in H; try discriminate H; auto.
Qed.

(** A record of the region after the cycle belongs to an observed instance,
    or was in the table before. *)
Lemma region_store_recorded_observed service boto configuration account region todo st x v :
  recorded (region_store service boto configuration account region todo st)
    (acc_name account) region x = Some v ->
  x ∈ ids todo ∨ recorded st (acc_name account) region x = Some v.
Proof.
  unfold recorded, region_store.
  set (st0 := loaded_store account region todo st).
  set (c := commit_store _ _ _ _ _ _).
  assert (InstanceStates.account_region c = InstanceStates.account_region st0
          ∧ InstanceStates.table c = InstanceStates.table st) as [Hscope Htbl].
  { subst c. destruct (commit_store_frame service account region
                         (loop_starts boto configuration todo st0)
                         (loop_stops boto configuration todo st0)
                         (loop_store boto configuration todo st0)) as [-> ->].
    destruct (loop_store_frame boto configuration todo st0) as [-> ->].
    split; [reflexivity|]. subst st0. destruct todo; reflexivity. }
  unfold InstanceStates.save, InstanceStates.cleanup. cbn. rewrite Hscope, Htbl.
  destruct (InstanceStates.account_region st0) as [scope|]; cbn; [|auto].
  destruct (decide (scope = (acc_name account, region))) as [->|Hne].
  - rewrite lookup_insert_eq. cbn. intros H.
    apply map_lookup_filter_Some in H as [_ H]. left.
    apply (bool_decide_unpack _) in H. exact H.
  - rewrite lookup_insert_ne by assumption. auto.
Qed.

(** A cycle over one stored record "stopped" of a running instance whose
    schedule retains, under a schedule answering [desired]. *)
Definition retained : list Instance := [ Scenario.instance "i-1" true "m5.large" "office" ].

Definition retaining (desired : State) : SchedulerConfig.t :=
  Scenario.config true [] [ Scenario.schedule "office" desired None false true true ].

Definition stopped_before : gmap (string * string) (gmap string State) :=
  {[ ("111122223333", "us-east-1") := {[ "i-1" := STATE_STOPPED ]} ]}.

(** C4, as stated, fails: retain-running is persisted in a cycle in which the
    schedule wants the instance running (it would not have stopped it); and
    in the cycle the claim describes -- the instance runs, the schedule wants
    it stopped, the schedule retains, the persisted state is stopped --
    nothing but stopped is persisted. *)
Lemma retain_running_when_schedule_wants_running :
  let cycle desired :=
    run (Scenario.driver retained true) (Scenario.sdk Scenario.sts_ok) "scheduler"
      (retaining desired) "111122223333" (new_scheduler stopped_before) in
  recorded (instance_states (cycle STATE_RUNNING).2) "111122223333" "us-east-1" "i-1"
  = Some STATE_RETAIN_RUNNING
  ∧ recorded (instance_states (cycle STATE_STOPPED).2) "111122223333" "us-east-1" "i-1"
    = Some STATE_STOPPED.
Proof.
  cbv zeta. split; vm_compute; reflexivity.
Qed.

(** C4, amended: when the ids of a region are distinct, and neither the
    driver nor the evaluators answer retain-running, a record retain-running
    that is in the table after a cycle over the region and was not there
    before belongs to an observed instance that is running, whose schedule
    wants it running and has [retain_running], and whose persisted state
    before the cycle was stopped.  In particular it never is the first state
    recorded for an instance. *)
Theorem retain_running_only_from_stopped (service : Service) (boto : Boto)
    (configuration : SchedulerConfig.t) (account : Account) (region : string)
    (out : Batches) (s : Scheduler) (x : string) :
  let todo := _scheduled_instances_in_region service account region in
  NoDup (ids todo) ->
  (forall (l : list Instance) y,
      ((y, STATE_RETAIN_RUNNING) ∉ start_instances service (acc_name account) region l)
      ∧ ((y, STATE_RETAIN_RUNNING) ∉ stop_instances service (acc_name account) region l)) ->
  (forall (i : Instance) sch,
      i ∈ todo ->
      SchedulerConfig.get_schedule configuration (schedule_name i) = Some sch ->
      (desired_state_and_type boto sch i).1 ≠ STATE_RETAIN_RUNNING) ->
  let s1 := exec (process_region service boto configuration account region out) s in
  recorded (instance_states s1) (acc_name account) region x = Some STATE_RETAIN_RUNNING ->
  recorded (instance_states s) (acc_name account) region x ≠ Some STATE_RETAIN_RUNNING ->
  exists (instance : Instance) sch,
    instance ∈ todo
    ∧ inst_id instance = x
    ∧ SchedulerConfig.get_schedule configuration (schedule_name instance) = Some sch
    ∧ is_running instance = true
    ∧ (desired_state_and_type boto sch instance).1 = STATE_RUNNING
    ∧ retain_running sch = true
    ∧ recorded (instance_states s) (acc_name account) region x = Some STATE_STOPPED.
Proof.
  intros todo Hnd Hdrv Heval s1 Hafter Hbefore.
  assert (x ∈ ids todo) as Hx.
  { destruct (process_region_spec service boto configuration account region out s)
      as (Hst & _). fold s1 todo in Hst. rewrite Hst in Hafter.
    apply region_store_recorded_observed in Hafter as [H|H]; [exact H|contradiction]. }
  apply elem_of_ids in Hx as (instance & Hin & <-).
  destruct (region_outcome service boto configuration account region out s instance Hnd Hin)
    as (_ & _ & Hrec).
  fold s1 in Hrec. rewrite Hafter in Hrec.
  destruct Hrec as [Hrec|(v & [= <-] & [Hv|Hv])];
    [|destruct (proj1 (Hdrv _ _) Hv)|destruct (proj2 (Hdrv _ _) Hv)].
  set (before := recorded (instance_states s) (acc_name account) region (inst_id instance))
    in *.
  destruct (decision boto configuration instance (default STATE_UNKNOWN before)) eqn:Hd;
    cbn in Hrec; try (symmetry in Hrec; contradiction); [|discriminate].
  injection Hrec as <-.
  apply decision_retain_running in Hd as (sch & Hsch & [Hbad|(Hrun & Hdes & Hret & Hlast)]).
  { destruct (Heval instance sch Hin Hsch Hbad). }
  exists instance, sch. repeat split; try assumption.
  destruct before as [[]|]; cbn in Hlast; congruence.
Qed.

Lemma scenario_driver_never_retains instances resize_ok account region
    (l : list Instance) y :
  ((y, STATE_RETAIN_RUNNING)
     ∉ start_instances (Scenario.driver instances resize_ok) account region l)
  ∧ ((y, STATE_RETAIN_RUNNING)
       ∉ stop_instances (Scenario.driver instances resize_ok) account region l).
Proof.
  split; intros H; apply list_elem_of_In, in_map_iff in H as (i & [= _ ?] & _); discriminate.
Qed.

Lemma retain_running_only_from_stopped_witness :
  exists (instance : Instance) sch,
    instance ∈ _scheduled_instances_in_region (Scenario.driver retained true)
                 Scenario.host "us-east-1"
    ∧ inst_id instance = "i-1"
    ∧ SchedulerConfig.get_schedule (retaining STATE_RUNNING) (schedule_name instance)
      = Some sch
    ∧ is_running instance = true
    ∧ (desired_state_and_type (Scenario.sdk Scenario.sts_ok) sch instance).1 = STATE_RUNNING
    ∧ retain_running sch = true
    ∧ recorded (instance_states (new_scheduler stopped_before))
        (acc_name Scenario.host) "us-east-1" "i-1" = Some STATE_STOPPED.
Proof.
  apply (retain_running_only_from_stopped (Scenario.driver retained true)
           (Scenario.sdk Scenario.sts_ok) (retaining STATE_RUNNING) Scenario.host
           "us-east-1" (∅, ∅, ∅) (new_scheduler stopped_before) "i-1").
  - apply (bool_decide_unpack _). vm_compute. exact I.
  - intros l y. apply scenario_driver_never_retains.
  - intros i sch Hi Hsch. vm_compute in Hi.
    apply list_elem_of_singleton in Hi. subst i.
    vm_compute in Hsch. injection Hsch as <-. vm_compute. discriminate.
  - vm_compute. reflexivity.
  - vm_compute. discriminate.
Defined.

(** ** Cycles with a driver that reports the outcome *)

Section Reported.

Variable service : Service.
Variable boto : Boto.
Variable configuration : SchedulerConfig.t.
Variable account : Account.
Variable region : string.

Hypothesis driver_reports_outcome : reports_outcome service account region.

Lemma nonempty_of_elem (l : list Instance) x : x ∈ ids l -> nonempty l = true.
Proof. destruct l; [inversion 1|reflexivity]. Qed.

Lemma record_results_uniform_other (l : list Instance) (v : State) st x :
  x ∉ ids l ->
  InstanceStates.state_info
    (record_results (map (fun i : Instance => (inst_id i, v)) l) st) !! x
  = InstanceStates.state_info st !! x.
Proof.
  intros Hx.
  destruct (record_results_lookup (map (fun i : Instance => (inst_id i, v)) l) st x)
    as [H|(w & Hin & _)]; [exact H|].
  exfalso. apply Hx. apply list_elem_of_In, in_map_iff in Hin as (j & [= Hj _] & Hjl).
  apply elem_of_ids. exists j. split; [apply list_elem_of_In|]; assumption.
Qed.

(** The record of an id after the batches are committed. *)
Lemma commit_store_reported starts stops st x :
  InstanceStates.state_info (commit_store service account region starts stops st) !! x
  = if bool_decide (x ∈ ids stops) then Some STATE_STOPPED
    else if bool_decide (x ∈ ids starts) then Some STATE_RUNNING
    else InstanceStates.state_info st !! x.
Proof.
  unfold commit_store.
  destruct (driver_reports_outcome starts) as [-> _].
  destruct (driver_reports_outcome stops) as [_ ->].
  destruct (decide (x ∈ ids stops)) as [Hstop|Hstop].
  { rewrite (bool_decide_eq_true_2 _ Hstop), (nonempty_of_elem _ _ Hstop).
    apply record_results_uniform. assumption. }
  rewrite (bool_decide_eq_false_2 _ Hstop).
  assert (forall st',
            InstanceStates.state_info
              (if nonempty stops
               then record_results
                      (map (fun i : Instance => (inst_id i, STATE_STOPPED)) stops) st'
               else st') !! x
            = InstanceStates.state_info st' !! x) as ->.
  { intros st'. destruct (nonempty stops); [|reflexivity].
    apply record_results_uniform_other. assumption. }
  destruct (decide (x ∈ ids starts)) as [Hstart|Hstart].
  - rewrite (bool_decide_eq_true_2 _ Hstart), (nonempty_of_elem _ _ Hstart).
    apply record_results_uniform. assumption.
  - rewrite (bool_decide_eq_false_2 _ Hstart).
    destruct (nonempty starts); [|reflexivity].
    apply record_results_uniform_other. assumption.
Qed.

(** The record an instance is left with by a cycle over its region. *)
Definition after_cycle (d : Decision) (before : option State) : option State :=
  match d with
  | Start => Some STATE_RUNNING
  | Stop => Some STATE_STOPPED
  | _ => after_decision d before
  end.

Lemma region_outcome_reported out s (instance : Instance) :
  let todo := _scheduled_instances_in_region service account region in
  NoDup (ids todo) ->
  instance ∈ todo ->
  let before := recorded (instance_states s) (acc_name account) region (inst_id instance) in
  let d := decision boto configuration instance (default STATE_UNKNOWN before) in
  let s1 := exec (process_region service boto configuration account region out) s in
  recorded (instance_states s1) (acc_name account) region (inst_id instance)
  = after_cycle d before.
Proof.
  intros todo Hnd Hin before d s1.
  destruct (region_outcome service boto configuration account region out s instance Hnd Hin)
    as (Hstart & Hstop & _).
  fold before d s1 in Hstart, Hstop.
  destruct (process_region_spec service boto configuration account region out s)
    as (Hst & Hsl & Hpl & _). fold todo s1 in Hst, Hsl, Hpl.
  set (st0 := loaded_store account region todo (instance_states s)) in *.
  rewrite Hst, region_store_recorded by assumption. fold st0.
  rewrite commit_store_reported, <- Hsl, <- Hpl.
  assert (InstanceStates.state_info (loop_store boto configuration todo st0)
            !! inst_id instance = after_decision d before) as ->.
  { rewrite loop_store_own by assumption.
    assert (decision_in boto configuration st0 instance = d) as Hd.
    { unfold decision_in, InstanceStates.get_instance_state. subst st0.
      rewrite loaded_store_get by assumption. reflexivity. }
    unfold step_store. rewrite Hd. subst st0.
    pose proof (loaded_store_get account region todo (instance_states s) instance Hin)
      as Hget. fold before in Hget.
    unfold store_after, after_decision.
    destruct d; cbn; rewrite ?lookup_insert_eq, ?lookup_delete_eq; auto. }
  destruct (decide (d = Stop)) as [E|E].
  { rewrite bool_decide_eq_true_2 by (apply Hstop; assumption). rewrite E. reflexivity. }
  rewrite bool_decide_eq_false_2 by (intros H; apply Hstop in H; contradiction).
  destruct (decide (d = Start)) as [E'|E'].
  { rewrite bool_decide_eq_true_2 by (apply Hstart; assumption). rewrite E'. reflexivity. }
  rewrite bool_decide_eq_false_2 by (intros H; apply Hstart in H; contradiction).
  destruct d; try reflexivity; contradiction.
Qed.

End Reported.

(** ** The record of an observed instance *)

(** The states a record is expected to hold. *)
Definition persistent_states : list State :=
  [STATE_RUNNING; STATE_STOPPED; STATE_RETAIN_RUNNING].

Lemma elem_of_persistent_states v :
  v ∈ persistent_states <-> v = STATE_RUNNING ∨ v = STATE_STOPPED ∨ v = STATE_RETAIN_RUNNING.
Proof.
  unfold persistent_states. rewrite !elem_of_cons, elem_of_nil. tauto.
Qed.

(** The record left by a cycle, for an instance with a known schedule that
    answers running or stopped. *)
Lemma after_cycle_persistent boto configuration (instance : Instance) sch before :
  is_terminated instance = false ->
  SchedulerConfig.get_schedule configuration (schedule_name instance) = Some sch ->
  (desired_state_and_type boto sch instance).1 = STATE_RUNNING
  ∨ (desired_state_and_type boto sch instance).1 = STATE_STOPPED ->
  (forall v, before = Some v ->
             v = STATE_RUNNING ∨ v = STATE_STOPPED ∨ v = STATE_RETAIN_RUNNING) ->
  let d := decision boto configuration instance (default STATE_UNKNOWN before) in
  if bool_decide (before = None) && is_running instance
     && bool_decide ((desired_state_and_type boto sch instance).1 = STATE_RUNNING)
  then after_cycle d before = None
  else exists v, after_cycle d before = Some v
                 ∧ (v = STATE_RUNNING ∨ v = STATE_STOPPED ∨ v = STATE_RETAIN_RUNNING).
Proof.
  intros Hterm Hsch Hdes Hbefore d. subst d.
  unfold decision, new_state_decision. rewrite Hterm, Hsch.
  assert (before = None ∨ before = Some STATE_RUNNING ∨ before = Some STATE_STOPPED
          ∨ before = Some STATE_RETAIN_RUNNING) as Hb.
  { destruct before as [v|]; [|auto].
    destruct (Hbefore v eq_refl) as [-> | [-> | ->]]; auto. }
  clear Hbefore.
  destruct Hdes as [-> | ->];
    destruct Hb as [-> | [-> | [-> | ->]]];
    destruct (is_running instance), (retain_running sch), (stop_new_instances sch),
      (enforced sch);
    vm_compute; first [reflexivity | eexists; split; [reflexivity|]; auto].
Qed.

(** C1, as stated, fails: a running instance whose schedule wants it running
    is seen for the first time, and after [run] the state table holds no
    record for it. *)
Definition already_running : list Instance :=
  [ Scenario.instance "i-1" true "m5.large" "office" ].

Definition office_hours : SchedulerConfig.t :=
  Scenario.config true [] [ Scenario.schedule "office" STATE_RUNNING None false false true ].

Lemma running_new_instance_not_recorded :
  let r := run (Scenario.driver already_running true) (Scenario.sdk Scenario.sts_ok)
             "scheduler" office_hours "111122223333" (new_scheduler ∅) in
  map (fun i : Instance => (inst_id i, is_terminated i))
    (_scheduled_instances_in_region (Scenario.driver already_running true)
       Scenario.host "us-east-1")
  = [("i-1", false)]
  ∧ recorded (instance_states r.2) "111122223333" "us-east-1" "i-1" = None.
Proof.
  cbv zeta. split; vm_compute; reflexivity.
Qed.

(** The record of an observed instance when the processing of its (account,
    region) ends (ids distinct in the region, a driver that reports what it
    started as running and what it stopped as stopped): an instance that is
    not terminated, whose schedule is known and answers running or stopped,
    and whose record before the cycle, if any, held running, stopped or
    retain-running, has a record in the table, and it holds running, stopped
    or retain-running -- except for an instance that had no record, is
    running, and is wanted running: that one is left without a record. *)
Lemma observed_instance_record (service : Service) (boto : Boto)
    (configuration : SchedulerConfig.t) (account : Account) (region : string)
    (instance : Instance) (sch : Schedule) (out : Batches) (s : Scheduler) :
  let todo := _scheduled_instances_in_region service account region in
  NoDup (ids todo) ->
  reports_outcome service account region ->
  instance ∈ todo ->
  is_terminated instance = false ->
  SchedulerConfig.get_schedule configuration (schedule_name instance) = Some sch ->
  let desired := (desired_state_and_type boto sch instance).1 in
  desired ∈ [STATE_RUNNING; STATE_STOPPED] ->
  let before := recorded (instance_states s) (acc_name account) region (inst_id instance) in
  (forall v, before = Some v -> v ∈ persistent_states) ->
  let s1 := exec (process_region service boto configuration account region out) s in
  let after := recorded (instance_states s1) (acc_name account) region (inst_id instance) in
  if bool_decide (before = None) && is_running instance
     && bool_decide (desired = STATE_RUNNING)
  then after = None
  else exists v, after = Some v ∧ v ∈ persistent_states.
Proof.
  intros todo Hnd Hdrv Hin Hterm Hsch desired Hdes before Hbefore s1 after.
  subst after s1.
  rewrite (region_outcome_reported service boto configuration account region Hdrv out s
             instance Hnd Hin).
  fold before.
  pose proof (after_cycle_persistent boto configuration instance sch before Hterm Hsch)
    as H. fold desired in H. cbv zeta in H.
  assert (desired = STATE_RUNNING ∨ desired = STATE_STOPPED) as Hdes'.
  { rewrite !elem_of_cons, elem_of_nil in Hdes. tauto. }
  specialize (H Hdes').
  assert (forall v, before = Some v ->
                    v = STATE_RUNNING ∨ v = STATE_STOPPED ∨ v = STATE_RETAIN_RUNNING) as Hb.
  { intros v Hv. apply elem_of_persistent_states, Hbefore, Hv. }
  specialize (H Hb).
  destruct (bool_decide (before = None) && is_running instance
            && bool_decide (desired = STATE_RUNNING)); [exact H|].
  destruct H as (v & Hv & Hset). exists v. split; [exact Hv|].
  apply elem_of_persistent_states. exact Hset.
Qed.

(** The stopped instance of [two_instances], as the engine sees it. *)
Definition stopped_seen : Instance :=
  default (Scenario.instance "i-1" false "m5.large" "office")
    (head (_scheduled_instances_in_region (Scenario.driver two_instances true)
             Scenario.host "us-east-1")).

Example observed_instance_record_example :
  exists v,
    recorded
      (instance_states
         (exec (process_region (Scenario.driver two_instances true)
                  (Scenario.sdk Scenario.sts_ok) two_schedules Scenario.host "us-east-1"
                  (∅, ∅, ∅)) (new_scheduler ∅)))
      "111122223333" "us-east-1" "i-1" = Some v
    ∧ v ∈ persistent_states.
Proof.
  refine (observed_instance_record (Scenario.driver two_instances true)
            (Scenario.sdk Scenario.sts_ok) two_schedules Scenario.host "us-east-1"
            stopped_seen (Scenario.schedule "office" STATE_RUNNING None false false true)
            (∅, ∅, ∅) (new_scheduler ∅) _ _ _ _ _ _ _).
  - apply (bool_decide_unpack _). vm_compute. exact I.
  - apply scenario_driver_reports_outcome.
  - vm_compute. apply list_elem_of_here.
  - reflexivity.
  - vm_compute. reflexivity.
  - vm_compute. apply list_elem_of_here.
  - intros v Hv. vm_compute in Hv. discriminate Hv.
Qed.

(** ** Two cycles in succession *)

(** Under a schedule that is not enforced and does not answer
    stopped-for-resize, the decision taken against the record a cycle has
    left is neither to start nor to stop. *)
Lemma decision_settles boto configuration (instance : Instance) before :
  (forall sch,
      SchedulerConfig.get_schedule configuration (schedule_name instance) = Some sch ->
      enforced sch = false
      ∧ (desired_state_and_type boto sch instance).1 ≠ STATE_STOPPED_FOR_RESIZE) ->
  let d1 := decision boto configuration instance (default STATE_UNKNOWN before) in
  let d2 := decision boto configuration instance
              (default STATE_UNKNOWN (after_cycle d1 before)) in
  d2 ≠ Start ∧ d2 ≠ Stop.
Proof.
  intros H. unfold decision, new_state_decision.
  destruct (is_terminated instance); [split; discriminate|].
  destruct (SchedulerConfig.get_schedule configuration (schedule_name instance)) as [sch|];
    [|split; discriminate].
  destruct (H sch eq_refl) as [-> Hdes]. clear H.
  destruct (desired_state_and_type boto sch instance).1; try contradiction;
    destruct before as [[]|], (is_running instance), (retain_running sch),
      (stop_new_instances sch);
    vm_compute; split; discriminate.
Qed.


Definition stopped_one : list Instance :=
  [ Scenario.instance "i-1" false "m5.large" "office" ].


(** Two cycles over one (account, region): the ids of the region are
    distinct, the driver reports what it starts as running and what it stops
    as stopped, and no schedule of an observed instance is enforced or
    answers stopped-for-resize.  Then a second cycle over the region, with
    the same configuration, driver answers and clock, and with the records
    the first cycle left for the region, has an empty start list, an empty
    stop list and an empty resize list. *)
Lemma second_cycle_idle (service : Service) (boto : Boto)
    (configuration : SchedulerConfig.t) (account : Account) (region : string)
    (out out' : Batches) (s s2 : Scheduler) :
  let todo := _scheduled_instances_in_region service account region in
  NoDup (ids todo) ->
  reports_outcome service account region ->
  (forall (i : Instance) sch,
      i ∈ todo ->
      SchedulerConfig.get_schedule configuration (schedule_name i) = Some sch ->
      enforced sch = false
      ∧ (desired_state_and_type boto sch i).1 ≠ STATE_STOPPED_FOR_RESIZE) ->
  let s1 := exec (process_region service boto configuration account region out) s in
  InstanceStates.table (instance_states s2) !! (acc_name account, region)
  = InstanceStates.table (instance_states s1) !! (acc_name account, region) ->
  let s3 := exec (process_region service boto configuration account region out') s2 in
  scheduler_start_list s3 = []
  ∧ scheduler_stop_list s3 = []
  ∧ schedule_resize_list s3 = [].
Proof.
  intros todo Hnd Hdrv Hsch s1 Htbl s3.
  destruct (process_region_spec service boto configuration account region out' s2)
    as (_ & Hstart & Hstop & Hresize & _).
  fold todo s3 in Hstart, Hstop, Hresize.
  set (st0 := loaded_store account region todo (instance_states s2)) in *.
  assert (forall i : Instance,
            i ∈ todo ->
            decision_in boto configuration st0 i ≠ Start
            ∧ decision_in boto configuration st0 i ≠ Stop) as Hidle.
  { intros i Hi.
    unfold decision_in, InstanceStates.get_instance_state. subst st0.
    rewrite loaded_store_get by assumption.
    unfold recorded. rewrite Htbl.
    fold (recorded (instance_states s1) (acc_name account) region (inst_id i)).
    subst s1.
    rewrite (region_outcome_reported service boto configuration account region Hdrv out s
               i Hnd Hi).
    apply decision_settles. intros sch Hs. apply Hsch; assumption. }
  rewrite Hstart, Hstop, Hresize. repeat split; apply elem_of_nil_inv.
  - intros j Hj. apply elem_of_loop_starts in Hj as [Hj Dj]; [|assumption].
    destruct (Hidle j Hj) as [H _]. contradiction.
  - intros j Hj. apply elem_of_loop_stops in Hj as (i & Hi & Di & _); [|assumption].
    destruct (Hidle i Hi) as [_ H]. contradiction.
  - intros j Hj. apply elem_of_loop_resizes in Hj as (i & Hi & Hr); [|assumption].
    destruct (Hidle i Hi) as [H _]. unfold resized_by in Hr.
    destruct (decision_in boto configuration st0 i);
      first [contradiction | apply elem_of_nil in Hr; exact Hr].
Qed.

Example second_cycle_idle_example :
  let pass s :=
    exec (process_region (Scenario.driver two_instances true)
            (Scenario.sdk Scenario.sts_ok) two_schedules Scenario.host "us-east-1"
            (∅, ∅, ∅)) s in
  let s1 := pass (new_scheduler ∅) in
  let s3 := pass (new_scheduler (InstanceStates.table (instance_states s1))) in
  scheduler_start_list s3 = []
  ∧ scheduler_stop_list s3 = []
  ∧ schedule_resize_list s3 = [].
Proof.
  refine (second_cycle_idle (Scenario.driver two_instances true)
            (Scenario.sdk Scenario.sts_ok) two_schedules Scenario.host "us-east-1"
            (∅, ∅, ∅) (∅, ∅, ∅) (new_scheduler ∅)
            (new_scheduler
               (InstanceStates.table
                  (instance_states
                     (exec (process_region (Scenario.driver two_instances true)
                              (Scenario.sdk Scenario.sts_ok) two_schedules Scenario.host
                              "us-east-1" (∅, ∅, ∅)) (new_scheduler ∅)))))
            _ _ _ _).
  - apply (bool_decide_unpack _). vm_compute. exact I.
  - apply scenario_driver_reports_outcome.
  - intros i sch Hi Hsch. vm_compute in Hi.
    apply elem_of_cons in Hi as [-> | Hi];
      [|apply list_elem_of_singleton in Hi; subst i];
      vm_compute in Hsch; injection Hsch as <-; vm_compute; split;
      [reflexivity | discriminate | reflexivity | discriminate].
  - reflexivity.
Qed.

(** ** A run, scope by scope *)

Section RunScopes.

Variable service : Service.
Variable boto : Boto.
Variable function_name : string.
Variable configuration : SchedulerConfig.t.
Variable lambda_account : string.

(** The entries [process_region] stores for a region, from the three
    batches it ends with. *)
Definition pass_entries (s' : Scheduler)
  : option (list (string * string)) * option (list (string * string))
    * option (list (string * string * string * option string)) :=
  (if nonempty (scheduler_start_list s')
   then Some (map (fun i : Instance => (inst_id i, schedule_name i)) (scheduler_start_list s'))
   else None,
   if nonempty (scheduler_stop_list s')
   then Some (map (fun i : Instance => (inst_id i, schedule_name i)) (scheduler_stop_list s'))
   else None,
   if nonempty (schedule_resize_list s')
   then Some (map (fun i : Instance * option string =>
                     (inst_id i.1, schedule_name i.1, instancetype i.1, i.2))
                (schedule_resize_list s'))
   else None).

(** The entries of a region in the three dictionaries of [_process_account]. *)
Definition batch_at (out : Batches) (r : string)
  : option (list (string * string)) * option (list (string * string))
    * option (list (string * string * string * option string)) :=
  (out.1.1 !! r, out.1.2 !! r, out.2 !! r).

(** An entry of the first, unless it is absent. *)
Definition or_else {A B C} (x y : option A * option B * option C)
  : option A * option B * option C :=
  (match x.1.1 with Some a => Some a | None => y.1.1 end,
   match x.1.2 with Some b => Some b | None => y.1.2 end,
   match x.2 with Some c => Some c | None => y.2 end).

(** What [process_region] returns. *)
Lemma process_region_returns account region out s :
  let r := process_region service boto configuration account region out s in
  batch_at r.1 region = or_else (pass_entries r.2) (batch_at out region)
  ∧ forall region', region' ≠ region -> batch_at r.1 region' = batch_at out region'.
Proof.
  unfold process_region. destruct out as [[o1 o2] o3]. msimpl.
  repeat match goal with
         | |- context [let (_, _) := ?x in _] => destruct x as [? ?]
         end.
  cbn. unfold pass_entries, batch_at, or_else. cbn.
  split.
  - destruct (nonempty (scheduler_start_list _)), (nonempty (scheduler_stop_list _)),
      (nonempty (schedule_resize_list _)); cbn; rewrite ?lookup_insert_eq; reflexivity.
  - intros region' Hne.
    destruct (nonempty (scheduler_start_list _)), (nonempty (scheduler_stop_list _)),
      (nonempty (schedule_resize_list _)); cbn;
      rewrite ?lookup_insert_ne by congruence; reflexivity.
Qed.

(** [process_region] writes the state table at the key of its scope only,
    when the driver yields an instance. *)
Lemma process_region_table account region out s key :
  _scheduled_instances_in_region service account region ≠ [] ->
  key ≠ (acc_name account, region) ->
  InstanceStates.table
    (instance_states (exec (process_region service boto configuration account region out) s))
    !! key
  = InstanceStates.table (instance_states s) !! key.
Proof.
  intros Htodo Hkey.
  destruct (process_region_spec service boto configuration account region out s)
    as (-> & _).
  unfold region_store.
  set (todo := _scheduled_instances_in_region service account region) in *.
  set (st0 := loaded_store account region todo (instance_states s)).
  destruct (commit_store_frame service account region
              (loop_starts boto configuration todo st0)
              (loop_stops boto configuration todo st0)
              (loop_store boto configuration todo st0)) as [Ha Ht].
  destruct (loop_store_frame boto configuration todo st0) as [Ha' Ht'].
  rewrite Ha' in Ha. rewrite Ht' in Ht.
  unfold InstanceStates.save, InstanceStates.cleanup. cbn. rewrite Ha, Ht.
  subst st0. destruct todo; [contradiction|]. cbn.
  apply lookup_insert_ne. congruence.
Qed.

Lemma or_else_none {A B C} (x : option A * option B * option C) :
  or_else x (None, None, None) = x.
Proof. destruct x as [[[a|] [b|]] [c|]]; reflexivity. Qed.

(** Within a run that takes the state table from [t0] to [t1], the scope
    (account, region) is passed over once: by a [process_region] that finds
    in the table, at the key of the scope, what [t0] holds there, that leaves
    there what [t1] holds, and that ends with batches whose entries are
    [entries]. *)
Definition scope_pass (account : Account) (region : string)
    (t0 t1 : gmap (string * string) (gmap string State))
    (entries : option (list (string * string)) * option (list (string * string))
               * option (list (string * string * string * option string))) : Prop :=
  exists s_b o_b,
    InstanceStates.table (instance_states s_b) !! (acc_name account, region)
    = t0 !! (acc_name account, region)
    ∧ let s_a := exec (process_region service boto configuration account region o_b) s_b in
      t1 !! (acc_name account, region)
      = InstanceStates.table (instance_states s_a) !! (acc_name account, region)
      ∧ entries = pass_entries s_a.

(** The loop over the regions of an account passes over each region once. *)
Lemma regions_loop_decomp account regions : forall out s,
  NoDup regions ->
  (forall r, r ∈ regions -> _scheduled_instances_in_region service account r ≠ []) ->
  (forall r, r ∈ regions -> batch_at out r = (None, None, None)) ->
  let res := regions_loop service boto configuration account regions out s in
  (forall key,
      (forall r, r ∈ regions -> key ≠ (acc_name account, r)) ->
      InstanceStates.table (instance_states res.2) !! key
      = InstanceStates.table (instance_states s) !! key)
  ∧ (forall r, r ∉ regions -> batch_at res.1 r = batch_at out r)
  ∧ (forall r, r ∈ regions ->
       scope_pass account r (InstanceStates.table (instance_states s))
         (InstanceStates.table (instance_states res.2)) (batch_at res.1 r)).
Proof.
  induction regions as [|r regions IH]; intros out s Hnd Htodo Hout.
  { cbn. split; [reflexivity|]. split; [reflexivity|]. intros r Hr. inversion Hr. }
  apply NoDup_cons in Hnd as [Hr Hnd].
  cbn [regions_loop]. unfold mbind, M_bind, bind.
  pose proof (process_region_returns account r out s) as [Hret Hret'].
  pose proof (fun key => process_region_table account r out s key
                           (Htodo r (list_elem_of_here _ _))) as Htbl.
  unfold exec in Htbl.
  destruct (process_region service boto configuration account r out s) as [out1 s1] eqn:Hpr.
  cbn [fst snd] in Hret, Hret', Htbl.
  rewrite (Hout r (list_elem_of_here _ _)), or_else_none in Hret.
  specialize (IH out1 s1 Hnd).
  destruct IH as (Iframe & Iout & Ipass).
  { intros r' Hr'. apply Htodo, list_elem_of_further, Hr'. }
  { intros r' Hr'. rewrite Hret' by (intros ->; contradiction).
    apply Hout, list_elem_of_further, Hr'. }
  set (res := regions_loop service boto configuration account regions out1 s1) in *.
  split; [|split].
  - intros key Hkey. rewrite Iframe.
    + apply Htbl, Hkey, list_elem_of_here.
    + intros r' Hr'. apply Hkey, list_elem_of_further, Hr'.
  - intros r' Hr'. apply not_elem_of_cons in Hr' as [Hne Hr'].
    rewrite Iout by assumption. apply Hret'. assumption.
  - intros r' Hr'. apply elem_of_cons in Hr' as [->|Hr'].
    + exists s, out. split; [reflexivity|]. cbv zeta. unfold exec. rewrite Hpr. cbn [snd].
      split.
      * apply Iframe. intros r' Hr' [= <-]. contradiction.
      * rewrite Iout by assumption. exact Hret.
    + destruct (Ipass r' Hr') as (s_b & o_b & Hb & Ha).
      exists s_b, o_b. split; [|exact Ha].
      rewrite Hb. apply Htbl. intros [= <-]. contradiction.
Qed.

(** The entries of a region in the result of [_process_account]. *)
Definition result_at (res : AccountResult) (r : string)
  : option (list (string * string)) * option (list (string * string))
    * option (list (string * string * string * option string)) :=
  (started res !! r, stopped res !! r, res_resized res ≫= fun m => m !! r).

(** The resized entries are returned only for a service that allows resizing. *)
Definition visible
    (e : option (list (string * string)) * option (list (string * string))
         * option (list (string * string * string * option string)))
  : option (list (string * string)) * option (list (string * string))
    * option (list (string * string * string * option string)) :=
  (e.1.1, e.1.2, if svc_allow_resize service then e.2 else None).

(** What is known of the result for an account processed within a run from
    table [t0] to table [t1]. *)
Definition account_pass (account : Account)
    (t0 t1 : gmap (string * string) (gmap string State)) (res : AccountResult) : Prop :=
  (forall r, r ∉ _regions boto configuration -> result_at res r = (None, None, None))
  ∧ (forall r, r ∈ _regions boto configuration ->
       exists e, scope_pass account r t0 t1 e ∧ result_at res r = visible e).

Lemma process_account_decomp account s :
  NoDup (_regions boto configuration) ->
  (forall r, r ∈ _regions boto configuration ->
             _scheduled_instances_in_region service account r ≠ []) ->
  let res := _process_account service boto configuration account s in
  (forall key,
      (forall r, r ∈ _regions boto configuration -> key ≠ (acc_name account, r)) ->
      InstanceStates.table (instance_states res.2) !! key
      = InstanceStates.table (instance_states s) !! key)
  ∧ account_pass account (InstanceStates.table (instance_states s))
      (InstanceStates.table (instance_states res.2)) res.1.
Proof.
  intros Hnd Htodo. unfold _process_account. msimpl.
  match goal with
  | |- context [regions_loop _ _ _ _ ?rs ?out ?st] =>
      pose proof (regions_loop_decomp account rs out st Hnd Htodo) as H;
      destruct (regions_loop service boto configuration account rs out st)
        as [[[o1 o2] o3] s1]
  end.
  destruct H as (Hframe & Hout & Hpass); [intros r _; reflexivity|].
  cbn in *. split; [exact Hframe|]. split.
  - intros r Hr. specialize (Hout r Hr). unfold batch_at, result_at in *. cbn in *.
    injection Hout as H1 H2 H3.
    destruct (svc_allow_resize service); cbn; rewrite ?H1, ?H2, ?H3, ?lookup_empty;
      reflexivity.
  - intros r Hr. eexists. split; [exact (Hpass r Hr)|].
    unfold result_at, visible, batch_at. cbn.
    destruct (svc_allow_resize service); reflexivity.
Qed.

(** A resumption of the generator that answers the same account from any
    state, and leaves the instance states alone. *)
Definition quiet (step : M (option Account)) : Prop :=
  forall s, (step s).1 = (step (new_scheduler ∅)).1
            ∧ instance_states (step s).2 = instance_states s.

Lemma remote_account_step_quiet x :
  quiet (remote_account_step service boto function_name configuration lambda_account x).
Proof.
  intros s.
  unfold remote_account_step, get_session_for_account, remove_account_from_config.
  destruct (bool_decide (x ∈ accounts_done configuration lambda_account)); [split; reflexivity|].
  msimpl. destruct (assume_role boto _ _) as [k sk t|code ex]; msimpl; [split; reflexivity|].
  destruct (bool_decide (code = Some "AccessDenied")); msimpl; [|split; reflexivity].
  destruct (lambda_invoke boto function_name _); split; reflexivity.
Qed.

Lemma accounts_quiet :
  Forall quiet (_accounts service boto function_name configuration lambda_account).
Proof.
  unfold _accounts. apply Forall_app. split.
  - destruct (SchedulerConfig.schedule_lambda_account configuration);
      repeat constructor.
  - apply Forall_forall. intros step Hstep.
    apply list_elem_of_In, in_map_iff in Hstep as (x & <- & _).
    apply remote_account_step_quiet.
Qed.

(** The accounts a generator yields. *)
Definition yields (gen : list (M (option Account))) : list Account :=
  omap (fun step => (step (new_scheduler ∅)).1) gen.

Lemma yields_cons step gen :
  yields (step :: gen)
  = match (step (new_scheduler ∅)).1 with
    | Some a => a :: yields gen
    | None => yields gen
    end.
Proof. reflexivity. Qed.

Lemma yielded_yields gen : forall s, Forall quiet gen -> (yielded gen s).1 = yields gen.
Proof.
  induction gen as [|step gen IH]; intros s Hq; [reflexivity|].
  apply Forall_cons in Hq as [Hstep Hq].
  cbn [yielded]. rewrite yields_cons.
  unfold mbind, M_bind, bind, mret, M_ret, ret.
  destruct (Hstep s) as [Hv _].
  destruct (step s) as [a s1]. cbn [fst] in Hv. rewrite <- Hv.
  specialize (IH s1 Hq). destruct (yielded gen s1) as [rest s2]. cbn in *.
  rewrite IH. destruct a; reflexivity.
Qed.

Lemma scope_pass_ext account region t0 t1 t0' t1' entries :
  t0 !! (acc_name account, region) = t0' !! (acc_name account, region) ->
  t1 !! (acc_name account, region) = t1' !! (acc_name account, region) ->
  scope_pass account region t0 t1 entries -> scope_pass account region t0' t1' entries.
Proof.
  intros H0 H1 (s_b & o_b & Hb & Ha). exists s_b, o_b.
  rewrite <- H0, <- H1. split; assumption.
Qed.

Lemma account_pass_ext account t0 t1 t0' t1' res :
  (forall r, r ∈ _regions boto configuration ->
             t0 !! (acc_name account, r) = t0' !! (acc_name account, r)
             ∧ t1 !! (acc_name account, r) = t1' !! (acc_name account, r)) ->
  account_pass account t0 t1 res -> account_pass account t0' t1' res.
Proof.
  intros H [Hout Hin]. split; [exact Hout|].
  intros r Hr. destruct (Hin r Hr) as (e & Hp & He). exists e. split; [|exact He].
  destruct (H r Hr) as [H0 H1]. eapply scope_pass_ext; eassumption.
Qed.

Lemma elem_of_names (a : Account) (l : list Account) : a ∈ l -> acc_name a ∈ map acc_name l.
Proof. intros H. apply list_elem_of_In, in_map, list_elem_of_In, H. Qed.

(** The loop over the accounts passes over each scope once, when the
    accounts yielded have distinct names, the regions are distinct and the
    driver yields an instance for every scope. *)
Lemma accounts_loop_decomp gen : forall response s,
  Forall quiet gen ->
  NoDup (map acc_name (yields gen)) ->
  NoDup (_regions boto configuration) ->
  (forall a r, a ∈ yields gen -> r ∈ _regions boto configuration ->
               _scheduled_instances_in_region service a r ≠ []) ->
  let res := accounts_loop service boto configuration gen response s in
  (forall key,
      (forall a r, a ∈ yields gen -> r ∈ _regions boto configuration ->
                   key ≠ (acc_name a, r)) ->
      InstanceStates.table (instance_states res.2) !! key
      = InstanceStates.table (instance_states s) !! key)
  ∧ (forall name, name ∉ map acc_name (yields gen) -> res.1 !! name = response !! name)
  ∧ (forall a, a ∈ yields gen ->
       exists result,
         res.1 !! acc_name a = Some result
         ∧ account_pass a (InstanceStates.table (instance_states s))
             (InstanceStates.table (instance_states res.2)) result).
Proof.
  induction gen as [|step gen IH]; intros response s Hq Hnames Hregions Htodo.
  { cbn. split; [reflexivity|]. split; [reflexivity|]. intros a Ha. inversion Ha. }
  apply Forall_cons in Hq as [Hstep Hq].
  rewrite yields_cons in *.
  cbn [accounts_loop]. unfold mbind, M_bind, bind.
  destruct (Hstep s) as [Hv Hs]. destruct (step s) as [y s1]. cbn [fst snd] in Hv, Hs.
  rewrite <- Hv in *. clear Hv. destruct y as [a|].
  2:{ rewrite <- Hs. apply IH; assumption. }
  cbn [map] in Hnames. apply NoDup_cons in Hnames as [Ha Hnames].
  destruct (process_account_decomp a s1 Hregions) as [Hframe Hpass].
  { intros r Hr. apply Htodo; [apply list_elem_of_here|assumption]. }
  destruct (_process_account service boto configuration a s1) as [result s2].
  cbn [fst snd] in Hframe, Hpass. rewrite Hs in Hframe, Hpass.
  specialize (IH (<[acc_name a := result]> response) s2 Hq Hnames Hregions).
  destruct IH as (Iframe & Iresp & Ipass).
  { intros a' r Ha' Hr. apply Htodo; [apply list_elem_of_further|]; assumption. }
  set (res := accounts_loop service boto configuration gen
                (<[acc_name a := result]> response) s2) in *.
  assert (forall a' (r r' : string),
            a' ∈ yields gen -> (acc_name a', r) ≠ (acc_name a, r')) as Hother.
  { intros a' r r' Ha' [= E _]. apply Ha. rewrite <- E. apply elem_of_names, Ha'. }
  split; [|split].
  - intros key Hkey. rewrite Iframe.
    + apply Hframe. intros r Hr. apply Hkey; [apply list_elem_of_here|assumption].
    + intros a' r Ha' Hr. apply Hkey; [apply list_elem_of_further|]; assumption.
  - intros name Hname. cbn [map] in Hname. apply not_elem_of_cons in Hname as [Hne Hname].
    rewrite Iresp by assumption. apply lookup_insert_ne. congruence.
  - intros a0 Ha0. apply elem_of_cons in Ha0 as [->|Ha0].
    + exists result. split.
      * rewrite Iresp by assumption. apply lookup_insert_eq.
      * eapply account_pass_ext; [|exact Hpass]. intros r Hr. split; [reflexivity|].
        symmetry. apply Iframe. intros a' r' Ha' Hr' E. symmetry in E.
        exact (Hother a' r' r Ha' E).
    + destruct (Ipass a0 Ha0) as (result0 & Hres & Hp).
      exists result0. split; [exact Hres|].
      eapply account_pass_ext; [|exact Hp]. intros r Hr. split; [|reflexivity].
      apply Hframe. intros r' Hr'. apply Hother. assumption.
Qed.

(** A run passes over every scope once. *)
Lemma run_decomp state_table :
  let accounts :=
    (yielded (_accounts service boto function_name configuration lambda_account)
       (new_scheduler ∅)).1 in
  NoDup (map acc_name accounts) ->
  NoDup (_regions boto configuration) ->
  (forall a r, a ∈ accounts -> r ∈ _regions boto configuration ->
               _scheduled_instances_in_region service a r ≠ []) ->
  let res := run service boto function_name configuration lambda_account
               (new_scheduler state_table) in
  (forall name, name ∉ map acc_name accounts -> res.1 !! name = None)
  ∧ (forall a, a ∈ accounts ->
       exists result,
         res.1 !! acc_name a = Some result
         ∧ account_pass a state_table (InstanceStates.table (instance_states res.2)) result).
Proof.
  intros accounts. subst accounts.
  rewrite (yielded_yields _ _ accounts_quiet).
  intros Hnames Hregions Htodo res.
  assert (res = accounts_loop service boto configuration
                  (_accounts service boto function_name configuration lambda_account) ∅
                  (new_scheduler state_table)) as -> by reflexivity.
  destruct (accounts_loop_decomp
              (_accounts service boto function_name configuration lambda_account) ∅
              (new_scheduler state_table) accounts_quiet Hnames Hregions Htodo)
    as (_ & Hresp & Hpass).
  split.
  - intros name Hname. rewrite (Hresp name Hname). apply lookup_empty.
  - exact Hpass.
Qed.

End RunScopes.

(** ** The claims about [run] *)

Lemma recorded_ext st st' account region id :
  InstanceStates.table st !! (account, region) = InstanceStates.table st' !! (account, region) ->
  recorded st account region id = recorded st' account region id.
Proof. unfold recorded. intros ->. reflexivity. Qed.




(** C1, amended: after [run] returns -- when the accounts yielded have
    distinct names, the regions are distinct and the driver yields at least
    one instance for every (account, region) -- take an instance observed in
    an (account, region) whose ids are distinct and for which the driver
    reports what it starts as running and what it stops as stopped; the
    instance is not terminated, its schedule is known and answers running or
    stopped, and its record before the run, if any, held running, stopped or
    retain-running.  Then the state table holds a record keyed by its id,
    with a value among running, stopped and retain-running -- except when the
    instance had no record, is running and is wanted running: then the table
    holds no record for it. *)
Theorem run_leaves_record (service : Service) (boto : Boto) (function_name : string)
    (configuration : SchedulerConfig.t) (lambda_account : string)
    (state_table : gmap (string * string) (gmap string State))
    (account : Account) (region : string) (instance : Instance) (sch : Schedule) :
  let accounts :=
    (yielded (_accounts service boto function_name configuration lambda_account)
       (new_scheduler ∅)).1 in
  NoDup (map acc_name accounts) ->
  NoDup (_regions boto configuration) ->
  (forall a r, a ∈ accounts -> r ∈ _regions boto configuration ->
               _scheduled_instances_in_region service a r ≠ []) ->
  account ∈ accounts ->
  region ∈ _regions boto configuration ->
  NoDup (ids (_scheduled_instances_in_region service account region)) ->
  reports_outcome service account region ->
  instance ∈ _scheduled_instances_in_region service account region ->
  is_terminated instance = false ->
  SchedulerConfig.get_schedule configuration (schedule_name instance) = Some sch ->
  let desired := (desired_state_and_type boto sch instance).1 in
  desired ∈ [STATE_RUNNING; STATE_STOPPED] ->
  let before :=
    recorded (InstanceStates.new state_table) (acc_name account) region (inst_id instance) in
  (forall v, before = Some v -> v ∈ persistent_states) ->
  let final := run service boto function_name configuration lambda_account
                 (new_scheduler state_table) in
  let after :=
    recorded (instance_states final.2) (acc_name account) region (inst_id instance) in
  if bool_decide (before = None) && is_running instance
     && bool_decide (desired = STATE_RUNNING)
  then after = None
  else exists v, after = Some v ∧ v ∈ persistent_states.
Proof.
  intros accounts Hnames Hregions Htodo Ha Hr Hnd Hdrv Hin Hterm Hsch desired Hdes
    before Hbefore final after.
  destruct (run_decomp service boto function_name configuration lambda_account state_table
              Hnames Hregions Htodo) as [_ Hpass].
  fold accounts final in Hpass.
  destruct (Hpass account Ha) as (result & _ & _ & Hscope).
  destruct (Hscope region Hr) as (e & (s_b & o_b & Hb & Hafter & _) & _).
  assert (recorded (instance_states s_b) (acc_name account) region (inst_id instance)
          = before) as Hrb.
  { subst before. apply recorded_ext. exact Hb. }
  subst after.
  rewrite (recorded_ext _ _ _ _ (inst_id instance) Hafter).
  pose proof (observed_instance_record service boto configuration account region instance
                sch o_b s_b Hnd Hdrv Hin Hterm Hsch Hdes) as H.
  cbv zeta in H. rewrite Hrb in H. apply H. exact Hbefore.
Qed.

Lemma run_leaves_record_witness :
  exists v,
    recorded
      (instance_states
         (run (Scenario.driver two_instances true) (Scenario.sdk Scenario.sts_ok)
            "scheduler" two_schedules "111122223333" (new_scheduler ∅)).2)
      "111122223333" "us-east-1" "i-1" = Some v
    ∧ v ∈ persistent_states.
Proof.
  refine (run_leaves_record (Scenario.driver two_instances true)
            (Scenario.sdk Scenario.sts_ok) "scheduler" two_schedules "111122223333" ∅
            Scenario.host "us-east-1" stopped_seen
            (Scenario.schedule "office" STATE_RUNNING None false false true)
            _ _ _ _ _ _ _ _ _ _ _ _).
  - apply (bool_decide_unpack _). vm_compute. exact I.
  - apply (bool_decide_unpack _). vm_compute. exact I.
  - intros a r Ha Hr. vm_compute in Ha, Hr.
    apply list_elem_of_singleton in Ha, Hr. subst a r. vm_compute. discriminate.
  - vm_compute. apply list_elem_of_here.
  - vm_compute. apply list_elem_of_here.
  - apply (bool_decide_unpack _). vm_compute. exact I.
  - apply scenario_driver_reports_outcome.
  - vm_compute. apply list_elem_of_here.
  - reflexivity.
  - vm_compute. reflexivity.
  - vm_compute. apply list_elem_of_here.
  - intros v Hv. vm_compute in Hv. discriminate Hv.
Defined.

(** ** Scenarios of the specification *)

(** S1: a stopped instance inside the running period of its schedule is
    started, and recorded as running. *)
Example scenario_start :
  let r := run (Scenario.driver stopped_one true) (Scenario.sdk Scenario.sts_ok) "scheduler"
             office_hours "111122223333" (new_scheduler ∅) in
  started <$> r.1 !! "111122223333" = Some {[ "us-east-1" := [("i-1", "office")] ]}
  ∧ recorded (instance_states r.2) "111122223333" "us-east-1" "i-1" = Some STATE_RUNNING.
Proof. cbv zeta. split; vm_compute; reflexivity. Qed.

(** S6: a stopped instance of type m5.large whose period pins m5.xlarge is
    resized and started. *)
Example scenario_resize :
  let s' := exec (process_region (Scenario.driver to_resize true)
                    (Scenario.sdk Scenario.sts_ok) pinned_type Scenario.host "us-east-1"
                    (∅, ∅, ∅)) (new_scheduler ∅) in
  ids (scheduler_start_list s') = ["i-1"]
  ∧ map (fun e : Instance * option string => (inst_id e.1, instancetype e.1, e.2))
      (schedule_resize_list s')
    = [("i-1", "m5.large", Some "m5.xlarge")].
Proof. cbv zeta. split; vm_compute; reflexivity. Qed.

(** S5: an instance whose schedule is unknown is skipped with a warning; no
    record is created for it. *)
Example scenario_unknown_schedule :
  let r := run (Scenario.driver [Scenario.instance "i-9" true "m5.large" "missing"] true)
             (Scenario.sdk Scenario.sts_ok) "scheduler" office_hours "111122223333"
             (new_scheduler ∅) in
  recorded (instance_states r.2) "111122223333" "us-east-1" "i-9" = None
  ∧ List.filter (fun l => match log_level l with WARNING => true | _ => false end)
      (logger r.2)
    = [ {| log_level := WARNING; log_msg := WARN_SKIPPING_UNKNOWN_SCHEDULE;
           log_args := ["EC2:i-9"; "us-east-1"; "111122223333"; "missing"] |} ].
Proof. cbv zeta. split; vm_compute; reflexivity. Qed.

(** * Further properties of the engine *)

(** ** What the batches of a region hold *)

Section BatchContents.

Variable service : Service.
Variable boto : Boto.
Variable configuration : SchedulerConfig.t.
Variable account : Account.
Variable region : string.

(** An instance is listed to be started only when it is not running, not
    terminated, and its schedule wants it running. *)
Lemma decision_start (instance : Instance) last :
  decision boto configuration instance last = Start ->
  is_running instance = false
  ∧ is_terminated instance = false
  ∧ last ≠ STATE_RETAIN_RUNNING
  ∧ exists sch,
      SchedulerConfig.get_schedule configuration (schedule_name instance) = Some sch
      ∧ (desired_state_and_type boto sch instance).1 = STATE_RUNNING.
Proof.
  unfold decision, new_state_decision.
  destruct (is_terminated instance); [discriminate|].
  destruct (SchedulerConfig.get_schedule configuration (schedule_name instance)) as [sch|];
    [|discriminate].
  intros H.
  assert (new_state_decision instance (desired_state_and_type boto sch instance).1 last
            (retain_running sch) = Start) as Hn.
  { unfold new_state_decision.
    repeat match type of H with
           | context [if ?b then _ else _] => destruct b eqn:?; try discriminate
           end; try assumption; cbn in *; try discriminate. }
  clear H. unfold new_state_decision in Hn.
  repeat case_bool_decide; try discriminate;
    destruct (is_running instance); cbn in Hn; try discriminate;
    repeat case_bool_decide; try discriminate; eauto 10.
Qed.

(** An instance is listed to be stopped only when it is running, not
    terminated, and its schedule wants it stopped. *)
Lemma decision_stop (instance : Instance) last :
  decision boto configuration instance last = Stop ->
  is_running instance = true
  ∧ is_terminated instance = false
  ∧ last ≠ STATE_RETAIN_RUNNING
  ∧ exists sch,
      SchedulerConfig.get_schedule configuration (schedule_name instance) = Some sch
      ∧ (desired_state_and_type boto sch instance).1
          ∈ [STATE_STOPPED; STATE_STOPPED_FOR_RESIZE].
Proof.
  unfold decision, new_state_decision.
  destruct (is_terminated instance); [discriminate|].
  destruct (SchedulerConfig.get_schedule configuration (schedule_name instance)) as [sch|];
    [|discriminate].
  intros H.
  assert (new_state_decision instance (desired_state_and_type boto sch instance).1 last
            (retain_running sch) = Stop) as Hn.
  { unfold new_state_decision.
    repeat match type of H with
           | context [if ?b then _ else _] => destruct b eqn:?; try discriminate
           end; try assumption; cbn in *; try discriminate. }
  clear H. unfold new_state_decision in Hn.
  repeat case_bool_decide; try discriminate;
    destruct (is_running instance); cbn in Hn; try discriminate;
    repeat case_bool_decide; try discriminate; eauto 10.
Qed.

Lemma loop_starts_elem todo : forall st j,
  j ∈ loop_starts boto configuration todo st ->
  j ∈ todo ∧ exists last, decision boto configuration j last = Start.
Proof.
  induction todo as [|a todo IH]; intros st j; cbn; [inversion 1|].
  rewrite elem_of_app, elem_of_cons. intros [H|H].
  - destruct (decision_in boto configuration st a) eqn:E; cbn in H;
      try (inversion H; fail).
    apply list_elem_of_singleton in H as ->. split; [auto|].
    eexists. exact E.
  - destruct (IH _ _ H) as [H1 H2]. auto.
Qed.

Lemma loop_stops_elem todo : forall st j,
  j ∈ loop_stops boto configuration todo st ->
  exists (i : Instance) last,
    i ∈ todo ∧ decision boto configuration i last = Stop
    ∧ j = if bool_decide ((desired_of boto configuration i).1 = STATE_STOPPED_FOR_RESIZE)
          then replace_resized i true else i.
Proof.
  induction todo as [|a todo IH]; intros st j; cbn; [inversion 1|].
  rewrite elem_of_app. intros [H|H].
  - destruct (decision_in boto configuration st a) eqn:E; cbn in H;
      try (inversion H; fail).
    apply list_elem_of_singleton in H. exists a. eexists.
    split; [apply list_elem_of_here|]. split; [exact E|exact H].
  - destruct (IH _ _ H) as (i & last & H1 & H2 & H3).
    exists i, last. split; [apply list_elem_of_further, H1|]. auto.
Qed.

(** Whatever is resized is started: the loop appends to the resize list
    only on its way to the start list. *)
Lemma loop_resizes_started todo : forall st (e : Instance * option string),
  e ∈ loop_resizes service boto configuration account region todo st ->
  e.1 ∈ loop_starts boto configuration todo st
  ∧ e.1 ∈ todo
  ∧ resize_warranted e.1 e.2 = true
  ∧ resize_instance service (acc_name account) region e.1 e.2 = Returned tt.
Proof.
  induction todo as [|a todo IH]; intros st e; cbn; [inversion 1|].
  rewrite !elem_of_app, elem_of_cons. intros [H|H].
  - destruct (decision_in boto configuration st a) eqn:E; cbn in H;
      try (inversion H; fail).
    destruct (resize_warranted a (desired_of boto configuration a).2) eqn:Hw;
      [|inversion H].
    destruct (resize_instance service (acc_name account) region a
                (desired_of boto configuration a).2) as [[]|ex] eqn:Hr; [|inversion H].
    apply list_elem_of_singleton in H as ->. cbn.
    split; [left; apply list_elem_of_here|]. auto.
  - destruct (IH _ _ H) as (H1 & H2 & H3 & H4). auto.
Qed.

End BatchContents.

(** X1: every instance that a pass over a region leaves in the start list is
    one the driver yielded for that region, is not running, is not
    terminated, and has a known schedule whose desired state for it is
    running. *)
Theorem started_instances_were_stopped (service : Service) (boto : Boto)
    (configuration : SchedulerConfig.t) (account : Account) (region : string)
    (out : Batches) (s : Scheduler) (i : Instance) :
  i ∈ scheduler_start_list
        (exec (process_region service boto configuration account region out) s) ->
  i ∈ _scheduled_instances_in_region service account region
  ∧ is_running i = false
  ∧ is_terminated i = false
  ∧ exists sch,
      SchedulerConfig.get_schedule configuration (schedule_name i) = Some sch
      ∧ (desired_state_and_type boto sch i).1 = STATE_RUNNING.
Proof.
  intros Hi.
  destruct (process_region_spec service boto configuration account region out s)
    as (_ & Hstart & _).
  rewrite Hstart in Hi. apply loop_starts_elem in Hi as (Hin & last & Hd).
  apply decision_start in Hd as (H1 & H2 & _ & H3). auto.
Qed.

(** A region with a stopped instance whose schedule wants it running with
    another type, and a running one whose schedule wants it stopped. *)
Definition day_and_night : list Instance :=
  [ Scenario.instance "i-1" false "m5.large" "office";
    Scenario.instance "i-2" true "t3.micro" "night" ].

Definition day_and_night_schedules : SchedulerConfig.t :=
  Scenario.config true []
    [ Scenario.schedule "office" STATE_RUNNING (Some "m5.xlarge") false false true;
      Scenario.schedule "night" STATE_STOPPED None false false true ].

Definition day_and_night_pass : Scheduler :=
  exec (process_region (Scenario.driver day_and_night true) (Scenario.sdk Scenario.sts_ok)
          day_and_night_schedules Scenario.host "us-east-1" (∅, ∅, ∅)) (new_scheduler ∅).

(** The two instances, as the engine sees them. *)
Definition seen (n : nat) : Instance :=
  default (Scenario.instance "none" false "none" "none")
    (_scheduled_instances_in_region (Scenario.driver day_and_night true) Scenario.host
       "us-east-1" !! n).

Example day_and_night_batches :
  scheduler_start_list day_and_night_pass = [seen 0]
  ∧ scheduler_stop_list day_and_night_pass = [seen 1]
  ∧ schedule_resize_list day_and_night_pass = [(seen 0, Some "m5.xlarge")].
Proof. vm_compute. repeat split. Qed.

Lemma started_instances_were_stopped_witness :
  seen 0 ∈ scheduler_start_list day_and_night_pass
  ∧ seen 0 ∈ _scheduled_instances_in_region (Scenario.driver day_and_night true)
               Scenario.host "us-east-1"
  ∧ is_running (seen 0) = false
  ∧ is_terminated (seen 0) = false
  ∧ exists sch,
      SchedulerConfig.get_schedule day_and_night_schedules (schedule_name (seen 0)) = Some sch
      ∧ (desired_state_and_type (Scenario.sdk Scenario.sts_ok) sch (seen 0)).1
        = STATE_RUNNING.
Proof.
  assert (seen 0 ∈ scheduler_start_list day_and_night_pass) as H.
  { vm_compute. apply list_elem_of_here. }
  split; [exact H|].
  exact (started_instances_were_stopped (Scenario.driver day_and_night true)
           (Scenario.sdk Scenario.sts_ok) day_and_night_schedules Scenario.host
           "us-east-1" (∅, ∅, ∅) (new_scheduler ∅) (seen 0) H).
Defined.

(** X2: every entry that a pass over a region leaves in the stop list comes
    from an instance the driver yielded for that region that is running, is
    not terminated and has a known schedule whose desired state for it is
    stopped or stopped-for-resize; the entry is that instance, marked
    [resized] exactly when the desired state is stopped-for-resize. *)
Theorem stopped_instances_were_running (service : Service) (boto : Boto)
    (configuration : SchedulerConfig.t) (account : Account) (region : string)
    (out : Batches) (s : Scheduler) (j : Instance) :
  j ∈ scheduler_stop_list
        (exec (process_region service boto configuration account region out) s) ->
  is_running j = true
  ∧ is_terminated j = false
  ∧ exists (i : Instance) sch,
      i ∈ _scheduled_instances_in_region service account region
      ∧ SchedulerConfig.get_schedule configuration (schedule_name i) = Some sch
      ∧ (desired_state_and_type boto sch i).1 ∈ [STATE_STOPPED; STATE_STOPPED_FOR_RESIZE]
      ∧ j = if bool_decide ((desired_state_and_type boto sch i).1 = STATE_STOPPED_FOR_RESIZE)
            then replace_resized i true else i.
Proof.
  intros Hj.
  destruct (process_region_spec service boto configuration account region out s)
    as (_ & _ & Hstop & _).
  rewrite Hstop in Hj. apply loop_stops_elem in Hj as (i & last & Hin & Hd & ->).
  apply decision_stop in Hd as (H1 & H2 & _ & sch & H3 & H4).
  unfold desired_of. rewrite H3.
  split; [|split].
  - case_bool_decide; assumption.
  - case_bool_decide; assumption.
  - exists i, sch. auto.
Qed.

Lemma stopped_instances_were_running_witness :
  seen 1 ∈ scheduler_stop_list day_and_night_pass
  ∧ is_running (seen 1) = true
  ∧ is_terminated (seen 1) = false
  ∧ exists (i : Instance) sch,
      i ∈ _scheduled_instances_in_region (Scenario.driver day_and_night true)
            Scenario.host "us-east-1"
      ∧ SchedulerConfig.get_schedule day_and_night_schedules (schedule_name i) = Some sch
      ∧ (desired_state_and_type (Scenario.sdk Scenario.sts_ok) sch i).1
          ∈ [STATE_STOPPED; STATE_STOPPED_FOR_RESIZE]
      ∧ seen 1
        = if bool_decide ((desired_state_and_type (Scenario.sdk Scenario.sts_ok) sch i).1
                          = STATE_STOPPED_FOR_RESIZE)
          then replace_resized i true else i.
Proof.
  assert (seen 1 ∈ scheduler_stop_list day_and_night_pass) as H.
  { vm_compute. apply list_elem_of_here. }
  split; [exact H|].
  exact (stopped_instances_were_running (Scenario.driver day_and_night true)
           (Scenario.sdk Scenario.sts_ok) day_and_night_schedules Scenario.host
           "us-east-1" (∅, ∅, ∅) (new_scheduler ∅) (seen 1) H).
Defined.

(** X3: every entry [(instance, new_type)] that a pass over a region leaves
    in the resize list belongs to an instance of the start list of the same
    pass: nothing is resized that is not started.  The instance allows
    resizing, the new type is not the type it has, and the driver's
    [resize_instance] returned for it. *)
Theorem resized_instances_are_started (service : Service) (boto : Boto)
    (configuration : SchedulerConfig.t) (account : Account) (region : string)
    (out : Batches) (s : Scheduler) (e : Instance * option string) :
  let s' := exec (process_region service boto configuration account region out) s in
  e ∈ schedule_resize_list s' ->
  e.1 ∈ scheduler_start_list s'
  ∧ allow_resize e.1 = true
  ∧ resize_instance service (acc_name account) region e.1 e.2 = Returned tt
  ∧ exists new_type, e.2 = Some new_type ∧ new_type ≠ instancetype e.1.
Proof.
  intros s' He. subst s'.
  destruct (process_region_spec service boto configuration account region out s)
    as (_ & Hstart & _ & Hresize & _).
  rewrite Hresize in He. rewrite Hstart.
  apply loop_resizes_started in He as (H1 & _ & H2 & H3).
  split; [exact H1|].
  unfold resize_warranted in H2. destruct e as [i [t|]]; cbn in *; [|discriminate].
  apply andb_prop in H2 as [Hne Hallow].
  split; [exact Hallow|]. split; [exact H3|].
  exists t. split; [reflexivity|].
  intros ->. rewrite String.eqb_refl in Hne. discriminate.
Qed.

Lemma resized_instances_are_started_witness :
  (seen 0, Some "m5.xlarge") ∈ schedule_resize_list day_and_night_pass
  ∧ seen 0 ∈ scheduler_start_list day_and_night_pass
  ∧ allow_resize (seen 0) = true
  ∧ resize_instance (Scenario.driver day_and_night true) (acc_name Scenario.host)
      "us-east-1" (seen 0) (Some "m5.xlarge") = Returned tt
  ∧ exists new_type, Some "m5.xlarge" = Some new_type ∧ new_type ≠ instancetype (seen 0).
Proof.
  assert ((seen 0, Some "m5.xlarge") ∈ schedule_resize_list day_and_night_pass) as H.
  { vm_compute. apply list_elem_of_here. }
  split; [exact H|].
  exact (resized_instances_are_started (Scenario.driver day_and_night true)
           (Scenario.sdk Scenario.sts_ok) day_and_night_schedules Scenario.host
           "us-east-1" (∅, ∅, ∅) (new_scheduler ∅) (seen 0, Some "m5.xlarge") H).
Defined.

(** ** Instances the cycle leaves alone *)

Section LeftAlone.

Variable service : Service.
Variable boto : Boto.
Variable configuration : SchedulerConfig.t.
Variable account : Account.
Variable region : string.

(** An instance that is neither started nor stopped is in neither list, and
    keeps the record the loop left for it, when the driver reports on the
    instances it is given only. *)
Lemma region_outcome_unlisted out s (instance : Instance) :
  let todo := _scheduled_instances_in_region service account region in
  NoDup (ids todo) ->
  instance ∈ todo ->
  let before := recorded (instance_states s) (acc_name account) region (inst_id instance) in
  let d := decision boto configuration instance (default STATE_UNKNOWN before) in
  let s1 := exec (process_region service boto configuration account region out) s in
  d ≠ Start -> d ≠ Stop ->
  (inst_id instance ∉ ids (scheduler_start_list s1))
  ∧ (inst_id instance ∉ ids (scheduler_stop_list s1))
  ∧ (reports_given service account region ->
     recorded (instance_states s1) (acc_name account) region (inst_id instance)
     = after_decision d before).
Proof.
  intros todo Hnd Hin before d s1 Hstart Hstop.
  destruct (region_outcome service boto configuration account region out s instance Hnd Hin)
    as (H1 & H2 & H3).
  fold before d s1 in H1, H2, H3.
  assert (inst_id instance ∉ ids (scheduler_start_list s1)) as N1.
  { intros H. apply H1 in H. contradiction. }
  assert (inst_id instance ∉ ids (scheduler_stop_list s1)) as N2.
  { intros H. apply H2 in H. contradiction. }
  split; [exact N1|]. split; [exact N2|].
  intros Hgiven. destruct H3 as [H3|(v & _ & [Hv|Hv])]; [exact H3| |].
  - exfalso. apply N1. eapply (proj1 (Hgiven _ _ _)). exact Hv.
  - exfalso. apply N2. eapply (proj2 (Hgiven _ _ _)). exact Hv.
Qed.

Lemma decision_terminated (instance : Instance) last :
  is_terminated instance = true -> decision boto configuration instance last = Forget.
Proof. intros H. unfold decision. rewrite H. reflexivity. Qed.

Lemma decision_unknown_schedule (instance : Instance) last :
  is_terminated instance = false ->
  SchedulerConfig.get_schedule configuration (schedule_name instance) = None ->
  decision boto configuration instance last = Skip.
Proof. intros H1 H2. unfold decision. rewrite H1, H2. reflexivity. Qed.

(** Not enforced, and the record is the desired state: nothing to do. *)
Lemma decision_honours (instance : Instance) sch last :
  is_terminated instance = false ->
  SchedulerConfig.get_schedule configuration (schedule_name instance) = Some sch ->
  enforced sch = false ->
  last ≠ STATE_UNKNOWN ->
  (desired_state_and_type boto sch instance).1 = last ->
  decision boto configuration instance last = Skip.
Proof.
  intros H1 H2 H3 H4 H5. unfold decision. rewrite H1, H2, H3, H5.
  rewrite bool_decide_eq_false_2 by assumption.
  rewrite bool_decide_eq_false_2 by (intros H; apply H; reflexivity).
  reflexivity.
Qed.

(** Enforced, and there is a record that is not retain-running: the actual
    state is held against the desired one. *)
Lemma decision_enforced (instance : Instance) sch last :
  is_terminated instance = false ->
  SchedulerConfig.get_schedule configuration (schedule_name instance) = Some sch ->
  enforced sch = true ->
  last ≠ STATE_UNKNOWN ->
  last ≠ STATE_RETAIN_RUNNING ->
  let desired := (desired_state_and_type boto sch instance).1 in
  decision boto configuration instance last
  = if is_running instance && bool_decide (desired = STATE_STOPPED) then Stop
    else if negb (is_running instance) && bool_decide (desired = STATE_RUNNING) then Start
    else Skip.
Proof.
  intros H1 H2 H3 H4 H5 desired. unfold decision. rewrite H1, H2, H3. fold desired.
  rewrite bool_decide_eq_false_2 by assumption.
  unfold new_state_decision.
  rewrite (bool_decide_eq_false_2 (last = STATE_RETAIN_RUNNING)) by assumption.
  destruct (is_running instance); cbn;
    repeat case_bool_decide; subst; try reflexivity; try congruence.
  all: exfalso; set_solver.
Qed.

(** A record of retain-running: the instance is neither started nor stopped. *)
Lemma decision_retained (instance : Instance) :
  decision boto configuration instance STATE_RETAIN_RUNNING ≠ Start
  ∧ decision boto configuration instance STATE_RETAIN_RUNNING ≠ Stop.
Proof.
  split; intros H.
  - apply decision_start in H as (_ & _ & H & _). apply H. reflexivity.
  - apply decision_stop in H as (_ & _ & H & _). apply H. reflexivity.
Qed.

(** First sighting of a running instance that the schedule wants stopped. *)
Lemma decision_new_running (instance : Instance) sch :
  is_terminated instance = false ->
  SchedulerConfig.get_schedule configuration (schedule_name instance) = Some sch ->
  is_running instance = true ->
  (desired_state_and_type boto sch instance).1 = STATE_STOPPED ->
  decision boto configuration instance STATE_UNKNOWN
  = if stop_new_instances sch then Stop else Persist STATE_STOPPED.
Proof.
  intros H1 H2 H3 H4. unfold decision, new_state_decision. rewrite H1, H2, H3, H4.
  destruct (stop_new_instances sch); reflexivity.
Qed.

End LeftAlone.

(** A pass over the region us-east-1 of the hosting account, with the given
    instances, configuration and records in the state table. *)
Definition scope_table (records : list (string * State))
  : gmap (string * string) (gmap string State) :=
  {[ ("111122223333", "us-east-1") := list_to_map records ]}.

Definition pass_over (instances : list Instance) (configuration : SchedulerConfig.t)
    (records : list (string * State)) : Scheduler :=
  exec (process_region (Scenario.driver instances true) (Scenario.sdk Scenario.sts_ok)
          configuration Scenario.host "us-east-1" (∅, ∅, ∅))
    (new_scheduler (scope_table records)).

(** The [n]-th instance of the region, as the engine sees it. *)
Definition observed (instances : list Instance) (n : nat) : Instance :=
  default (Scenario.instance "none" false "none" "none")
    (_scheduled_instances_in_region (Scenario.driver instances true) Scenario.host
       "us-east-1" !! n).

(** The record of an instance of that region. *)
Definition record_of (s : Scheduler) (id : string) : option State :=
  recorded (instance_states s) "111122223333" "us-east-1" id.

(** A schedule, not enforced or enforced, that wants the instances stopped. *)
Definition night (enforce stop_new : bool) : SchedulerConfig.t :=
  Scenario.config true [] [ Scenario.schedule "night" STATE_STOPPED None enforce false stop_new ].

(** A schedule that wants the instances running. *)
Definition office (enforce : bool) : SchedulerConfig.t :=
  Scenario.config true [] [ Scenario.schedule "office" STATE_RUNNING None enforce false true ].

Definition one_running (schedule : string) : list Instance :=
  [ Scenario.instance "i-1" true "m5.large" schedule ].

Definition one_stopped (schedule : string) : list Instance :=
  [ Scenario.instance "i-1" false "m5.large" schedule ].

(** X4: an instance whose record in the state table is retain-running is put
    neither in the start list nor in the stop list by a pass over its region
    (instance ids distinct in the region), whatever its schedule says and
    whether the schedule is enforced or not. *)
Theorem retained_instance_left_alone (service : Service) (boto : Boto)
    (configuration : SchedulerConfig.t) (account : Account) (region : string)
    (out : Batches) (s : Scheduler) (instance : Instance) :
  let todo := _scheduled_instances_in_region service account region in
  NoDup (ids todo) ->
  instance ∈ todo ->
  recorded (instance_states s) (acc_name account) region (inst_id instance)
  = Some STATE_RETAIN_RUNNING ->
  let s1 := exec (process_region service boto configuration account region out) s in
  (inst_id instance ∉ ids (scheduler_start_list s1))
  ∧ (inst_id instance ∉ ids (scheduler_stop_list s1)).
Proof.
  intros todo Hnd Hin Hbefore s1.
  destruct (decision_retained boto configuration instance) as [N1 N2].
  destruct (region_outcome_unlisted service boto configuration account region out s
              instance Hnd Hin) as (H1 & H2 & _).
  - rewrite Hbefore. exact N1.
  - rewrite Hbefore. exact N2.
  - split; assumption.
Qed.

(** A running instance with a record of retain-running, under an enforced
    schedule that wants it stopped. *)
Lemma retained_instance_left_alone_witness :
  NoDup (ids (_scheduled_instances_in_region (Scenario.driver (one_running "night") true)
                Scenario.host "us-east-1"))
  ∧ observed (one_running "night") 0
      ∈ _scheduled_instances_in_region (Scenario.driver (one_running "night") true)
          Scenario.host "us-east-1"
  ∧ record_of (new_scheduler (scope_table [("i-1", STATE_RETAIN_RUNNING)])) "i-1"
    = Some STATE_RETAIN_RUNNING
  ∧ ("i-1" ∉ ids (scheduler_start_list
                    (pass_over (one_running "night") (night true true)
                       [("i-1", STATE_RETAIN_RUNNING)])))
  ∧ ("i-1" ∉ ids (scheduler_stop_list
                    (pass_over (one_running "night") (night true true)
                       [("i-1", STATE_RETAIN_RUNNING)]))).
Proof.
  assert (NoDup (ids (_scheduled_instances_in_region
                        (Scenario.driver (one_running "night") true)
                        Scenario.host "us-east-1"))) as Hnd.
  { apply (bool_decide_unpack _). vm_compute. exact I. }
  assert (observed (one_running "night") 0
            ∈ _scheduled_instances_in_region (Scenario.driver (one_running "night") true)
                Scenario.host "us-east-1") as Hin.
  { vm_compute. apply list_elem_of_here. }
  assert (record_of (new_scheduler (scope_table [("i-1", STATE_RETAIN_RUNNING)])) "i-1"
          = Some STATE_RETAIN_RUNNING) as Hrec.
  { vm_compute. reflexivity. }
  split; [exact Hnd|]. split; [exact Hin|]. split; [exact Hrec|].
  exact (retained_instance_left_alone (Scenario.driver (one_running "night") true)
           (Scenario.sdk Scenario.sts_ok) (night true true) Scenario.host "us-east-1"
           (∅, ∅, ∅) (new_scheduler (scope_table [("i-1", STATE_RETAIN_RUNNING)]))
           (observed (one_running "night") 0) Hnd Hin Hrec).
Defined.

(** X5: a terminated instance (instance ids distinct in the region) is put in
    neither list by a pass over its region, whatever its schedule; and when
    the driver reports on the instances it is given only, the state table
    holds no record for it after the pass. *)
Theorem terminated_instance_forgotten (service : Service) (boto : Boto)
    (configuration : SchedulerConfig.t) (account : Account) (region : string)
    (out : Batches) (s : Scheduler) (instance : Instance) :
  let todo := _scheduled_instances_in_region service account region in
  NoDup (ids todo) ->
  instance ∈ todo ->
  is_terminated instance = true ->
  reports_given service account region ->
  let s1 := exec (process_region service boto configuration account region out) s in
  (inst_id instance ∉ ids (scheduler_start_list s1))
  ∧ (inst_id instance ∉ ids (scheduler_stop_list s1))
  ∧ recorded (instance_states s1) (acc_name account) region (inst_id instance) = None.
Proof.
  intros todo Hnd Hin Hterm Hgiven s1.
  destruct (region_outcome_unlisted service boto configuration account region out s
              instance Hnd Hin) as (H1 & H2 & H3).
  - rewrite decision_terminated by assumption. discriminate.
  - rewrite decision_terminated by assumption. discriminate.
  - split; [exact H1|]. split; [exact H2|]. subst s1.
    rewrite (H3 Hgiven), decision_terminated by assumption. reflexivity.
Qed.

(** A terminated instance that has a record. *)
Definition terminated_one : list Instance :=
  [ {| info :=
         {| inst_id := "i-1"; inst_name := None; current_state := "terminated";
            instancetype := "m5.large"; is_running := false; is_terminated := true;
            allow_resize := true; schedule_name := "office"; resized := false;
            inst_account := EmptyString; inst_region := EmptyString;
            inst_service := EmptyString; instance_str := EmptyString |};
       maintenance_window := None |} ].

Lemma terminated_instance_forgotten_witness :
  is_terminated (observed terminated_one 0) = true
  ∧ record_of (new_scheduler (scope_table [("i-1", STATE_RUNNING)])) "i-1"
    = Some STATE_RUNNING
  ∧ ("i-1" ∉ ids (scheduler_start_list
                    (pass_over terminated_one (office false) [("i-1", STATE_RUNNING)])))
  ∧ ("i-1" ∉ ids (scheduler_stop_list
                    (pass_over terminated_one (office false) [("i-1", STATE_RUNNING)])))
  ∧ record_of (pass_over terminated_one (office false) [("i-1", STATE_RUNNING)]) "i-1"
    = None.
Proof.
  split; [reflexivity|]. split; [vm_compute; reflexivity|].
  refine (terminated_instance_forgotten (Scenario.driver terminated_one true)
            (Scenario.sdk Scenario.sts_ok) (office false) Scenario.host "us-east-1"
            (∅, ∅, ∅) (new_scheduler (scope_table [("i-1", STATE_RUNNING)]))
            (observed terminated_one 0) _ _ _ _).
  - apply (bool_decide_unpack _). vm_compute. exact I.
  - vm_compute. apply list_elem_of_here.
  - reflexivity.
  - apply reports_outcome_given, scenario_driver_reports_outcome.
Defined.

(** X6: under a schedule that is not enforced, an instance whose record in
    the state table is the desired state of its schedule is left alone by a
    pass over its region, running or not: it is in neither list, and its
    record stays (instance ids distinct in the region; the driver reports on
    the instances it is given only).  A manual start or stop is honoured
    until the desired state changes. *)
Theorem manual_state_honoured (service : Service) (boto : Boto)
    (configuration : SchedulerConfig.t) (account : Account) (region : string)
    (out : Batches) (s : Scheduler) (instance : Instance) (sch : Schedule) :
  let todo := _scheduled_instances_in_region service account region in
  NoDup (ids todo) ->
  instance ∈ todo ->
  is_terminated instance = false ->
  SchedulerConfig.get_schedule configuration (schedule_name instance) = Some sch ->
  enforced sch = false ->
  let desired := (desired_state_and_type boto sch instance).1 in
  desired ≠ STATE_UNKNOWN ->
  recorded (instance_states s) (acc_name account) region (inst_id instance) = Some desired ->
  reports_given service account region ->
  let s1 := exec (process_region service boto configuration account region out) s in
  (inst_id instance ∉ ids (scheduler_start_list s1))
  ∧ (inst_id instance ∉ ids (scheduler_stop_list s1))
  ∧ recorded (instance_states s1) (acc_name account) region (inst_id instance)
    = Some desired.
Proof.
  intros todo Hnd Hin Hterm Hsch Henf desired Hknown Hbefore Hgiven s1.
  assert (decision boto configuration instance desired = Skip) as Hd.
  { eapply decision_honours; eauto. }
  destruct (region_outcome_unlisted service boto configuration account region out s
              instance Hnd Hin) as (H1 & H2 & H3).
  - rewrite Hbefore. cbn. rewrite Hd. discriminate.
  - rewrite Hbefore. cbn. rewrite Hd. discriminate.
  - split; [exact H1|]. split; [exact H2|]. subst s1.
    rewrite (H3 Hgiven), Hbefore. cbn. rewrite Hd. reflexivity.
Qed.

(** An instance started by hand in a stopped period: the schedule wants it
    stopped, the record says stopped, the instance is running. *)
Lemma manual_state_honoured_witness :
  is_running (observed (one_running "night") 0) = true
  ∧ record_of (new_scheduler (scope_table [("i-1", STATE_STOPPED)])) "i-1"
    = Some STATE_STOPPED
  ∧ ("i-1" ∉ ids (scheduler_start_list
                    (pass_over (one_running "night") (night false true)
                       [("i-1", STATE_STOPPED)])))
  ∧ ("i-1" ∉ ids (scheduler_stop_list
                    (pass_over (one_running "night") (night false true)
                       [("i-1", STATE_STOPPED)])))
  ∧ record_of (pass_over (one_running "night") (night false true)
                 [("i-1", STATE_STOPPED)]) "i-1"
    = Some STATE_STOPPED.
Proof.
  split; [reflexivity|]. split; [vm_compute; reflexivity|].
  refine (manual_state_honoured (Scenario.driver (one_running "night") true)
            (Scenario.sdk Scenario.sts_ok) (night false true) Scenario.host "us-east-1"
            (∅, ∅, ∅) (new_scheduler (scope_table [("i-1", STATE_STOPPED)]))
            (observed (one_running "night") 0)
            (Scenario.schedule "night" STATE_STOPPED None false false true)
            _ _ _ _ _ _ _ _).
  - apply (bool_decide_unpack _). vm_compute. exact I.
  - vm_compute. apply list_elem_of_here.
  - reflexivity.
  - vm_compute. reflexivity.
  - reflexivity.
  - vm_compute. discriminate.
  - vm_compute. reflexivity.
  - apply reports_outcome_given, scenario_driver_reports_outcome.
Defined.

(** X7: under an enforced schedule, an instance that has a record other than
    retain-running is in the start list of a pass over its region exactly
    when it is not running and the desired state is running, and in the stop
    list exactly when it is running and the desired state is stopped,
    whatever the record says (instance ids distinct in the region).  A
    desired state of stopped-for-resize does not stop it. *)
Theorem enforced_schedule_holds_state (service : Service) (boto : Boto)
    (configuration : SchedulerConfig.t) (account : Account) (region : string)
    (out : Batches) (s : Scheduler) (instance : Instance) (sch : Schedule) (v : State) :
  let todo := _scheduled_instances_in_region service account region in
  NoDup (ids todo) ->
  instance ∈ todo ->
  is_terminated instance = false ->
  SchedulerConfig.get_schedule configuration (schedule_name instance) = Some sch ->
  enforced sch = true ->
  recorded (instance_states s) (acc_name account) region (inst_id instance) = Some v ->
  v ≠ STATE_UNKNOWN ->
  v ≠ STATE_RETAIN_RUNNING ->
  let desired := (desired_state_and_type boto sch instance).1 in
  let s1 := exec (process_region service boto configuration account region out) s in
  (inst_id instance ∈ ids (scheduler_start_list s1)
   <-> is_running instance = false ∧ desired = STATE_RUNNING)
  ∧ (inst_id instance ∈ ids (scheduler_stop_list s1)
     <-> is_running instance = true ∧ desired = STATE_STOPPED).
Proof.
  intros todo Hnd Hin Hterm Hsch Henf Hbefore Hv1 Hv2 desired s1.
  destruct (region_outcome service boto configuration account region out s instance Hnd Hin)
    as (H1 & H2 & _).
  fold s1 in H1, H2. rewrite Hbefore in H1, H2. cbn in H1, H2.
  rewrite (decision_enforced boto configuration instance sch v) in H1, H2 by assumption.
  fold desired in H1, H2.
  rewrite H1, H2. clear H1 H2.
  destruct (is_running instance); cbn; repeat case_bool_decide;
    split; split; intros Hx; try discriminate; try (destruct Hx; congruence); auto.
Qed.

(** A running instance under an enforced schedule that wants it stopped, with
    a record of running: it is stopped. *)
Lemma enforced_schedule_holds_state_witness :
  record_of (new_scheduler (scope_table [("i-1", STATE_RUNNING)])) "i-1" = Some STATE_RUNNING
  ∧ ("i-1" ∈ ids (scheduler_start_list
                    (pass_over (one_running "night") (night true true)
                       [("i-1", STATE_RUNNING)]))
     <-> is_running (observed (one_running "night") 0) = false
         ∧ (desired_state_and_type (Scenario.sdk Scenario.sts_ok)
              (Scenario.schedule "night" STATE_STOPPED None true false true)
              (observed (one_running "night") 0)).1 = STATE_RUNNING)
  ∧ ("i-1" ∈ ids (scheduler_stop_list
                    (pass_over (one_running "night") (night true true)
                       [("i-1", STATE_RUNNING)]))
     <-> is_running (observed (one_running "night") 0) = true
         ∧ (desired_state_and_type (Scenario.sdk Scenario.sts_ok)
              (Scenario.schedule "night" STATE_STOPPED None true false true)
              (observed (one_running "night") 0)).1 = STATE_STOPPED).
Proof.
  split; [vm_compute; reflexivity|].
  refine (enforced_schedule_holds_state (Scenario.driver (one_running "night") true)
            (Scenario.sdk Scenario.sts_ok) (night true true) Scenario.host "us-east-1"
            (∅, ∅, ∅) (new_scheduler (scope_table [("i-1", STATE_RUNNING)]))
            (observed (one_running "night") 0)
            (Scenario.schedule "night" STATE_STOPPED None true false true)
            STATE_RUNNING _ _ _ _ _ _ _ _).
  - apply (bool_decide_unpack _). vm_compute. exact I.
  - vm_compute. apply list_elem_of_here.
  - reflexivity.
  - vm_compute. reflexivity.
  - reflexivity.
  - vm_compute. reflexivity.
  - discriminate.
  - discriminate.
Defined.

(** X8: a running instance that has no record yet and whose schedule wants it
    stopped is put in the stop list in that very pass when the schedule has
    [stop_new_instances] set (instance ids distinct in the region). *)
Theorem new_running_instance_stopped_at_once (service : Service) (boto : Boto)
    (configuration : SchedulerConfig.t) (account : Account) (region : string)
    (out : Batches) (s : Scheduler) (instance : Instance) (sch : Schedule) :
  let todo := _scheduled_instances_in_region service account region in
  NoDup (ids todo) ->
  instance ∈ todo ->
  is_terminated instance = false ->
  SchedulerConfig.get_schedule configuration (schedule_name instance) = Some sch ->
  stop_new_instances sch = true ->
  is_running instance = true ->
  (desired_state_and_type boto sch instance).1 = STATE_STOPPED ->
  recorded (instance_states s) (acc_name account) region (inst_id instance) = None ->
  let s1 := exec (process_region service boto configuration account region out) s in
  inst_id instance ∈ ids (scheduler_stop_list s1)
  ∧ (inst_id instance ∉ ids (scheduler_start_list s1)).
Proof.
  intros todo Hnd Hin Hterm Hsch Hnew Hrun Hdes Hbefore s1.
  destruct (region_outcome service boto configuration account region out s instance Hnd Hin)
    as (H1 & H2 & _).
  fold s1 in H1, H2. rewrite Hbefore in H1, H2. cbn in H1, H2.
  rewrite (decision_new_running boto configuration instance sch) in H1, H2 by assumption.
  rewrite Hnew in H1, H2.
  split; [apply H2; reflexivity|].
  intros H. apply H1 in H. discriminate.
Qed.

Lemma new_running_instance_stopped_at_once_witness :
  record_of (new_scheduler (scope_table [])) "i-1" = None
  ∧ "i-1" ∈ ids (scheduler_stop_list (pass_over (one_running "night") (night false true) []))
  ∧ ("i-1" ∉ ids (scheduler_start_list
                    (pass_over (one_running "night") (night false true) []))).
Proof.
  split; [vm_compute; reflexivity|].
  refine (new_running_instance_stopped_at_once (Scenario.driver (one_running "night") true)
            (Scenario.sdk Scenario.sts_ok) (night false true) Scenario.host "us-east-1"
            (∅, ∅, ∅) (new_scheduler (scope_table []))
            (observed (one_running "night") 0)
            (Scenario.schedule "night" STATE_STOPPED None false false true)
            _ _ _ _ _ _ _ _).
  - apply (bool_decide_unpack _). vm_compute. exact I.
  - vm_compute. apply list_elem_of_here.
  - reflexivity.
  - vm_compute. reflexivity.
  - reflexivity.
  - reflexivity.
  - vm_compute. reflexivity.
  - vm_compute. reflexivity.
Defined.

(** ** What is logged for an instance *)

(** A computation that leaves a given record in the log, from any state. *)
Definition logs {A} (entry : LogRecord) (m : M A) : Prop :=
  forall s, entry ∈ logger (m s).2.

Lemma logs_bind_l {A B} entry (m : M A) (k : A -> M B) :
  logs entry m -> (forall a, log_grows (k a)) -> logs entry (m ≫= k).
Proof.
  intros Hm Hk s. unfold mbind, M_bind, bind.
  specialize (Hm s). destruct (m s) as [a s1]. cbn in Hm.
  eapply elem_of_prefix; [exact Hm|apply Hk].
Qed.

Lemma logs_bind_r {A B} entry (m : M A) (k : A -> M B) :
  (forall a, logs entry (k a)) -> logs entry (m ≫= k).
Proof.
  intros Hk s. unfold mbind, M_bind, bind.
  destruct (m s) as [a s1]. apply Hk.
Qed.

Lemma logs_log lvl msg args :
  logs {| log_level := lvl; log_msg := msg; log_args := args |} (log lvl msg args).
Proof. intros s. cbn. apply elem_of_app. right. apply list_elem_of_here. Qed.

Section Logged.

Variable service : Service.
Variable boto : Boto.
Variable configuration : SchedulerConfig.t.
Variable account : Account.
Variable region : string.

(** What the loop body logs for an instance stays in the log of the pass. *)
Lemma logs_instances_loop entry (instance : Instance) todo :
  logs entry (process_instance service boto configuration account region instance) ->
  instance ∈ todo ->
  forall loaded instances,
    logs entry (instances_loop service boto configuration account region todo loaded
                  instances).
Proof.
  intros Hentry. induction todo as [|a todo IH]; intros Hin loaded instances;
    [inversion Hin|].
  cbn [instances_loop]. apply logs_bind_r. intros _.
  apply elem_of_cons in Hin as [->|Hin].
  - apply logs_bind_l; [exact Hentry|]. intros _. apply log_grows_instances_loop.
  - apply logs_bind_r. intros _. apply IH. exact Hin.
Qed.

Lemma logs_process_region entry (instance : Instance) out :
  logs entry (process_instance service boto configuration account region instance) ->
  instance ∈ _scheduled_instances_in_region service account region ->
  logs entry (process_region service boto configuration account region out).
Proof.
  intros Hentry Hin. unfold process_region. destruct out as [[o1 o2] o3].
  do 3 (apply logs_bind_r; intros _).
  apply logs_bind_l; [exact (logs_instances_loop entry instance _ Hentry Hin _ _)|].
  intros instances. unfold _start_and_stop_instances.
  repeat log_grows_step.
Qed.

End Logged.

(** The warning for an instance of an unknown schedule. *)
Definition unknown_schedule_warning (region : string) (instance : Instance) : LogRecord :=
  {| log_level := WARNING;
     log_msg := WARN_SKIPPING_UNKNOWN_SCHEDULE;
     log_args := [instance_str instance; region; inst_account instance;
                  schedule_name instance] |}.

(** X9: an instance that is not terminated and names a schedule the
    configuration does not have is skipped by a pass over its region with a
    warning that names the instance, the region, the account and the
    schedule; it is put in neither list, and the record it had, if any, is
    kept (instance ids distinct in the region; the driver reports on the
    instances it is given only). *)
Theorem unknown_schedule_skipped (service : Service) (boto : Boto)
    (configuration : SchedulerConfig.t) (account : Account) (region : string)
    (out : Batches) (s : Scheduler) (instance : Instance) :
  let todo := _scheduled_instances_in_region service account region in
  NoDup (ids todo) ->
  instance ∈ todo ->
  is_terminated instance = false ->
  SchedulerConfig.get_schedule configuration (schedule_name instance) = None ->
  reports_given service account region ->
  let s1 := exec (process_region service boto configuration account region out) s in
  unknown_schedule_warning region instance ∈ logger s1
  ∧ (inst_id instance ∉ ids (scheduler_start_list s1))
  ∧ (inst_id instance ∉ ids (scheduler_stop_list s1))
  ∧ recorded (instance_states s1) (acc_name account) region (inst_id instance)
    = recorded (instance_states s) (acc_name account) region (inst_id instance).
Proof.
  intros todo Hnd Hin Hterm Hsch Hgiven s1.
  split.
  - subst s1. unfold exec.
    apply (logs_process_region service boto configuration account region _ instance out);
      [|exact Hin].
    unfold process_instance. rewrite Hterm, Hsch. apply logs_log.
  - destruct (region_outcome_unlisted service boto configuration account region out s
                instance Hnd Hin) as (H1 & H2 & H3).
    + rewrite decision_unknown_schedule by assumption. discriminate.
    + rewrite decision_unknown_schedule by assumption. discriminate.
    + split; [exact H1|]. split; [exact H2|]. subst s1.
      rewrite (H3 Hgiven), decision_unknown_schedule by assumption. reflexivity.
Qed.

(** A running instance tagged with a schedule that does not exist. *)
Lemma unknown_schedule_skipped_witness :
  SchedulerConfig.get_schedule (office false)
    (schedule_name (observed (one_running "weekend") 0)) = None
  ∧ unknown_schedule_warning "us-east-1" (observed (one_running "weekend") 0)
      ∈ logger (pass_over (one_running "weekend") (office false) [("i-1", STATE_STOPPED)])
  ∧ ("i-1" ∉ ids (scheduler_start_list
                    (pass_over (one_running "weekend") (office false)
                       [("i-1", STATE_STOPPED)])))
  ∧ ("i-1" ∉ ids (scheduler_stop_list
                    (pass_over (one_running "weekend") (office false)
                       [("i-1", STATE_STOPPED)])))
  ∧ record_of (pass_over (one_running "weekend") (office false) [("i-1", STATE_STOPPED)])
      "i-1"
    = record_of (new_scheduler (scope_table [("i-1", STATE_STOPPED)])) "i-1".
Proof.
  split; [vm_compute; reflexivity|].
  refine (unknown_schedule_skipped (Scenario.driver (one_running "weekend") true)
            (Scenario.sdk Scenario.sts_ok) (office false) Scenario.host "us-east-1"
            (∅, ∅, ∅) (new_scheduler (scope_table [("i-1", STATE_STOPPED)]))
            (observed (one_running "weekend") 0) _ _ _ _ _).
  - apply (bool_decide_unpack _). vm_compute. exact I.
  - vm_compute. apply list_elem_of_here.
  - reflexivity.
  - vm_compute. reflexivity.
  - apply reports_outcome_given, scenario_driver_reports_outcome.
Defined.

(** ** The accounts of a run *)

Section Accounts.

Variable service : Service.
Variable boto : Boto.
Variable function_name : string.
Variable configuration : SchedulerConfig.t.
Variable lambda_account : string.

(** The hosting account, as the generator yields it. *)
Definition hosting_account : Account :=
  {| session := DefaultSession; acc_name := lambda_account; role := None |}.

(** The account the generator yields for a remote account id, if any: none
    for the hosting account already yielded, none when the role cannot be
    assumed. *)
Definition remote_account (id : string) : option Account :=
  if bool_decide (id ∈ accounts_done configuration lambda_account) then None
  else
    match sts_answer service boto configuration id with
    | Token access_key_id secret_access_key session_token =>
        Some {| session := RoleSession access_key_id secret_access_key session_token;
                acc_name := id;
                role := Some (role_arn configuration id) |}
    | ClientError _ _ => None
    end.

Lemma remote_account_step_eval id s :
  (remote_account_step service boto function_name configuration lambda_account id s).1
  = remote_account id.
Proof.
  unfold remote_account_step, remote_account, get_session_for_account,
    remove_account_from_config, sts_answer.
  destruct (bool_decide (id ∈ accounts_done configuration lambda_account));
    [reflexivity|].
  msimpl. destruct (assume_role boto _ _) as [k sk t|code ex]; msimpl; [reflexivity|].
  destruct (bool_decide (code = Some "AccessDenied")); msimpl; [|reflexivity].
  destruct (lambda_invoke boto function_name _); reflexivity.
Qed.

Lemma yields_remote ids :
  yields (map (remote_account_step service boto function_name configuration
                 lambda_account) ids)
  = omap remote_account ids.
Proof.
  induction ids as [|id ids IH]; [reflexivity|].
  cbn [map]. rewrite yields_cons, remote_account_step_eval, IH. reflexivity.
Qed.

Lemma yields_accounts :
  yields (_accounts service boto function_name configuration lambda_account)
  = (if SchedulerConfig.schedule_lambda_account configuration
     then [hosting_account] else [])
    ++ omap remote_account (SchedulerConfig.remote_account_ids configuration).
Proof.
  unfold _accounts.
  destruct (SchedulerConfig.schedule_lambda_account configuration); cbn [app].
  - rewrite yields_cons. cbn. rewrite yields_remote. reflexivity.
  - apply yields_remote.
Qed.

Lemma remote_account_name id a : remote_account id = Some a -> acc_name a = id.
Proof.
  unfold remote_account. case_bool_decide; [discriminate|].
  destruct (sts_answer service boto configuration id); [|discriminate].
  intros [= <-]. reflexivity.
Qed.

Lemma remote_accounts_names ids :
  map acc_name (omap remote_account ids) `sublist_of` ids.
Proof.
  induction ids as [|id ids IH]; cbn; [constructor|].
  destruct (remote_account id) as [a|] eqn:E; cbn.
  - rewrite (remote_account_name _ _ E). apply sublist_skip. exact IH.
  - apply sublist_cons. exact IH.
Qed.

(** The keys of the result of the loop over the accounts. *)
Lemma accounts_loop_keys gen : forall response s name,
  Forall quiet gen ->
  is_Some ((accounts_loop service boto configuration gen response s).1 !! name)
  <-> is_Some (response !! name) ∨ name ∈ map acc_name (yields gen).
Proof.
  induction gen as [|step gen IH]; intros response s name Hq.
  { cbn. split; [auto|]. intros [H|H]; [exact H|inversion H]. }
  apply Forall_cons in Hq as [Hstep Hq].
  rewrite yields_cons. cbn [accounts_loop]. unfold mbind, M_bind, bind.
  destruct (Hstep s) as [Hv _]. destruct (step s) as [y s1]. cbn [fst] in Hv.
  rewrite <- Hv. destruct y as [a|].
  - destruct (_process_account service boto configuration a s1) as [r s2].
    rewrite IH by assumption. cbn [map]. rewrite elem_of_cons.
    destruct (decide (name = acc_name a)) as [->|Hne].
    + rewrite lookup_insert_eq. split; [auto|]. intros _. left. eexists. reflexivity.
    + rewrite lookup_insert_ne by congruence. tauto.
  - apply IH. assumption.
Qed.

(** The calls on the Lambda client made by the loop over the accounts. *)
Lemma accounts_loop_invocations s :
  lambda_invocations
    (accounts_loop service boto configuration
       (_accounts service boto function_name configuration lambda_account) ∅ s).2
  = lambda_invocations s
    ++ map (fun a => (function_name, deconfigure_notice a))
         (filter (fun a => denied service boto configuration lambda_account a)
            (SchedulerConfig.remote_account_ids configuration)).
Proof.
  unfold _accounts.
  destruct (SchedulerConfig.schedule_lambda_account configuration); cbn [app].
  - cbn [accounts_loop]. unfold mbind, M_bind, bind, mret, M_ret, ret.
    pose proof (process_account_invocations service boto configuration
                  {| session := DefaultSession; acc_name := lambda_account; role := None |}
                  s) as Hp.
    destruct (_process_account service boto configuration _ s) as [r s1].
    cbn [snd] in Hp. rewrite <- Hp.
    apply (accounts_loop_remote service boto function_name configuration lambda_account).
  - apply (accounts_loop_remote service boto function_name configuration lambda_account).
Qed.

End Accounts.

(** X10: the accounts the generator [_accounts] yields do not depend on the
    state of the scheduler.  They are, in this order: the hosting account
    with the default session and no role, when it is scheduled; then, for
    every id of [remote_account_ids] that is not the hosting account just
    yielded and whose role STS lets the engine assume, an account of that
    name with the session of the token and the role
    [arn:<partition>:iam::<id>:role/<namespace>-<role name>]. *)
Theorem accounts_yielded (service : Service) (boto : Boto) (function_name : string)
    (configuration : SchedulerConfig.t) (lambda_account : string) (s : Scheduler) :
  (yielded (_accounts service boto function_name configuration lambda_account) s).1
  = (if SchedulerConfig.schedule_lambda_account configuration
     then [hosting_account lambda_account] else [])
    ++ omap (remote_account service boto configuration lambda_account)
         (SchedulerConfig.remote_account_ids configuration).
Proof.
  rewrite (yielded_yields _ _ (accounts_quiet service boto function_name configuration
                                 lambda_account)).
  apply yields_accounts.
Qed.

(** X11: when the hosting account is scheduled, it is yielded once, first,
    however often its id occurs among the remote account ids: every other
    account yielded has another name. *)
Theorem hosting_account_yielded_once (service : Service) (boto : Boto)
    (function_name : string) (configuration : SchedulerConfig.t) (lambda_account : string)
    (s : Scheduler) :
  SchedulerConfig.schedule_lambda_account configuration = true ->
  exists rest,
    (yielded (_accounts service boto function_name configuration lambda_account) s).1
    = hosting_account lambda_account :: rest
    ∧ lambda_account ∉ map acc_name rest.
Proof.
  intros Hsla.
  rewrite (yielded_yields _ _ (accounts_quiet service boto function_name configuration
                                 lambda_account)).
  rewrite yields_accounts, Hsla. cbn [app]. eexists. split; [reflexivity|].
  intros Hin. apply list_elem_of_In, in_map_iff in Hin as (a & Hname & Ha).
  apply list_elem_of_In, list_elem_of_omap in Ha as (id & _ & Hid).
  pose proof (remote_account_name _ _ _ _ _ _ Hid) as E.
  unfold remote_account in Hid. unfold accounts_done in Hid. rewrite Hsla in Hid.
  case_bool_decide as Hdone; [discriminate|].
  apply Hdone. rewrite <- E, Hname. apply list_elem_of_here.
Qed.

(** The hosting account, scheduled, is also named twice among the remote
    account ids. *)
Definition hosting_repeated : SchedulerConfig.t :=
  Scenario.config true ["111122223333"; "444455556666"; "111122223333"] [].

Lemma hosting_account_yielded_once_witness :
  exists rest,
    (yielded (_accounts (Scenario.driver [] true) (Scenario.sdk Scenario.sts_ok)
                "scheduler" hosting_repeated "111122223333") (new_scheduler ∅)).1
    = hosting_account "111122223333" :: rest
    ∧ "111122223333" ∉ map acc_name rest.
Proof.
  apply (hosting_account_yielded_once (Scenario.driver [] true)
           (Scenario.sdk Scenario.sts_ok) "scheduler" hosting_repeated "111122223333"
           (new_scheduler ∅)).
  reflexivity.
Defined.

(** X12: the result of [run] has an entry for exactly the accounts the
    generator yields: a name is a key of the result if and only if it is the
    name of an account yielded. *)
Theorem run_reports_yielded_accounts (service : Service) (boto : Boto)
    (function_name : string) (configuration : SchedulerConfig.t) (lambda_account : string)
    (s : Scheduler) (name : string) :
  is_Some ((run service boto function_name configuration lambda_account s).1 !! name)
  <-> name ∈ map acc_name
               (yielded (_accounts service boto function_name configuration lambda_account)
                  s).1.
Proof.
  rewrite (yielded_yields _ _ (accounts_quiet service boto function_name configuration
                                 lambda_account)).
  unfold run. unfold mbind, M_bind, bind. cbn [modify_states].
  rewrite accounts_loop_keys by apply accounts_quiet.
  rewrite lookup_empty. split; [|auto].
  intros [[x Hx]|H]; [discriminate|exact H].
Qed.

(** X13: in a run the Lambda client is invoked once for every entry of
    [remote_account_ids] whose role assumption STS refuses with AccessDenied
    (the hosting account, when scheduled, is never asked about), in the order
    of the configuration, each time on the hosting function with the
    deconfigure notice of that account; and it is invoked for nothing else. *)
Theorem deconfigure_invocations_exact (service : Service) (boto : Boto)
    (function_name : string) (configuration : SchedulerConfig.t) (lambda_account : string)
    (s : Scheduler) :
  lambda_invocations (run service boto function_name configuration lambda_account s).2
  = lambda_invocations s
    ++ map (fun a => (function_name, deconfigure_notice a))
         (filter (fun a => denied service boto configuration lambda_account a)
            (SchedulerConfig.remote_account_ids configuration)).
Proof.
  unfold run. unfold mbind, M_bind, bind. cbn [modify_states].
  rewrite accounts_loop_invocations. reflexivity.
Qed.

(** ** The result for an account *)

Section AccountResults.

Variable service : Service.
Variable boto : Boto.
Variable configuration : SchedulerConfig.t.
Variable account : Account.

(** The three dictionaries of [_process_account] list regions of [regions]
    only, and no region with an empty list. *)
Definition within (regions : list string) (out : Batches) : Prop :=
  forall r,
    (forall l, out.1.1 !! r = Some l -> r ∈ regions ∧ l ≠ [])
    ∧ (forall l, out.1.2 !! r = Some l -> r ∈ regions ∧ l ≠ [])
    ∧ (forall l, out.2 !! r = Some l -> r ∈ regions ∧ l ≠ []).

Lemma map_nonempty {A B} (f : A -> B) (l : list A) : nonempty l = true -> map f l ≠ [].
Proof. destruct l; [discriminate|discriminate]. Qed.

Lemma process_region_within region done out s :
  within done out ->
  within (done ++ [region])
    (process_region service boto configuration account region out s).1.
Proof.
  intros Hout r.
  destruct (process_region_returns service boto configuration account region out s)
    as [Hhere Hother].
  destruct (process_region service boto configuration account region out s) as [out1 s1].
  cbn [fst snd] in *.
  destruct (decide (r = region)) as [->|Hne].
  - unfold batch_at, or_else, pass_entries in Hhere. cbn in Hhere.
    injection Hhere as H1 H2 H3. rewrite H1, H2, H3. clear H1 H2 H3.
    destruct (Hout region) as (O1 & O2 & O3).
    repeat split;
      try (apply elem_of_app; right; apply list_elem_of_here);
      match goal with
      | H : match (if nonempty ?x then _ else _) with _ => _ end = Some _ |- _ =>
          destruct (nonempty x) eqn:E; cbn in H;
          [injection H as <-; apply map_nonempty; exact E|]
      end;
      first [ apply (O1 _ H) | apply (O2 _ H) | apply (O3 _ H) ].
  - specialize (Hother r Hne). unfold batch_at in Hother. injection Hother as H1 H2 H3.
    rewrite H1, H2, H3. destruct (Hout r) as (O1 & O2 & O3).
    repeat split; intros;
      try (apply elem_of_app; left);
      first [ eapply O1; eassumption | eapply O2; eassumption | eapply O3; eassumption ].
Qed.

Lemma regions_loop_within regions : forall done out s,
  within done out ->
  within (done ++ regions)
    (regions_loop service boto configuration account regions out s).1.
Proof.
  induction regions as [|r regions IH]; intros done out s Hout.
  { rewrite app_nil_r. exact Hout. }
  cbn [regions_loop]. unfold mbind, M_bind, bind.
  pose proof (process_region_within r done out s Hout) as H1.
  destruct (process_region service boto configuration account r out s) as [out1 s1].
  cbn [fst] in H1.
  replace (done ++ r :: regions) with ((done ++ [r]) ++ regions)
    by (rewrite <- app_assoc; reflexivity).
  apply IH. exact H1.
Qed.

End AccountResults.

(** X14: in the result [_process_account] returns for an account, every
    region listed under [started], [stopped] or [resized] is one of the
    regions of the run ([_regions]) and lists at least one instance; and the
    result has a [resized] entry exactly when the service allows resizing. *)
Theorem account_result_regions (service : Service) (boto : Boto)
    (configuration : SchedulerConfig.t) (account : Account) (s : Scheduler) :
  let result := (_process_account service boto configuration account s).1 in
  (forall r l, started result !! r = Some l -> r ∈ _regions boto configuration ∧ l ≠ [])
  ∧ (forall r l, stopped result !! r = Some l -> r ∈ _regions boto configuration ∧ l ≠ [])
  ∧ (forall m r l,
       res_resized result = Some m -> m !! r = Some l ->
       r ∈ _regions boto configuration ∧ l ≠ [])
  ∧ (is_Some (res_resized result) <-> svc_allow_resize service = true).
Proof.
  unfold _process_account. msimpl.
  match goal with
  | |- context [regions_loop _ _ _ _ ?rs ?out ?st] =>
      pose proof (regions_loop_within service boto configuration account rs [] out st) as H;
      destruct (regions_loop service boto configuration account rs out st)
        as [[[o1 o2] o3] s1]
  end.
  cbn in *.
  assert (within (_regions boto configuration) (o1, o2, o3)) as Hw.
  { apply H. intros r. cbn. rewrite !lookup_empty. repeat split; discriminate. }
  clear H.
  split; [|split; [|split]].
  - intros r l Hl. destruct (Hw r) as (W1 & _ & _). apply W1. exact Hl.
  - intros r l Hl. destruct (Hw r) as (_ & W2 & _). apply W2. exact Hl.
  - intros m r l Hm Hl. destruct (svc_allow_resize service); [|discriminate].
    injection Hm as <-. destruct (Hw r) as (_ & _ & W3). apply W3. exact Hl.
  - destruct (svc_allow_resize service); split; intros Hx; try reflexivity.
    + eexists. reflexivity.
    + destruct Hx. discriminate.
    + discriminate.
Qed.

(** ** The state table after a pass *)

(** X15: after a pass over a region for which the driver yields at least one
    instance, the state table holds, for that account and region, records of
    instances the driver yielded in this pass only: the records of instances
    that are no longer observed are dropped. *)
Theorem stale_records_dropped (service : Service) (boto : Boto)
    (configuration : SchedulerConfig.t) (account : Account) (region : string)
    (out : Batches) (s : Scheduler) (x : string) (v : State) :
  let todo := _scheduled_instances_in_region service account region in
  todo ≠ [] ->
  let s1 := exec (process_region service boto configuration account region out) s in
  recorded (instance_states s1) (acc_name account) region x = Some v ->
  x ∈ ids todo.
Proof.
  intros todo Htodo s1. subst s1.
  destruct (process_region_spec service boto configuration account region out s)
    as (-> & _).
  fold todo. unfold recorded, region_store.
  set (st0 := loaded_store account region todo (instance_states s)).
  set (c := commit_store _ _ _ _ _ _).
  assert (InstanceStates.account_region c = Some (acc_name account, region)) as Hscope.
  { subst c. destruct (commit_store_frame service account region
                         (loop_starts boto configuration todo st0)
                         (loop_stops boto configuration todo st0)
                         (loop_store boto configuration todo st0)) as [-> _].
    destruct (loop_store_frame boto configuration todo st0) as [-> _].
    subst st0. destruct todo; [contradiction|reflexivity]. }
  unfold InstanceStates.save, InstanceStates.cleanup. cbn. rewrite Hscope. cbn.
  rewrite lookup_insert_eq. cbn.
  intros Hx. apply map_lookup_filter_Some in Hx as [_ Hx]. cbn in Hx.
  apply bool_decide_unpack in Hx. exact Hx.
Qed.

(** The table holds a record for i-9, which is gone; the driver yields i-1. *)
Lemma stale_records_dropped_witness :
  _scheduled_instances_in_region (Scenario.driver (one_running "office") true)
    Scenario.host "us-east-1" ≠ []
  ∧ record_of (new_scheduler (scope_table [("i-9", STATE_RUNNING); ("i-1", STATE_RUNNING)]))
      "i-9" = Some STATE_RUNNING
  ∧ record_of (pass_over (one_running "office") (office false)
                 [("i-9", STATE_RUNNING); ("i-1", STATE_RUNNING)]) "i-1"
    = Some STATE_RUNNING
  ∧ "i-1" ∈ ids (_scheduled_instances_in_region (Scenario.driver (one_running "office") true)
                   Scenario.host "us-east-1").
Proof.
  assert (record_of (pass_over (one_running "office") (office false)
                       [("i-9", STATE_RUNNING); ("i-1", STATE_RUNNING)]) "i-1"
          = Some STATE_RUNNING) as H by (vm_compute; reflexivity).
  split; [vm_compute; discriminate|]. split; [vm_compute; reflexivity|].
  split; [exact H|].
  refine (stale_records_dropped (Scenario.driver (one_running "office") true)
            (Scenario.sdk Scenario.sts_ok) (office false) Scenario.host "us-east-1"
            (∅, ∅, ∅)
            (new_scheduler (scope_table [("i-9", STATE_RUNNING); ("i-1", STATE_RUNNING)]))
            "i-1" STATE_RUNNING _ H).
  vm_compute. discriminate.
Defined.

Example stale_record_gone :
  record_of (pass_over (one_running "office") (office false)
               [("i-9", STATE_RUNNING); ("i-1", STATE_RUNNING)]) "i-9" = None.
Proof. vm_compute. reflexivity. Qed.

(** ** The desired state and the maintenance window *)

(** X16: the desired state [get_desired_state_and_type] answers is running
    exactly when the schedule says running, or the schedule uses maintenance
    windows and the window of the instance says running: a maintenance window
    adds running time and takes none away. *)
Theorem running_iff_schedule_or_window (boto : Boto) (schedule : Schedule)
    (instance : Instance) (s : Scheduler) :
  (eval (get_desired_state_and_type boto schedule instance) s).1 = STATE_RUNNING
  <-> (get_desired_state schedule instance (utcnow boto)).1.1 = STATE_RUNNING
      ∨ (use_maintenance_window schedule = true
         ∧ exists window,
             maintenance_window instance = Some window
             ∧ (mw_get_desired_state window instance (utcnow boto)).1.1 = STATE_RUNNING).
Proof.
  unfold eval, get_desired_state_and_type.
  destruct (maintenance_window instance) as [w|].
  - destruct (use_maintenance_window schedule); msimpl.
    + destruct (mw_get_desired_state w instance (utcnow boto)) as [[ws wt] wp] eqn:Ew.
      destruct (get_desired_state schedule instance (utcnow boto)) as [[ss st'] sp] eqn:Es.
      cbn. case_bool_decide as Hw; cbn.
      * split; [|intros _; exact Hw]. intros _. right. split; [reflexivity|].
        exists w. rewrite Ew. auto.
      * split; [auto|]. intros [H|(_ & w' & [= <-] & H)]; [exact H|].
        rewrite Ew in H. contradiction.
    + destruct (get_desired_state schedule instance (utcnow boto)) as [[ss st'] sp].
      cbn. split; [auto|]. intros [H|(H & _)]; [exact H|discriminate].
  - destruct (get_desired_state schedule instance (utcnow boto)) as [[ss st'] sp].
    cbn. split; [auto|]. intros [H|(_ & w' & H & _)]; [exact H|discriminate].
Qed.

(** ** What the driver reports *)

Lemma record_results_last results : forall st x v,
  NoDup (map fst results) ->
  (x, v) ∈ results ->
  InstanceStates.state_info (record_results results st) !! x = Some v.
Proof.
  induction results as [|[y w] results IH]; intros st x v Hnd Hin; [inversion Hin|].
  cbn [map fst] in Hnd. apply NoDup_cons in Hnd as [Hy Hnd].
  rewrite record_results_cons.
  apply elem_of_cons in Hin as [[= -> ->]|Hin]; [|apply IH; assumption].
  destruct (record_results_lookup results (InstanceStates.set_instance_state y w st) y)
    as [H|(w' & Hin & _)].
  - rewrite H. cbn. apply lookup_insert_eq.
  - exfalso. apply Hy. apply list_elem_of_In, in_map_iff. exists (y, w').
    split; [reflexivity|]. apply list_elem_of_In. exact Hin.
Qed.

Lemma record_results_unreported results st x :
  x ∉ map fst results ->
  InstanceStates.state_info (record_results results st) !! x
  = InstanceStates.state_info st !! x.
Proof.
  intros Hx. destruct (record_results_lookup results st x) as [H|(w & Hin & _)];
    [exact H|].
  exfalso. apply Hx. apply list_elem_of_In, in_map_iff. exists (x, w).
  split; [reflexivity|]. apply list_elem_of_In. exact Hin.
Qed.

(** X17: [_start_and_stop_instances] records what the driver reports, not
    what the schedule wanted.  When the stop list is not empty, the state the
    driver's [stop_instances] reports for an instance id (it reports no id
    twice) is the state the store holds for that id afterwards; and so is the
    state its [start_instances] reports, when the start list is not empty and
    the stop call reports nothing for that id. *)
Theorem reported_state_recorded (service : Service) (account : Account) (region : string)
    (s : Scheduler) (x : string) (v : State) :
  let started := start_instances service (acc_name account) region (scheduler_start_list s) in
  let stopped := stop_instances service (acc_name account) region (scheduler_stop_list s) in
  let s' := exec (_start_and_stop_instances service account region) s in
  (scheduler_stop_list s ≠ [] -> NoDup (map fst stopped) -> (x, v) ∈ stopped ->
   InstanceStates.get_instance_state x (instance_states s') = v)
  ∧ (scheduler_start_list s ≠ [] -> NoDup (map fst started) -> (x, v) ∈ started ->
     scheduler_stop_list s = [] ∨ x ∉ map fst stopped ->
     InstanceStates.get_instance_state x (instance_states s') = v).
Proof.
  intros started stopped s'.
  destruct (start_and_stop_spec service account region s) as (Hst & _).
  fold s' in Hst. rewrite Hst. unfold commit_store, InstanceStates.get_instance_state.
  fold started stopped.
  split.
  - intros Hne Hnd Hin.
    destruct (scheduler_stop_list s) as [|j stops] eqn:E; [contradiction|].
    cbn [nonempty length Nat.ltb Nat.leb].
    replace (nonempty (j :: stops)) with true by reflexivity.
    rewrite (record_results_last _ _ _ _ Hnd Hin). reflexivity.
  - intros Hne Hnd Hin Hstop.
    destruct (scheduler_start_list s) as [|i starts] eqn:E; [contradiction|].
    replace (nonempty (i :: starts)) with true by reflexivity.
    assert (InstanceStates.state_info
              (record_results started (instance_states s)) !! x = Some v) as Hstart.
    { apply record_results_last; assumption. }
    destruct (nonempty (scheduler_stop_list s)) eqn:En.
    + destruct Hstop as [Hstop|Hstop]; [rewrite Hstop in En; discriminate|].
      rewrite record_results_unreported by assumption.
      rewrite Hstart. reflexivity.
    + rewrite Hstart. reflexivity.
Qed.

(** A driver that fails to start what it is given: it reports every instance
    as stopped. *)
Definition failing_driver : Service :=
  {| service_name := "ec2";
     svc_allow_resize := true;
     get_schedulable_instances := fun _ _ _ _ => [];
     start_instances := fun _ _ l => map (fun i : Instance => (inst_id i, STATE_STOPPED)) l;
     stop_instances := fun _ _ l => map (fun i : Instance => (inst_id i, STATE_STOPPED)) l;
     resize_instance := fun _ _ _ _ => Returned tt |}.

Definition one_to_start : Scheduler :=
  {| instance_states := InstanceStates.new ∅;
     scheduler_start_list := one_stopped "office";
     scheduler_stop_list := [];
     schedule_resize_list := [];
     logger := [];
     lambda_invocations := [] |}.

Lemma reported_state_recorded_witness :
  InstanceStates.get_instance_state "i-1"
    (instance_states (exec (_start_and_stop_instances failing_driver Scenario.host "us-east-1")
                        one_to_start))
  = STATE_STOPPED.
Proof.
  refine (proj2 (reported_state_recorded failing_driver Scenario.host "us-east-1"
                   one_to_start "i-1" STATE_STOPPED) _ _ _ _).
  - discriminate.
  - apply (bool_decide_unpack _). vm_compute. exact I.
  - vm_compute. apply list_elem_of_here.
  - left. reflexivity.
Defined.

(** ** The handler and the engine *)

(** X18: the names of the accounts the engine processes are among the
    account names the request handler announces, in the same order: the
    names of the accounts yielded by [_accounts] form a sublist of
    [SchedulerRequestHandler.account_names]. *)
Theorem engine_accounts_among_account_names (service : Service) (boto : Boto)
    (function_name : string) (configuration : SchedulerConfig.t) (lambda_account : string)
    (s : Scheduler) :
  map acc_name
    (yielded (_accounts service boto function_name configuration lambda_account) s).1
  `sublist_of` SchedulerRequestHandler.account_names configuration lambda_account.
Proof.
  rewrite (yielded_yields _ _ (accounts_quiet service boto function_name configuration
                                 lambda_account)).
  rewrite yields_accounts, map_app. unfold SchedulerRequestHandler.account_names.
  apply sublist_app; [|apply remote_accounts_names].
  destruct (SchedulerConfig.schedule_lambda_account configuration); reflexivity.
Qed.

(** * The usage counters *)

(** The number of instances counted under an action for an instance type;
    none when there is no such entry. *)
Definition counted (action : string) (k : option string) (usage_metrics : UsageMetrics)
  : nat :=
  default 0%nat (count_of (usage_get action usage_metrics) k).

(** The type under which a started instance is counted: the new type of its
    first entry in the resize list, its own type when it has none. *)
Definition counted_as (resize_list : list (Instance * option string)) (i : Instance)
  : option string :=
  match List.find (fun r : Instance * option string => String.eqb (inst_id r.1) (inst_id i))
          resize_list with
  | Some r => r.2
  | None => Some (instancetype i)
  end.

Lemma count_of_count_one k k' d :
  default 0%nat (count_of (count_one k d) k')
  = (default 0%nat (count_of d k') + if bool_decide (k = k') then 1 else 0)%nat.
Proof.
  induction d as [|[k0 n] d IH]; cbn.
  - repeat case_bool_decide; cbn; congruence.
  - destruct (decide (k0 = k)) as [->|Hne].
    + rewrite (bool_decide_eq_true_2 (k = k)) by reflexivity. cbn.
      case_bool_decide; cbn; lia.
    + rewrite (bool_decide_eq_false_2 (k0 = k)) by assumption. cbn.
      destruct (decide (k0 = k')) as [->|Hne'].
      * rewrite (bool_decide_eq_true_2 (k' = k')) by reflexivity.
        rewrite (bool_decide_eq_false_2 (k = k')) by congruence. cbn. lia.
      * rewrite (bool_decide_eq_false_2 (k0 = k')) by assumption. exact IH.
Qed.

Lemma usage_of_set action action' d usage_metrics :
  usage_of action (set_usage_of action' d usage_metrics)
  = if String.eqb action' action
    then match usage_of action usage_metrics with Some _ => Some d | None => None end
    else usage_of action usage_metrics.
Proof.
  induction usage_metrics as [|[a d0] rest IH]; cbn.
  - destruct (String.eqb action' action); reflexivity.
  - destruct (String.eqb_spec a action') as [->|Hne]; cbn.
    + destruct (String.eqb_spec action' action) as [->|Hne']; [reflexivity|].
      reflexivity.
    + destruct (String.eqb_spec a action) as [->|Hne'].
      * destruct (String.eqb_spec action' action) as [->|_]; [contradiction|reflexivity].
      * exact IH.
Qed.

(** Counting one instance adds one to its entry and leaves the others. *)
Lemma count_usage_counted action k usage_metrics m action' k' :
  count_usage action k usage_metrics = Some m ->
  counted action' k' m
  = (counted action' k' usage_metrics
     + if bool_decide (action = action' ∧ k = k') then 1 else 0)%nat
  ∧ (is_Some (usage_of action' m) <-> is_Some (usage_of action' usage_metrics)).
Proof.
  unfold count_usage, counted, usage_get.
  destruct (usage_of action usage_metrics) as [d|] eqn:E; [|discriminate].
  intros [= <-]. rewrite usage_of_set.
  destruct (String.eqb_spec action action') as [<-|Hne].
  - rewrite E. split; [|split; intros _; eexists; reflexivity].
    rewrite count_of_count_one.
    destruct (decide (k = k')) as [->|Hk].
    + rewrite !bool_decide_eq_true_2 by auto. reflexivity.
    + rewrite !bool_decide_eq_false_2 by tauto. reflexivity.
  - split; [|reflexivity].
    rewrite bool_decide_eq_false_2 by tauto. lia.
Qed.

Lemma started_instance_type_counted_as resize_list (i : Instance) :
  started_instance_type resize_list i = Some (counted_as resize_list i).
Proof.
  unfold started_instance_type, counted_as.
  induction resize_list as [|r rest IH]; cbn.
  { rewrite bool_decide_eq_false_2 by (intros H; inversion H). reflexivity. }
  destruct (String.eqb_spec (inst_id r.1) (inst_id i)) as [E|Hne]; cbn.
  - rewrite bool_decide_eq_true_2; [reflexivity|]. rewrite E. apply list_elem_of_here.
  - destruct (decide (inst_id i
                        ∈ map (fun r : Instance * option string => inst_id r.1) rest))
      as [Hin|Hin].
    + rewrite bool_decide_eq_true_2 in IH by assumption.
      rewrite bool_decide_eq_true_2 by (apply list_elem_of_further; assumption).
      exact IH.
    + rewrite bool_decide_eq_false_2 in IH by assumption.
      rewrite bool_decide_eq_false_2; [exact IH|].
      intros H. apply elem_of_cons in H as [H|H]; [congruence|contradiction].
Qed.

(** The three categories a scheduler starts with are there. *)
Definition complete (usage_metrics : UsageMetrics) : Prop :=
  is_Some (usage_of "Started" usage_metrics)
  ∧ is_Some (usage_of "Stopped" usage_metrics)
  ∧ is_Some (usage_of "Resized" usage_metrics).

Lemma count_usage_complete action k usage_metrics m :
  count_usage action k usage_metrics = Some m -> complete usage_metrics -> complete m.
Proof.
  intros H (C1 & C2 & C3).
  repeat split;
    apply (proj2 (count_usage_counted _ _ _ _ _ None H)); assumption.
Qed.

Lemma count_usage_some action k usage_metrics :
  is_Some (usage_of action usage_metrics) ->
  is_Some (count_usage action k usage_metrics).
Proof. unfold count_usage. intros [d ->]. eexists. reflexivity. Qed.

(** The number of elements of a list that are counted under [k]. *)
Definition tally {A} (key_of : A -> option string) (k : option string) (l : list A) : nat :=
  length (List.filter (fun a => bool_decide (key_of a = k)) l).

Lemma tally_cons {A} (key_of : A -> option string) k a (l : list A) :
  tally key_of k (a :: l)
  = ((if bool_decide (key_of a = k) then 1 else 0) + tally key_of k l)%nat.
Proof. unfold tally. cbn. case_bool_decide; reflexivity. Qed.

Lemma collect_started_spec resize_list start_list : forall usage_metrics,
  complete usage_metrics ->
  exists m,
    collect_started resize_list start_list usage_metrics = Some m
    ∧ complete m
    ∧ forall action k,
        counted action k m
        = (counted action k usage_metrics
           + if bool_decide (action = "Started")
             then tally (counted_as resize_list) k start_list else 0)%nat.
Proof.
  induction start_list as [|i rest IH]; intros usage_metrics Hc; cbn [collect_started].
  { exists usage_metrics. split; [reflexivity|]. split; [exact Hc|].
    intros action k. case_bool_decide; cbn; lia. }
  rewrite started_instance_type_counted_as.
  destruct (count_usage_some "Started" (counted_as resize_list i) usage_metrics
              (proj1 Hc)) as [m1 H1].
  rewrite H1.
  destruct (IH m1 (count_usage_complete _ _ _ _ H1 Hc)) as (m & Hm & Hcm & Hcount).
  exists m. split; [exact Hm|]. split; [exact Hcm|].
  intros action k. rewrite Hcount.
  rewrite (proj1 (count_usage_counted _ _ _ _ action k H1)).
  rewrite tally_cons.
  destruct (decide (action = "Started")) as [->|Hne].
  - rewrite (bool_decide_eq_true_2 ("Started" = "Started")) by reflexivity.
    destruct (decide (counted_as resize_list i = k)) as [E|E].
    + rewrite !bool_decide_eq_true_2 by auto. lia.
    + rewrite !bool_decide_eq_false_2 by tauto. lia.
  - rewrite (bool_decide_eq_false_2 (action = "Started")) by assumption.
    rewrite bool_decide_eq_false_2 by (intros [E _]; congruence). lia.
Qed.

Lemma collect_stopped_spec stop_list : forall usage_metrics,
  complete usage_metrics ->
  exists m,
    collect_stopped stop_list usage_metrics = Some m
    ∧ complete m
    ∧ forall action k,
        counted action k m
        = (counted action k usage_metrics
           + if bool_decide (action = "Stopped")
             then tally (fun i : Instance => Some (instancetype i)) k stop_list
             else 0)%nat.
Proof.
  induction stop_list as [|i rest IH]; intros usage_metrics Hc; cbn [collect_stopped].
  { exists usage_metrics. split; [reflexivity|]. split; [exact Hc|].
    intros action k. case_bool_decide; cbn; lia. }
  destruct (count_usage_some "Stopped" (Some (instancetype i)) usage_metrics
              (proj1 (proj2 Hc))) as [m1 H1].
  rewrite H1.
  destruct (IH m1 (count_usage_complete _ _ _ _ H1 Hc)) as (m & Hm & Hcm & Hcount).
  exists m. split; [exact Hm|]. split; [exact Hcm|].
  intros action k. rewrite Hcount.
  rewrite (proj1 (count_usage_counted _ _ _ _ action k H1)).
  rewrite tally_cons.
  destruct (decide (action = "Stopped")) as [->|Hne].
  - rewrite (bool_decide_eq_true_2 ("Stopped" = "Stopped")) by reflexivity.
    destruct (decide (Some (instancetype i) = k)) as [E|E].
    + rewrite !bool_decide_eq_true_2 by auto. lia.
    + rewrite !bool_decide_eq_false_2 by tauto. lia.
  - rewrite (bool_decide_eq_false_2 (action = "Stopped")) by assumption.
    rewrite bool_decide_eq_false_2 by (intros [E _]; congruence). lia.
Qed.

Lemma collect_resized_spec resize_list : forall usage_metrics,
  complete usage_metrics ->
  exists m,
    collect_resized resize_list usage_metrics = Some m
    ∧ complete m
    ∧ forall action k,
        counted action k m
        = (counted action k usage_metrics
           + if bool_decide (action = "Resized")
             then tally (fun e : Instance * option string => Some (type_change e)) k
                    resize_list
             else 0)%nat.
Proof.
  induction resize_list as [|i rest IH]; intros usage_metrics Hc; cbn [collect_resized].
  { exists usage_metrics. split; [reflexivity|]. split; [exact Hc|].
    intros action k. case_bool_decide; cbn; lia. }
  destruct (count_usage_some "Resized" (Some (type_change i)) usage_metrics
              (proj2 (proj2 Hc))) as [m1 H1].
  rewrite H1.
  destruct (IH m1 (count_usage_complete _ _ _ _ H1 Hc)) as (m & Hm & Hcm & Hcount).
  exists m. split; [exact Hm|]. split; [exact Hcm|].
  intros action k. rewrite Hcount.
  rewrite (proj1 (count_usage_counted _ _ _ _ action k H1)).
  rewrite tally_cons.
  destruct (decide (action = "Resized")) as [->|Hne].
  - rewrite (bool_decide_eq_true_2 ("Resized" = "Resized")) by reflexivity.
    destruct (decide (Some (type_change i) = k)) as [E|E].
    + rewrite !bool_decide_eq_true_2 by auto. lia.
    + rewrite !bool_decide_eq_false_2 by tauto. lia.
  - rewrite (bool_decide_eq_false_2 (action = "Resized")) by assumption.
    rewrite bool_decide_eq_false_2 by (intros [E _]; congruence). lia.
Qed.

(** X19: on counters that have the three categories, [_collect_usage_metrics]
    raises nothing, and for every instance type it adds to the Started
    counter the number of instances of the start list counted under that type
    (an instance with an entry in the resize list is counted under the new
    type of its first entry, any other under its own type), to the Stopped
    counter the number of instances of the stop list of that type, and to
    the Resized counter the number of entries of the resize list whose change
    [old-new] it is. *)
Theorem usage_counted_per_type (s : Scheduler) (usage_metrics : UsageMetrics)
    (k : option string) :
  complete usage_metrics ->
  exists m,
    _collect_usage_metrics s usage_metrics = Some m
    ∧ complete m
    ∧ counted "Started" k m
      = (counted "Started" k usage_metrics
         + tally (counted_as (schedule_resize_list s)) k (scheduler_start_list s))%nat
    ∧ counted "Stopped" k m
      = (counted "Stopped" k usage_metrics
         + tally (fun i : Instance => Some (instancetype i)) k (scheduler_stop_list s))%nat
    ∧ counted "Resized" k m
      = (counted "Resized" k usage_metrics
         + tally (fun e : Instance * option string => Some (type_change e)) k
             (schedule_resize_list s))%nat.
Proof.
  intros Hc. unfold _collect_usage_metrics.
  destruct (collect_started_spec (schedule_resize_list s) (scheduler_start_list s)
              usage_metrics Hc) as (m1 & -> & C1 & H1).
  destruct (collect_stopped_spec (scheduler_stop_list s) m1 C1) as (m2 & -> & C2 & H2).
  destruct (collect_resized_spec (schedule_resize_list s) m2 C2) as (m3 & -> & C3 & H3).
  exists m3. split; [reflexivity|]. split; [exact C3|].
  rewrite !H3, !H2, !H1.
  repeat split; repeat case_bool_decide; try discriminate; try congruence; lia.
Qed.

Lemma new_usage_metrics_complete : complete new_usage_metrics.
Proof. repeat split; eexists; reflexivity. Qed.

(** The pass that starts i-1 with a new type and stops i-2. *)
Lemma usage_counted_per_type_witness :
  complete new_usage_metrics
  ∧ exists m,
      _collect_usage_metrics day_and_night_pass new_usage_metrics = Some m
      ∧ complete m
      ∧ counted "Started" (Some "m5.xlarge") m
        = (counted "Started" (Some "m5.xlarge") new_usage_metrics
           + tally (counted_as (schedule_resize_list day_and_night_pass))
               (Some "m5.xlarge") (scheduler_start_list day_and_night_pass))%nat
      ∧ counted "Stopped" (Some "m5.xlarge") m
        = (counted "Stopped" (Some "m5.xlarge") new_usage_metrics
           + tally (fun i : Instance => Some (instancetype i)) (Some "m5.xlarge")
               (scheduler_stop_list day_and_night_pass))%nat
      ∧ counted "Resized" (Some "m5.xlarge") m
        = (counted "Resized" (Some "m5.xlarge") new_usage_metrics
           + tally (fun e : Instance * option string => Some (type_change e))
               (Some "m5.xlarge") (schedule_resize_list day_and_night_pass))%nat.
Proof.
  split; [exact new_usage_metrics_complete|].
  exact (usage_counted_per_type day_and_night_pass new_usage_metrics (Some "m5.xlarge")
           new_usage_metrics_complete).
Defined.

Example day_and_night_usage :
  _collect_usage_metrics day_and_night_pass new_usage_metrics
  = Some [ ("Started", [(Some "m5.xlarge", 1%nat)]);
           ("Stopped", [(Some "t3.micro", 1%nat)]);
           ("Resized", [(Some "m5.large-m5.xlarge", 1%nat)]) ].
Proof. vm_compute. reflexivity. Qed.

(** ** Sending the counters *)

(** The categories under which something was counted. *)
Definition used (usage_metrics : UsageMetrics) : UsageMetrics :=
  List.filter (fun c : string * Counts => negb (length c.2 =? 0)%nat) usage_metrics.

(** One record per action and instance type, with its count. *)
Definition rows_of (service : Service) (usage_metrics : UsageMetrics) : list UsageDatum :=
  flat_map
    (fun c : string * Counts =>
       map (fun e : option string * nat =>
              {| datum_service := service_name service;
                 datum_action := c.1;
                 datum_instance_type := e.1;
                 datum_instances := e.2 |}) c.2)
    usage_metrics.

(** A Python dictionary has no key twice, at either level. *)
Definition well_keyed (usage_metrics : UsageMetrics) : Prop :=
  NoDup (map fst usage_metrics)
  ∧ Forall (fun c : string * Counts => NoDup (map fst c.2)) usage_metrics.

Lemma usage_of_elem usage_metrics a d :
  NoDup (map fst usage_metrics) -> (a, d) ∈ usage_metrics ->
  usage_of a usage_metrics = Some d.
Proof.
  induction usage_metrics as [|[a' d'] rest IH]; intros Hnd Hin; [inversion Hin|].
  cbn in Hnd. apply NoDup_cons in Hnd as [Ha Hnd]. cbn.
  apply elem_of_cons in Hin as [[= -> ->]|Hin].
  - rewrite String.eqb_refl. reflexivity.
  - destruct (String.eqb_spec a' a) as [->|Hne]; [|auto].
    exfalso. apply Ha. apply list_elem_of_In, in_map_iff. exists (a, d).
    split; [reflexivity|]. apply list_elem_of_In. exact Hin.
Qed.

Lemma count_of_elem (d : Counts) k n :
  NoDup (map fst d) -> (k, n) ∈ d -> count_of d k = Some n.
Proof.
  induction d as [|[k' n'] rest IH]; intros Hnd Hin; [inversion Hin|].
  cbn in Hnd. apply NoDup_cons in Hnd as [Hk Hnd]. cbn.
  apply elem_of_cons in Hin as [[= -> ->]|Hin].
  - rewrite bool_decide_eq_true_2 by reflexivity. reflexivity.
  - case_bool_decide as E; [|auto].
    exfalso. apply Hk. subst k'. apply list_elem_of_In, in_map_iff. exists (k, n).
    split; [reflexivity|]. apply list_elem_of_In. exact Hin.
Qed.

Lemma usage_of_fresh usage_metrics a :
  a ∉ map fst usage_metrics -> usage_of a usage_metrics = None.
Proof.
  induction usage_metrics as [|[a' d'] rest IH]; intros Ha; [reflexivity|].
  cbn in *. apply not_elem_of_cons in Ha as [Hne Ha].
  destruct (String.eqb_spec a' a) as [->|_]; [contradiction|auto].
Qed.

Lemma usage_of_app pre post a :
  a ∉ map fst pre -> usage_of a (pre ++ post) = usage_of a post.
Proof.
  induction pre as [|[a' d'] pre IH]; intros Ha; [reflexivity|].
  cbn in *. apply not_elem_of_cons in Ha as [Hne Ha].
  destruct (String.eqb_spec a' a) as [->|_]; [contradiction|auto].
Qed.

Lemma del_usage_of_app pre post a :
  a ∉ map fst pre -> del_usage_of a (pre ++ post) = pre ++ del_usage_of a post.
Proof.
  induction pre as [|[a' d'] pre IH]; intros Ha; [reflexivity|].
  cbn in *. apply not_elem_of_cons in Ha as [Hne Ha].
  destruct (String.eqb_spec a' a) as [->|_]; [contradiction|].
  rewrite IH by assumption. reflexivity.
Qed.

(** The first loop of [_send_usage_metrics] removes the categories under
    which nothing was counted. *)
Lemma drop_unused_used post : forall pre,
  NoDup (map fst (pre ++ post)) ->
  drop_unused (map fst post) (pre ++ post) = Some (pre ++ used post).
Proof.
  induction post as [|[a d] post IH]; intros pre Hnd; [reflexivity|].
  cbn [map fst drop_unused].
  assert (a ∉ map fst pre) as Ha.
  { rewrite map_app in Hnd. apply NoDup_app in Hnd as (_ & Hnd & _).
    intros Hin. apply (Hnd a Hin). apply list_elem_of_here. }
  rewrite usage_of_app by assumption. cbn [usage_of]. rewrite String.eqb_refl.
  unfold used. cbn [List.filter snd].
  destruct d as [|e d]; cbn [length Nat.eqb negb].
  - rewrite del_usage_of_app by assumption. cbn [del_usage_of].
    rewrite String.eqb_refl. apply IH.
    rewrite map_app in *. cbn in Hnd. apply NoDup_app in Hnd as (H1 & H2 & H3).
    apply NoDup_cons in H3 as [_ H3]. apply NoDup_app. split; [exact H1|].
    split; [|exact H3]. intros x Hx Hx'. apply (H2 x Hx). apply list_elem_of_further, Hx'.
  - pose proof (IH (pre ++ [(a, e :: d)])) as IH'.
    rewrite <- !app_assoc in IH'. cbn [app] in IH'. apply IH'. exact Hnd.
Qed.

Lemma usage_rows_rows service usage_metrics action d sub :
  usage_of action usage_metrics = Some d ->
  NoDup (map fst d) ->
  (forall e, e ∈ sub -> e ∈ d) ->
  usage_rows service usage_metrics action (map fst sub)
  = Some (map (fun e : option string * nat =>
                 {| datum_service := service_name service;
                    datum_action := action;
                    datum_instance_type := e.1;
                    datum_instances := e.2 |}) sub).
Proof.
  intros Hd Hnd. induction sub as [|[k n] sub IH]; intros Hsub; [reflexivity|].
  cbn [map fst usage_rows]. rewrite Hd.
  rewrite (count_of_elem d k n Hnd) by (apply Hsub, list_elem_of_here).
  rewrite IH by (intros e He; apply Hsub, list_elem_of_further, He).
  reflexivity.
Qed.

Lemma usage_data_rows service usage_metrics sub :
  well_keyed usage_metrics ->
  (forall c, c ∈ sub -> c ∈ usage_metrics) ->
  usage_data service usage_metrics (map fst sub) = Some (rows_of service sub).
Proof.
  intros [Hnd Hin]. induction sub as [|[a d] sub IH]; intros Hsub; [reflexivity|].
  cbn [map fst usage_data].
  assert ((a, d) ∈ usage_metrics) as Had by (apply Hsub, list_elem_of_here).
  assert (usage_of a usage_metrics = Some d) as Hd by (apply usage_of_elem; assumption).
  unfold usage_get. rewrite Hd.
  rewrite (usage_rows_rows service usage_metrics a d d Hd); [|
    exact (proj1 (Forall_forall _ _) Hin (a, d) Had) | auto].
  rewrite IH by (intros c Hc; apply Hsub, list_elem_of_further, Hc).
  reflexivity.
Qed.

Lemma used_well_keyed usage_metrics : well_keyed usage_metrics -> well_keyed (used usage_metrics).
Proof.
  intros [Hnd Hin]. unfold used. split.
  - induction usage_metrics as [|[a d] rest IH]; [constructor|].
    cbn in Hnd. apply NoDup_cons in Hnd as [Ha Hnd].
    apply Forall_cons in Hin as [_ Hin].
    cbn [List.filter]. destruct (negb _); [|auto].
    cbn. apply NoDup_cons. split; [|auto].
    intros H. apply Ha. apply list_elem_of_In, in_map_iff in H as (c & Hc & Hc').
    apply filter_In in Hc' as [Hc' _].
    apply list_elem_of_In, in_map_iff. exists c. auto.
  - apply Forall_forall. intros c Hc.
    apply list_elem_of_In, filter_In in Hc as [Hc _].
    apply (proj1 (Forall_forall _ _) Hin). apply list_elem_of_In. exact Hc.
Qed.

(** What [_send_usage_metrics] leaves and sends, on well-formed counters. *)
Lemma send_usage_metrics_used (service : Service) (usage_metrics : UsageMetrics) :
  well_keyed usage_metrics ->
  _send_usage_metrics service usage_metrics
  = Some (used usage_metrics,
          match used usage_metrics with
          | [] => None
          | _ :: _ => Some (rows_of service (used usage_metrics))
          end).
Proof.
  intros Hwk. unfold _send_usage_metrics.
  pose proof (drop_unused_used usage_metrics [] (proj1 Hwk)) as Hdrop.
  cbn [app] in Hdrop. rewrite Hdrop.
  destruct (used usage_metrics) as [|c rest] eqn:E; [reflexivity|].
  cbn [length Nat.ltb Nat.leb]. rewrite <- E.
  rewrite (usage_data_rows service (used usage_metrics) (used usage_metrics));
    [reflexivity|apply used_well_keyed; exact Hwk|auto].
Qed.

(** X20: on well-formed counters (no key twice in a dictionary),
    [_send_usage_metrics] raises nothing; it removes the categories under
    which nothing was counted; and, unless nothing is left, it hands
    [send_metrics_data] one record per remaining action and instance type,
    in the order of the dictionaries, with the service name and the count.
    When nothing was counted at all, nothing is sent. *)
Theorem usage_data_sent (service : Service) (usage_metrics : UsageMetrics) :
  well_keyed usage_metrics ->
  _send_usage_metrics service usage_metrics
  = Some (used usage_metrics,
          match used usage_metrics with
          | [] => None
          | _ :: _ => Some (rows_of service (used usage_metrics))
          end).
Proof. apply send_usage_metrics_used. Qed.

Definition counted_twice : UsageMetrics :=
  [ ("Started", [(Some "m5.large", 2%nat); (Some "m5.xlarge", 1%nat)]);
    ("Stopped", []);
    ("Resized", [(Some "m5.large-m5.xlarge", 1%nat)]) ].

Lemma usage_data_sent_witness :
  well_keyed counted_twice
  ∧ _send_usage_metrics (Scenario.driver [] true) counted_twice
    = Some (used counted_twice,
            match used counted_twice with
            | [] => None
            | _ :: _ => Some (rows_of (Scenario.driver [] true) (used counted_twice))
            end).
Proof.
  assert (well_keyed counted_twice) as H.
  { split.
    - apply (bool_decide_unpack _). vm_compute. exact I.
    - repeat constructor; cbn; try (apply (bool_decide_unpack _); vm_compute; exact I). }
  split; [exact H|].
  exact (usage_data_sent (Scenario.driver [] true) counted_twice H).
Defined.

Example counted_twice_sent :
  _send_usage_metrics (Scenario.driver [] true) counted_twice
  = Some ([ ("Started", [(Some "m5.large", 2%nat); (Some "m5.xlarge", 1%nat)]);
            ("Resized", [(Some "m5.large-m5.xlarge", 1%nat)]) ],
          Some [ {| datum_service := "ec2"; datum_action := "Started";
                    datum_instance_type := Some "m5.large"; datum_instances := 2 |};
                 {| datum_service := "ec2"; datum_action := "Started";
                    datum_instance_type := Some "m5.xlarge"; datum_instances := 1 |};
                 {| datum_service := "ec2"; datum_action := "Resized";
                    datum_instance_type := Some "m5.large-m5.xlarge";
                    datum_instances := 1 |} ]).
Proof. vm_compute. reflexivity. Qed.

Lemma usage_of_used usage_metrics a :
  NoDup (map fst usage_metrics) ->
  usage_get a usage_metrics = [] ->
  usage_of a (used usage_metrics) = None.
Proof.
  intros Hnd Hget. apply usage_of_fresh. intros Hin.
  apply list_elem_of_In, in_map_iff in Hin as ([a' d] & Ha & Hin). cbn in Ha. subst a'.
  apply filter_In in Hin as [Hin Hd]. cbn in Hd.
  apply list_elem_of_In in Hin.
  unfold usage_get in Hget. rewrite (usage_of_elem _ _ _ Hnd Hin) in Hget.
  subst d. discriminate.
Qed.

(** X21: once [_send_usage_metrics] has run on counters under which no
    started instance was counted, the Started category is gone from the
    counters of the scheduler; [_collect_usage_metrics] on a start list that
    is not empty then fails (a [KeyError]). *)
Theorem collect_after_send_fails (service : Service) (s : Scheduler)
    (usage_metrics : UsageMetrics) :
  well_keyed usage_metrics ->
  usage_get "Started" usage_metrics = [] ->
  scheduler_start_list s ≠ [] ->
  exists m data,
    _send_usage_metrics service usage_metrics = Some (m, data)
    ∧ _collect_usage_metrics s m = None.
Proof.
  intros Hwk Hnone Hstart.
  rewrite (send_usage_metrics_used service usage_metrics Hwk).
  eexists. eexists. split; [reflexivity|].
  unfold _collect_usage_metrics.
  destruct (scheduler_start_list s) as [|i rest]; [contradiction|].
  cbn [collect_started]. rewrite started_instance_type_counted_as.
  unfold count_usage. rewrite (usage_of_used _ _ (proj1 Hwk) Hnone). reflexivity.
Qed.

Lemma new_usage_metrics_well_keyed : well_keyed new_usage_metrics.
Proof.
  split.
  - apply (bool_decide_unpack _). vm_compute. exact I.
  - repeat constructor.
Qed.

Lemma collect_after_send_fails_witness :
  usage_get "Started" new_usage_metrics = []
  ∧ scheduler_start_list day_and_night_pass ≠ []
  ∧ exists m data,
      _send_usage_metrics (Scenario.driver [] true) new_usage_metrics = Some (m, data)
      ∧ _collect_usage_metrics day_and_night_pass m = None.
Proof.
  assert (scheduler_start_list day_and_night_pass ≠ []) as H
    by (vm_compute; discriminate).
  split; [reflexivity|]. split; [exact H|].
  exact (collect_after_send_fails (Scenario.driver [] true) day_and_night_pass
           new_usage_metrics new_usage_metrics_well_keyed eq_refl H).
Defined.

(** * Tag templates *)

Module TagTemplates.

Import SchedulerConfig.

(** ** Dictionaries *)

Lemma getitem_none (d : TagsDict) k : getitem d k = None <-> k ∉ keys d.
Proof.
  induction d as [|[k' v'] d IH]; cbn.
  - split; [intros _ H; inversion H|reflexivity].
  - rewrite not_elem_of_cons. destruct (String.eqb_spec k' k) as [->|Hne].
    + split; [discriminate|]. intros [H _]. contradiction.
    + rewrite IH. split; [auto|]. intros [_ H]. exact H.
Qed.

Lemma getitem_some_key (d : TagsDict) k v : getitem d k = Some v -> k ∈ keys d.
Proof.
  intros H. destruct (decide (k ∈ keys d)) as [Hin|Hnin]; [exact Hin|].
  apply getitem_none in Hnin. congruence.
Qed.

Lemma getitem_key (d : TagsDict) k : k ∈ keys d -> is_Some (getitem d k).
Proof.
  intros H. destruct (getitem d k) eqn:E; [eexists; reflexivity|].
  apply getitem_none in E. contradiction.
Qed.

Lemma getitem_setitem (d : TagsDict) k v k' :
  getitem (setitem d k v) k' = if String.eqb k k' then Some v else getitem d k'.
Proof.
  induction d as [|[k0 v0] d IH]; cbn.
  - destruct (String.eqb k k'); reflexivity.
  - destruct (String.eqb_spec k0 k) as [->|Hne]; cbn.
    + destruct (String.eqb_spec k k') as [->|Hne']; reflexivity.
    + destruct (String.eqb_spec k0 k') as [->|Hne'].
      * destruct (String.eqb_spec k k') as [->|_]; [contradiction|reflexivity].
      * exact IH.
Qed.

Lemma setitem_fresh (d : TagsDict) k v : k ∉ keys d -> setitem d k v = d ++ [(k, v)].
Proof.
  induction d as [|[k0 v0] d IH]; intros Hk; [reflexivity|].
  cbn in *. apply not_elem_of_cons in Hk as [Hne Hk].
  destruct (String.eqb_spec k0 k) as [->|_]; [contradiction|].
  rewrite IH by assumption. reflexivity.
Qed.

Lemma setitem_middle (pre post : TagsDict) k v v' :
  k ∉ keys pre -> setitem (pre ++ (k, v) :: post) k v' = pre ++ (k, v') :: post.
Proof.
  induction pre as [|[k0 v0] pre IH]; intros Hk; cbn.
  - rewrite String.eqb_refl. reflexivity.
  - cbn in Hk. apply not_elem_of_cons in Hk as [Hne Hk].
    destruct (String.eqb_spec k0 k) as [->|_]; [contradiction|].
    rewrite IH by assumption. reflexivity.
Qed.

Lemma getitem_middle (pre post : TagsDict) k v :
  k ∉ keys pre -> getitem (pre ++ (k, v) :: post) k = Some v.
Proof.
  induction pre as [|[k0 v0] pre IH]; intros Hk; cbn.
  - rewrite String.eqb_refl. reflexivity.
  - cbn in Hk. apply not_elem_of_cons in Hk as [Hne Hk].
    destruct (String.eqb_spec k0 k) as [->|_]; [contradiction|auto].
Qed.

Lemma keys_setitem (d : TagsDict) k v :
  keys (setitem d k v) = if bool_decide (k ∈ keys d) then keys d else keys d ++ [k].
Proof.
  induction d as [|[k0 v0] d IH]; cbn.
  - rewrite bool_decide_eq_false_2 by (intros H; inversion H). reflexivity.
  - destruct (String.eqb_spec k0 k) as [->|Hne]; cbn.
    + rewrite bool_decide_eq_true_2 by apply list_elem_of_here. reflexivity.
    + unfold keys in IH. rewrite IH. case_bool_decide as Hin.
      * rewrite bool_decide_eq_true_2 by (apply list_elem_of_further; exact Hin).
        reflexivity.
      * rewrite bool_decide_eq_false_2; [reflexivity|].
        intros H. apply elem_of_cons in H as [H|H]; [congruence|contradiction].
Qed.

Lemma setitem_NoDup (d : TagsDict) k v : NoDup (keys d) -> NoDup (keys (setitem d k v)).
Proof.
  intros Hnd. rewrite keys_setitem. case_bool_decide as Hin; [exact Hnd|].
  apply NoDup_app. split; [exact Hnd|]. split.
  - intros x Hx Hx'. apply list_elem_of_singleton in Hx'. subst x. contradiction.
  - apply NoDup_singleton.
Qed.

Lemma update_NoDup other : forall d : TagsDict, NoDup (keys d) -> NoDup (keys (update d other)).
Proof.
  unfold update. induction other as [|[k v] other IH]; intros d Hnd; [exact Hnd|].
  cbn [fold_left]. apply IH. apply setitem_NoDup. exact Hnd.
Qed.

(** ** Substitution of the variables *)

(** The value of a tag after the loop over the variables: the variables are
    substituted one after the other, in the order of [tag_vars], each in the
    result of the substitution before. *)
Definition expand (tag_vars : TagsDict) (value : string) : string :=
  fold_left (fun acc kv => replace acc (TAG_VAL_STR_format kv.1) kv.2) tag_vars value.

Lemma setitem_setitem (d : TagsDict) k v v' : setitem (setitem d k v) k v' = setitem d k v'.
Proof.
  induction d as [|[k0 v0] d IH]; cbn.
  - rewrite String.eqb_refl. reflexivity.
  - destruct (String.eqb_spec k0 k) as [->|Hne]; cbn.
    + rewrite String.eqb_refl. reflexivity.
    + destruct (String.eqb_spec k0 k) as [->|_]; [contradiction|].
      rewrite IH. reflexivity.
Qed.

Lemma setitem_same (d : TagsDict) k v : getitem d k = Some v -> setitem d k v = d.
Proof.
  induction d as [|[k0 v0] d IH]; cbn; [discriminate|].
  destruct (String.eqb_spec k0 k) as [->|Hne].
  - intros [= ->]. reflexivity.
  - intros H. rewrite IH by assumption. reflexivity.
Qed.

Lemma getitem_elem (d : TagsDict) k v :
  NoDup (keys d) -> (k, v) ∈ d -> getitem d k = Some v.
Proof.
  induction d as [|[k' v'] d IH]; intros Hnd Hin; [inversion Hin|].
  cbn in Hnd. apply NoDup_cons in Hnd as [Hk Hnd].
  cbn. apply elem_of_cons in Hin as [E|Hin].
  - injection E as -> ->. rewrite String.eqb_refl. reflexivity.
  - destruct (String.eqb_spec k' k) as [->|Hne]; [|auto].
    exfalso. apply Hk. unfold keys.
    apply list_elem_of_In, in_map_iff. exists (k, v). split; [reflexivity|].
    apply list_elem_of_In. assumption.
Qed.

(** The loop over the variables, for one tag. *)
Lemma substitute_expand (tag_vars : TagsDict) tag :
  NoDup (keys tag_vars) ->
  forall (sub : TagsDict) (tags : TagsDict) value,
    (forall kv, kv ∈ sub -> kv ∈ tag_vars) ->
    getitem tags tag = Some value ->
    substitute tag_vars (keys sub) tag tags = Some (setitem tags tag (expand sub value)).
Proof.
  intros Hnd. induction sub as [|[v r] sub IH]; intros tags value Hsub Hget.
  { cbn. rewrite setitem_same by assumption. reflexivity. }
  cbn [keys map fst substitute]. rewrite Hget.
  rewrite (getitem_elem tag_vars v r Hnd) by (apply Hsub, list_elem_of_here).
  unfold keys in IH.
  rewrite (IH _ (replace value (TAG_VAL_STR_format v) r)).
  - rewrite setitem_setitem. reflexivity.
  - intros kv Hkv. apply Hsub, list_elem_of_further, Hkv.
  - rewrite getitem_setitem, String.eqb_refl. reflexivity.
Qed.

Lemma replace_from_empty old new skip : replace_from old new skip EmptyString = EmptyString.
Proof. destruct skip; reflexivity. Qed.

Lemma expand_empty (tag_vars : TagsDict) : expand tag_vars EmptyString = EmptyString.
Proof.
  unfold expand. induction tag_vars as [|[v r] tag_vars IH]; [reflexivity|].
  cbn [fold_left]. exact IH.
Qed.

(** The loop over the tags. *)
Lemma substitute_all_expand (tag_vars : TagsDict) :
  NoDup (keys tag_vars) ->
  forall (rest pre : TagsDict),
    NoDup (keys (pre ++ rest)) ->
    substitute_all tag_vars (keys rest) (pre ++ rest)
    = Some (pre ++ map (fun kv => (kv.1, expand tag_vars kv.2)) rest).
Proof.
  intros Hnd. induction rest as [|[k v] rest IH]; intros pre Hpre; [reflexivity|].
  cbn [keys map fst snd substitute_all].
  assert (k ∉ keys pre) as Hk.
  { unfold keys in *. rewrite map_app in Hpre. apply NoDup_app in Hpre as (_ & H & _).
    intros Hin. apply (H k Hin). apply list_elem_of_here. }
  rewrite getitem_middle by assumption.
  assert (forall v', NoDup (keys ((pre ++ [(k, v')]) ++ rest))) as Hpre'.
  { intros v'. unfold keys in *. rewrite <- app_assoc, map_app in *. exact Hpre. }
  destruct (String.eqb_spec v EmptyString) as [->|Hne]; cbn [negb].
  - rewrite expand_empty.
    pose proof (IH (pre ++ [(k, EmptyString)]) (Hpre' _)) as IH'.
    rewrite <- !app_assoc in IH'. exact IH'.
  - rewrite (substitute_expand tag_vars k Hnd tag_vars _ v)
      by (auto using getitem_middle).
    rewrite setitem_middle by assumption.
    pose proof (IH (pre ++ [(k, expand tag_vars v)]) (Hpre' _)) as IH'.
    rewrite <- !app_assoc in IH'. exact IH'.
Qed.

(** ** Parsing *)

(** The first loop keeps the dictionary a dictionary, and never fails. *)
Lemma parse_tags_total pieces : forall (tags : TagsDict) lastkey,
  NoDup (keys tags) ->
  (forall k, lastkey = Some k -> k ∈ keys tags) ->
  exists parsed, parse_tags pieces tags lastkey = Some parsed ∧ NoDup (keys parsed).
Proof.
  induction pieces as [|tag pieces IH]; intros tags lastkey Hnd Hlast; cbn [parse_tags].
  { exists tags. auto. }
  destruct (contains "=" tag).
  - apply IH; [apply setitem_NoDup; exact Hnd|].
    intros k [= <-]. apply (getitem_some_key _ _ (partition "=" tag).2).
    rewrite getitem_setitem, String.eqb_refl. reflexivity.
  - destruct lastkey as [key|]; [|apply IH; assumption].
    destruct (getitem_key tags key (Hlast key eq_refl)) as [value ->].
    apply IH; [apply setitem_NoDup; exact Hnd|].
    intros k [= <-]. apply (getitem_some_key _ _ (value ++ "," ++ tag)%string).
    rewrite getitem_setitem, String.eqb_refl. reflexivity.
Qed.

Lemma tag_vars_NoDup names stack dt tag_variables :
  NoDup (keys (default [] tag_variables)) ->
  NoDup (keys (tag_vars_of names stack dt tag_variables)).
Proof.
  intros H. unfold tag_vars_of. apply update_NoDup.
  destruct tag_variables; exact H.
Qed.

(** The two loops of [build_tags_from_template], one after the other. *)
Lemma build_tags_expand (names : TagVariableNames) (stack : string) (dt : DateTime)
    (tags_str : string) (tag_variables : option TagsDict) :
  NoDup (keys (default [] tag_variables)) ->
  exists parsed,
    parse_tags (split "," tags_str) [] None = Some parsed
    ∧ NoDup (keys parsed)
    ∧ build_tags_from_template names stack dt tags_str tag_variables
      = Some (map (fun kv =>
                     (kv.1, expand (tag_vars_of names stack dt tag_variables) kv.2))
                parsed).
Proof.
  intros Hvars.
  destruct (parse_tags_total (split "," tags_str) [] None) as (parsed & Hp & Hnd).
  { constructor. }
  { discriminate. }
  exists parsed. split; [exact Hp|]. split; [exact Hnd|].
  unfold build_tags_from_template. rewrite Hp.
  apply (substitute_all_expand _ (tag_vars_NoDup names stack dt tag_variables Hvars)
           parsed []).
  exact Hnd.
Qed.

(** X22: [build_tags_from_template] raises nothing.  The tags it returns are
    those its first loop parses from the template, with the same keys in the
    same order (no key twice), and each value with the variables substituted
    one after the other in the order of [tag_vars], every substitution
    being applied to the result of the one before. *)
Theorem template_tags_expanded (names : TagVariableNames) (stack : string) (dt : DateTime)
    (tags_str : string) (tag_variables : option TagsDict) :
  NoDup (keys (default [] tag_variables)) ->
  exists parsed,
    parse_tags (split "," tags_str) [] None = Some parsed
    ∧ NoDup (keys parsed)
    ∧ build_tags_from_template names stack dt tags_str tag_variables
      = Some (map (fun kv =>
                     (kv.1, expand (tag_vars_of names stack dt tag_variables) kv.2))
                parsed).
Proof. apply build_tags_expand. Qed.

Definition sample_names : TagVariableNames :=
  {| TAG_VAL_SCHEDULER := "scheduler"; TAG_VAL_YEAR := "year"; TAG_VAL_MONTH := "month";
     TAG_VAL_DAY := "day"; TAG_VAL_HOUR := "hour"; TAG_VAL_MINUTE := "minute";
     TAG_VAL_TIMEZONE := "timezone" |}.

Definition sample_time : DateTime :=
  {| year := 2024; month := 3; day := 9; hour := 7; minute := 5 |}.

Lemma template_tags_expanded_witness :
  exists parsed,
    parse_tags (split "," "owner=ops,team,stamp={scheduler}-{year}{month}{day}") [] None
    = Some parsed
    ∧ NoDup (keys parsed)
    ∧ build_tags_from_template sample_names "prod-stack" sample_time
        "owner=ops,team,stamp={scheduler}-{year}{month}{day}" None
      = Some (map (fun kv =>
                     (kv.1, expand (tag_vars_of sample_names "prod-stack" sample_time None)
                              kv.2))
                parsed).
Proof.
  apply (template_tags_expanded sample_names "prod-stack" sample_time
           "owner=ops,team,stamp={scheduler}-{year}{month}{day}" None).
  constructor.
Defined.

Example template_tags_sample :
  build_tags_from_template sample_names "prod-stack" sample_time
    "owner=ops,team,stamp={scheduler}-{year}{month}{day}" None
  = Some [("owner", "ops,team"); ("stamp", "prod-stack-20240309")].
Proof. vm_compute. reflexivity. Qed.

(** A value that a substitution brings in is itself substituted by the
    variables that come later. *)
Example template_value_expanded_again :
  build_tags_from_template sample_names "{year}" sample_time "stamp={scheduler}" None
  = Some [("stamp", "2024")].
Proof. vm_compute. reflexivity. Qed.

(** ** Strings *)

Lemma append_cons (c : ascii) (a b : string) :
  (String c a ++ b)%string = String c (a ++ b)%string.
Proof. reflexivity. Qed.

Lemma append_nil_l (b : string) : (EmptyString ++ b)%string = b.
Proof. reflexivity. Qed.

Lemma append_assoc (a b c : string) : ((a ++ b) ++ c = a ++ (b ++ c))%string.
Proof.
  induction a as [|x a IH]; [reflexivity|].
  rewrite !append_cons. f_equal. exact IH.
Qed.

Lemma split_pieces sep s : exists piece pieces, split sep s = piece :: pieces.
Proof.
  induction s as [|c s IH]; cbn; [eauto|].
  destruct (Ascii.eqb c sep); [eauto|].
  destruct IH as (p & ps & ->). eauto.
Qed.

Lemma contains_app c (a b : string) :
  contains c (a ++ b)%string = contains c a || contains c b.
Proof.
  induction a as [|x a IH]; [reflexivity|].
  rewrite append_cons. cbn [contains]. rewrite IH, orb_assoc. reflexivity.
Qed.

(** A text without the separator goes to the first piece. *)
Lemma split_free_app sep (k s : string) piece pieces :
  contains sep k = false ->
  split sep s = piece :: pieces ->
  split sep (k ++ s)%string = (k ++ piece)%string :: pieces.
Proof.
  induction k as [|c k IH]; intros Hk Hs; [exact Hs|].
  rewrite !append_cons. cbn [split contains] in *.
  apply orb_false_elim in Hk as [Hc Hk]. rewrite Hc.
  rewrite (IH Hk Hs). reflexivity.
Qed.

Lemma split_app_sep sep (a b : string) :
  split sep (a ++ String sep b)%string = split sep a ++ split sep b.
Proof.
  induction a as [|c a IH].
  - rewrite append_nil_l. cbn. rewrite Ascii.eqb_refl. reflexivity.
  - rewrite append_cons. cbn [split].
    destruct (Ascii.eqb c sep); [rewrite IH; reflexivity|].
    rewrite IH. destruct (split_pieces sep a) as (p & ps & ->). reflexivity.
Qed.

Lemma concat_cons sep (p : string) (ps : list string) :
  String.concat sep (p :: ps)
  = match ps with [] => p | _ :: _ => (p ++ sep ++ String.concat sep ps)%string end.
Proof. destruct ps; reflexivity. Qed.

(** Joining the pieces gives the text back. *)
Lemma concat_split sep (s : string) :
  String.concat (String sep EmptyString) (split sep s) = s.
Proof.
  induction s as [|c s IH]; [reflexivity|]. cbn [split].
  destruct (split_pieces sep s) as (p & ps & E). rewrite E in *.
  destruct (Ascii.eqb_spec c sep) as [->|Hne].
  - rewrite concat_cons. rewrite IH. reflexivity.
  - rewrite concat_cons in *. destruct ps.
    + rewrite IH. reflexivity.
    + rewrite append_cons, IH. reflexivity.
Qed.

Lemma split_free c sep (s : string) :
  contains c s = false -> Forall (fun p => contains c p = false) (split sep s).
Proof.
  induction s as [|x s IH]; cbn; intros H; [repeat constructor|].
  apply orb_false_elim in H as [Hx Hs]. specialize (IH Hs).
  destruct (Ascii.eqb x sep); [constructor; [reflexivity|exact IH]|].
  destruct (split sep s) as [|p ps]; [repeat constructor; cbn; rewrite Hx; reflexivity|].
  apply Forall_cons in IH as [Hp Hps]. constructor; [|exact Hps].
  cbn. rewrite Hx, Hp. reflexivity.
Qed.

Lemma partition_free c (k v : string) :
  contains c k = false -> partition c (k ++ String c v)%string = (k, v).
Proof.
  induction k as [|x k IH]; intros H.
  - rewrite append_nil_l. cbn. rewrite Ascii.eqb_refl. reflexivity.
  - rewrite append_cons. cbn [partition contains] in *.
    apply orb_false_elim in H as [Hx Hk]. rewrite Hx, (IH Hk). reflexivity.
Qed.

(** A value without an opening brace has nothing to substitute. *)
Lemma replace_free (s v r : string) :
  contains "{" s = false -> replace s (TAG_VAL_STR_format v) r = s.
Proof.
  unfold replace, TAG_VAL_STR_format. rewrite append_cons, append_nil_l.
  induction s as [|c s IH]; cbn [contains replace_from]; intros H; [reflexivity|].
  apply orb_false_elim in H as [Hc Hs].
  cbn [String.prefix].
  destruct (ascii_dec "{" c) as [<-|_]; [discriminate|].
  rewrite (IH Hs). reflexivity.
Qed.

Lemma expand_free (tag_vars : TagsDict) (s : string) :
  contains "{" s = false -> expand tag_vars s = s.
Proof.
  intros H. unfold expand. induction tag_vars as [|[v r] tag_vars IH]; [reflexivity|].
  cbn [fold_left fst snd]. rewrite replace_free by assumption. exact IH.
Qed.


(** ** A template and its tags *)

(** The template that spells out a list of tags: [k1=v1,k2=v2,...]. *)
Definition template_of (pairs : TagsDict) : string :=
  String.concat "," (map (fun kv => (kv.1 ++ "=" ++ kv.2)%string) pairs).

(** What is asked of a key and a value for the template to spell them out:
    no comma and no equals sign in the key, no equals sign in the value. *)
Definition spellable (kv : string * string) : Prop :=
  contains "," kv.1 = false ∧ contains "=" kv.1 = false ∧ contains "=" kv.2 = false.

(** The pieces that follow the piece of a key go to its value, with their
    commas. *)
Lemma parse_continuation pieces : forall rest (done : TagsDict) k value,
  Forall (fun p => contains "=" p = false) pieces ->
  k ∉ keys done ->
  parse_tags (pieces ++ rest) (done ++ [(k, value)]) (Some k)
  = parse_tags rest
      (done ++ [(k, fold_left (fun acc p => (acc ++ "," ++ p)%string) pieces value)])
      (Some k).
Proof.
  induction pieces as [|p pieces IH]; intros rest done k value Hfree Hk; [reflexivity|].
  apply Forall_cons in Hfree as [Hp Hfree].
  cbn [app parse_tags fold_left]. rewrite Hp.
  rewrite getitem_middle by assumption. rewrite setitem_middle by assumption.
  apply IH; assumption.
Qed.

Lemma fold_concat pieces : forall value : string,
  fold_left (fun acc p => (acc ++ "," ++ p)%string) pieces value
  = String.concat "," (value :: pieces).
Proof.
  induction pieces as [|p pieces IH]; intros value; [reflexivity|].
  cbn [fold_left]. rewrite IH, !concat_cons.
  destruct pieces; rewrite ?append_assoc; reflexivity.
Qed.

(** The pieces of one [key=value] are parsed into that tag. *)
Lemma parse_pair rest (done : TagsDict) lastkey k v :
  spellable (k, v) ->
  k ∉ keys done ->
  parse_tags (split "," (k ++ "=" ++ v)%string ++ rest) done lastkey
  = parse_tags rest (done ++ [(k, v)]) (Some k).
Proof.
  intros (Hcomma & Hk & Hv) Hfresh. cbn [fst snd] in *.
  destruct (split_pieces "," v) as (v0 & vs & Ev).
  pose proof (split_free "=" "," v Hv) as Hfree. rewrite Ev in Hfree.
  apply Forall_cons in Hfree as [Hv0 Hvs].
  assert (split "," ("=" ++ v)%string = ("=" ++ v0)%string :: vs) as Ev'.
  { apply (split_free_app "," "=" v v0 vs); [reflexivity|exact Ev]. }
  rewrite (split_free_app "," k _ _ _ Hcomma Ev').
  cbn [app parse_tags].
  assert (contains "=" (k ++ "=" ++ v0)%string = true) as ->.
  { rewrite contains_app. apply orb_true_intro. right. reflexivity. }
  cbn zeta.
  change ("=" ++ v0)%string with (String "=" v0).
  rewrite (partition_free "=" k v0 Hk). cbn [fst snd].
  rewrite setitem_fresh by assumption.
  rewrite parse_continuation by assumption.
  rewrite fold_concat, <- Ev.
  change "," with (String "," EmptyString). rewrite concat_split. reflexivity.
Qed.

Lemma template_of_cons kv kv' (pairs : TagsDict) :
  template_of (kv :: kv' :: pairs)
  = ((kv.1 ++ "=" ++ kv.2) ++ String "," (template_of (kv' :: pairs)))%string.
Proof. reflexivity. Qed.

(** The first loop reads back the tags a template spells out. *)
Lemma parse_template (pairs : TagsDict) : forall kv (done : TagsDict) lastkey,
  Forall spellable (kv :: pairs) ->
  NoDup (keys (done ++ kv :: pairs)) ->
  parse_tags (split "," (template_of (kv :: pairs))) done lastkey
  = Some (done ++ kv :: pairs).
Proof.
  induction pairs as [|kv' pairs IH]; intros [k v] done lastkey Hsp Hnd.
  - apply Forall_cons in Hsp as [Hkv _].
    pose proof (parse_pair [] done lastkey k v Hkv) as H.
    rewrite app_nil_r in H. unfold template_of. cbn [map String.concat fst snd].
    rewrite H; [reflexivity|].
    unfold keys in *. rewrite map_app in Hnd. apply NoDup_app in Hnd as (_ & Hd & _).
    intros Hin. apply (Hd k Hin). apply list_elem_of_here.
  - apply Forall_cons in Hsp as [Hkv Hsp].
    rewrite template_of_cons, split_app_sep. cbn [fst snd].
    rewrite parse_pair; [|exact Hkv|].
    + rewrite (IH kv' (done ++ [(k, v)]) (Some k) Hsp).
      * rewrite <- app_assoc. reflexivity.
      * rewrite <- app_assoc. exact Hnd.
    + unfold keys in *. rewrite map_app in Hnd. apply NoDup_app in Hnd as (_ & Hd & _).
      intros Hin. apply (Hd k Hin). apply list_elem_of_here.
Qed.

(** X23: a list of tags with distinct keys, spelled out as the template
    [k1=v1,k2=v2,...], is read back as it is by [build_tags_from_template],
    in the same order, when no key holds a comma or an equals sign and no
    value holds an equals sign or an opening brace.  Commas in a value are
    kept. *)
Theorem template_round_trip (names : TagVariableNames) (stack : string) (dt : DateTime)
    (pairs : TagsDict) (tag_variables : option TagsDict) :
  NoDup (keys pairs) ->
  Forall spellable pairs ->
  Forall (fun kv => contains "{" kv.2 = false) pairs ->
  NoDup (keys (default [] tag_variables)) ->
  build_tags_from_template names stack dt (template_of pairs) tag_variables = Some pairs.
Proof.
  intros Hnd Hsp Hfree Hvars.
  destruct (build_tags_expand names stack dt (template_of pairs) tag_variables Hvars)
    as (parsed & Hp & _ & ->).
  assert (parsed = pairs) as ->.
  { destruct pairs as [|kv pairs].
    - vm_compute in Hp. congruence.
    -
      rewrite (parse_template pairs kv [] None Hsp Hnd) in Hp.
      injection Hp as <-. reflexivity. }
  f_equal. clear Hp Hnd Hsp.
  induction pairs as [|[k v] pairs IH]; [reflexivity|].
  apply Forall_cons in Hfree as [Hv Hfree]. cbn [map fst snd] in *.
  rewrite (expand_free _ v Hv), (IH Hfree). reflexivity.
Qed.

Definition sample_tags : TagsDict :=
  [ ("owner", "ops,team"); ("aws:note", EmptyString); ("stage", "prod") ].

Lemma template_round_trip_witness :
  template_of sample_tags = "owner=ops,team,aws:note=,stage=prod"
  ∧ build_tags_from_template sample_names "prod-stack" sample_time
      (template_of sample_tags) None
    = Some sample_tags.
Proof.
  split; [reflexivity|].
  apply (template_round_trip sample_names "prod-stack" sample_time sample_tags None).
  - apply (bool_decide_unpack _). vm_compute. exact I.
  - repeat constructor.
  - repeat constructor.
  - constructor.
Defined.

(** ** The tags of a configuration *)

Lemma parse_without_pairs pieces :
  Forall (fun p => contains "=" p = false) pieces ->
  parse_tags pieces [] None = Some [].
Proof.
  induction pieces as [|p pieces IH]; intros H; [reflexivity|].
  apply Forall_cons in H as [Hp H]. cbn [parse_tags]. rewrite Hp. apply IH. exact H.
Qed.

Lemma not_none_or_empty (tags_str : string) :
  bool_decide (Some tags_str ∈ [ or_ (Some EmptyString) None ]) = false.
Proof.
  apply bool_decide_eq_false_2. intros H. cbn in H.
  apply list_elem_of_singleton in H. discriminate.
Qed.

(** X24: [__init__] gives a configuration no started (stopped) tags when its
    argument is [None], and also when it is a template without any equals
    sign, the empty template among them: the test [in ["" or None]] lets the
    empty string through, and the parser finds no tag in it. *)
Theorem init_tags_without_pairs (names : TagVariableNames) (stack : string) (dt : DateTime)
    (template : option string) :
  (forall tags_str, template = Some tags_str -> contains "=" tags_str = false) ->
  init_tags names stack dt template = Some [].
Proof.
  intros H. unfold init_tags. destruct template as [tags_str|]; [|reflexivity].
  rewrite not_none_or_empty.
  unfold build_tags_from_template.
  rewrite parse_without_pairs by (apply split_free, H; reflexivity).
  reflexivity.
Qed.

Lemma init_tags_without_pairs_witness :
  init_tags sample_names "prod-stack" sample_time (Some EmptyString) = Some []
  ∧ init_tags sample_names "prod-stack" sample_time (Some "owner,team") = Some [].
Proof.
  split.
  - apply (init_tags_without_pairs sample_names "prod-stack" sample_time
             (Some EmptyString)).
    intros tags_str [= <-]. reflexivity.
  - apply (init_tags_without_pairs sample_names "prod-stack" sample_time
             (Some "owner,team")).
    intros tags_str [= <-]. reflexivity.
Defined.

Lemma keys_map_values (f : string -> string) (d : TagsDict) :
  keys (map (fun kv => (kv.1, f kv.2)) d) = keys d.
Proof. unfold keys. rewrite map_map. reflexivity. Qed.

(** [tag_list] on a dictionary: one entry per key, in order. *)
Lemma tag_list_entries (tags_dict : TagsDict) :
  NoDup (keys tags_dict) ->
  tag_list tags_dict = Some (map (fun kv => {| Key := kv.1; Value := kv.2 |}) tags_dict).
Proof.
  intros Hnd. unfold tag_list.
  destruct (valid_tags_of_total tags_dict tags_dict) as [vt ->].
  { intros k v. apply getitem_of_elem. assumption. }
  apply tag_entries_total. intros k v. apply getitem_of_elem. assumption.
Qed.

(** X25: for every template, [__init__] computes the started (stopped) tags
    without raising: [build_tags_from_template] returns a dictionary, and
    the attribute holds one [{Key, Value}] entry for each of its keys, in
    its order -- the keys starting with "aws:" or "cloudformation:"
    included. *)
Theorem init_tags_entries (names : TagVariableNames) (stack : string) (dt : DateTime)
    (tags_str : string) :
  exists tags,
    build_tags_from_template names stack dt tags_str None = Some tags
    ∧ NoDup (keys tags)
    ∧ init_tags names stack dt (Some tags_str)
      = Some (map (fun kv => {| Key := kv.1; Value := kv.2 |}) tags).
Proof.
  destruct (build_tags_expand names stack dt tags_str None) as (parsed & _ & Hnd & H).
  { constructor. }
  eexists. split; [exact H|].
  assert (NoDup (keys (map (fun kv => (kv.1, expand (tag_vars_of names stack dt None) kv.2))
                         parsed))) as Hnd'.
  { rewrite keys_map_values. exact Hnd. }
  split; [exact Hnd'|].
  unfold init_tags. rewrite not_none_or_empty, H.
  apply tag_list_entries. exact Hnd'.
Qed.

Example init_tags_sample :
  init_tags sample_names "prod-stack" sample_time (Some "aws:note=x,owner=ops,owner=dev")
  = Some [ {| Key := "aws:note"; Value := "x" |}; {| Key := "owner"; Value := "dev" |} ].
Proof. vm_compute. reflexivity. Qed.

End TagTemplates.

(** * The order of the batches, and the reach of a run *)

Section BatchOrder.

Variable service : Service.
Variable boto : Boto.
Variable configuration : SchedulerConfig.t.
Variable account : Account.
Variable region : string.

Lemma loop_starts_sublist todo : forall st,
  ids (loop_starts boto configuration todo st) `sublist_of` ids todo.
Proof.
  induction todo as [|i todo IH]; intros st; cbn [loop_starts]; [constructor|].
  unfold ids in *. rewrite map_app. cbn [map].
  destruct (decision_in boto configuration st i); cbn;
    first [apply sublist_skip, IH | apply sublist_cons, IH].
Qed.

Lemma loop_stops_sublist todo : forall st,
  ids (loop_stops boto configuration todo st) `sublist_of` ids todo.
Proof.
  induction todo as [|i todo IH]; intros st; cbn [loop_stops]; [constructor|].
  unfold ids in *. rewrite map_app. cbn [map].
  destruct (decision_in boto configuration st i); cbn;
    try (apply sublist_cons, IH).
  rewrite stopped_instance_id. apply sublist_skip, IH.
Qed.

Lemma loop_resizes_sublist todo : forall st,
  ids (map fst (loop_resizes service boto configuration account region todo st))
  `sublist_of` ids (loop_starts boto configuration todo st).
Proof.
  induction todo as [|i todo IH]; intros st; cbn [loop_resizes loop_starts];
    [constructor|].
  unfold ids in *. rewrite !map_app.
  destruct (decision_in boto configuration st i); cbn; try apply IH.
  destruct (resize_warranted i (desired_of boto configuration i).2); cbn;
    [|apply sublist_cons, IH].
  destruct (resize_instance service (acc_name account) region i
              (desired_of boto configuration i).2); cbn;
    [apply sublist_skip, IH|apply sublist_cons, IH].
Qed.

End BatchOrder.

(** X26: the batches of a pass over a region follow the order in which the
    driver yields the instances: the ids of the start list, and those of the
    stop list, form a sublist of the ids the driver yielded, so that no
    instance is listed more often than it was yielded; and the ids of the
    resize list form a sublist of the ids of the start list. *)
Theorem batches_in_driver_order (service : Service) (boto : Boto)
    (configuration : SchedulerConfig.t) (account : Account) (region : string)
    (out : Batches) (s : Scheduler) :
  let s' := exec (process_region service boto configuration account region out) s in
  let yielded_ids :=
    ids (get_schedulable_instances service (session account) (acc_name account)
           (role account) region) in
  ids (scheduler_start_list s') `sublist_of` yielded_ids
  ∧ ids (scheduler_stop_list s') `sublist_of` yielded_ids
  ∧ ids (map fst (schedule_resize_list s')) `sublist_of` ids (scheduler_start_list s').
Proof.
  intros s' yielded_ids. subst s' yielded_ids.
  destruct (process_region_spec service boto configuration account region out s)
    as (_ & -> & -> & -> & _).
  rewrite <- scheduled_instances_ids.
  split; [apply loop_starts_sublist|]. split; [apply loop_stops_sublist|].
  apply loop_resizes_sublist.
Qed.

(** X27: a run writes the state table for the accounts it processes and the
    regions of the run only: an entry of the table whose key is not an
    (account, region) of the run is the same after the run as before (the
    accounts yielded have distinct names, the regions are distinct, and the
    driver yields an instance for every account and region of the run). *)
Theorem run_leaves_other_scopes (service : Service) (boto : Boto) (function_name : string)
    (configuration : SchedulerConfig.t) (lambda_account : string) (s : Scheduler)
    (key : string * string) :
  let accounts :=
    (yielded (_accounts service boto function_name configuration lambda_account)
       (new_scheduler ∅)).1 in
  NoDup (map acc_name accounts) ->
  NoDup (_regions boto configuration) ->
  (forall a r, a ∈ accounts -> r ∈ _regions boto configuration ->
               _scheduled_instances_in_region service a r ≠ []) ->
  (forall a r, a ∈ accounts -> r ∈ _regions boto configuration -> key ≠ (acc_name a, r)) ->
  InstanceStates.table
    (instance_states (run service boto function_name configuration lambda_account s).2)
    !! key
  = InstanceStates.table (instance_states s) !! key.
Proof.
  intros accounts. subst accounts.
  rewrite (yielded_yields _ _ (accounts_quiet service boto function_name configuration
                                 lambda_account)).
  intros Hnames Hregions Htodo Hkey.
  unfold run. unfold mbind, M_bind, bind. cbn [modify_states].
  match goal with
  | |- context [accounts_loop _ _ _ ?gen ?resp ?st] =>
      destruct (accounts_loop_decomp service boto configuration gen resp st
                  (accounts_quiet service boto function_name configuration lambda_account)
                  Hnames Hregions Htodo) as (Hframe & _)
  end.
  rewrite (Hframe key Hkey). reflexivity.
Qed.

(** The hosting account alone, in its home region; the table also holds a
    record of another account. *)
Definition two_scopes : gmap (string * string) (gmap string State) :=
  {[ ("111122223333", "us-east-1") := {[ "i-1" := STATE_STOPPED ]};
     ("999988887777", "eu-west-1") := {[ "i-7" := STATE_RUNNING ]} ]}.

Lemma run_leaves_other_scopes_witness :
  InstanceStates.table
    (instance_states
       (run (Scenario.driver (one_stopped "office") true) (Scenario.sdk Scenario.sts_ok)
          "scheduler" (office false) "111122223333" (new_scheduler two_scopes)).2)
    !! ("999988887777", "eu-west-1")
  = InstanceStates.table (instance_states (new_scheduler two_scopes))
      !! ("999988887777", "eu-west-1").
Proof.
  apply (run_leaves_other_scopes (Scenario.driver (one_stopped "office") true)
           (Scenario.sdk Scenario.sts_ok) "scheduler" (office false) "111122223333"
           (new_scheduler two_scopes) ("999988887777", "eu-west-1")).
  - apply (bool_decide_unpack _). vm_compute. exact I.
  - apply (bool_decide_unpack _). vm_compute. exact I.
  - intros a r Ha Hr. vm_compute. discriminate.
  - intros a r Ha Hr. vm_compute in Ha. apply list_elem_of_singleton in Ha. subst a.
    cbn. discriminate.
Defined.

Example run_writes_own_scope :
  InstanceStates.table
    (instance_states
       (run (Scenario.driver (one_stopped "office") true) (Scenario.sdk Scenario.sts_ok)
          "scheduler" (office false) "111122223333" (new_scheduler two_scopes)).2)
    !! ("111122223333", "us-east-1")
  = Some {[ "i-1" := STATE_RUNNING ]}.
Proof. vm_compute. reflexivity. Qed.

(** * When an instance is started, and when it is stopped *)

(** The conditions under which the engine starts an instance that has a
    schedule: the schedule wants it running and it is not; its record is not
    retain-running; and it is new, or the schedule is enforced, or the record
    is not running already. *)
Definition to_be_started (sch : Schedule) (desired last : State) (running : bool) : Prop :=
  desired = STATE_RUNNING
  ∧ running = false
  ∧ last ≠ STATE_RETAIN_RUNNING
  ∧ (last = STATE_UNKNOWN ∨ enforced sch = true ∨ last ≠ STATE_RUNNING).

(** The conditions under which the engine stops an instance that has a
    schedule: it is running and its record is not retain-running; and either
    the schedule wants it stopped, and it is new under a schedule that stops
    new instances, or known under a schedule that is enforced or with a
    record that is not stopped already; or the schedule wants it stopped for
    a resize, and it is new, or known under a schedule that is not enforced
    with a record that is not stopped-for-resize already. *)
Definition to_be_stopped (sch : Schedule) (desired last : State) (running : bool) : Prop :=
  running = true
  ∧ last ≠ STATE_RETAIN_RUNNING
  ∧ ((desired = STATE_STOPPED
      ∧ (last = STATE_UNKNOWN -> stop_new_instances sch = true)
      ∧ (last ≠ STATE_UNKNOWN -> enforced sch = true ∨ last ≠ STATE_STOPPED))
     ∨ (desired = STATE_STOPPED_FOR_RESIZE
        ∧ (last = STATE_UNKNOWN
           ∨ (enforced sch = false ∧ last ≠ STATE_STOPPED_FOR_RESIZE)))).

Section DecisionTable.

Variable boto : Boto.
Variable configuration : SchedulerConfig.t.

Lemma decision_start_iff (instance : Instance) sch last :
  is_terminated instance = false ->
  SchedulerConfig.get_schedule configuration (schedule_name instance) = Some sch ->
  decision boto configuration instance last = Start
  <-> to_be_started sch (desired_state_and_type boto sch instance).1 last
        (is_running instance).
Proof.
  intros Hterm Hsch. unfold decision, new_state_decision, to_be_started.
  rewrite Hterm, Hsch.
  generalize (desired_state_and_type boto sch instance).1. intros desired.
  destruct last, desired, (is_running instance), (enforced sch), (stop_new_instances sch),
    (retain_running sch); cbn;
    (split; [intros H; try discriminate H; repeat split; auto; try discriminate
            |intros (H1 & H2 & H3 & H4); try discriminate; try reflexivity;
             try congruence;
             destruct H4 as [H4|[H4|H4]]; try discriminate; try congruence]).
Qed.

Lemma decision_stop_iff (instance : Instance) sch last :
  is_terminated instance = false ->
  SchedulerConfig.get_schedule configuration (schedule_name instance) = Some sch ->
  decision boto configuration instance last = Stop
  <-> to_be_stopped sch (desired_state_and_type boto sch instance).1 last
        (is_running instance).
Proof.
  intros Hterm Hsch. unfold decision, new_state_decision, to_be_stopped.
  rewrite Hterm, Hsch.
  generalize (desired_state_and_type boto sch instance).1. intros desired.
  destruct last, desired, (is_running instance), (enforced sch), (stop_new_instances sch),
    (retain_running sch); cbn;
    (split; [intros H; try discriminate H|intros H]);
    intuition (try discriminate; try congruence).
Qed.

End DecisionTable.

(** X28: an instance that is not terminated and has a known schedule is in
    the start list of a pass over its region (instance ids distinct in the
    region) exactly when the schedule wants it running and it is not running,
    its record is not retain-running, and it has no record yet, or the
    schedule is enforced, or its record is not running already (under a
    schedule that is not enforced, an instance stopped by hand in a running
    period stays stopped). *)
Theorem started_exactly_when (service : Service) (boto : Boto)
    (configuration : SchedulerConfig.t) (account : Account) (region : string)
    (out : Batches) (s : Scheduler) (instance : Instance) (sch : Schedule) :
  let todo := _scheduled_instances_in_region service account region in
  NoDup (ids todo) ->
  instance ∈ todo ->
  is_terminated instance = false ->
  SchedulerConfig.get_schedule configuration (schedule_name instance) = Some sch ->
  let last :=
    default STATE_UNKNOWN
      (recorded (instance_states s) (acc_name account) region (inst_id instance)) in
  let s1 := exec (process_region service boto configuration account region out) s in
  inst_id instance ∈ ids (scheduler_start_list s1)
  <-> to_be_started sch (desired_state_and_type boto sch instance).1 last
        (is_running instance).
Proof.
  intros todo Hnd Hin Hterm Hsch last s1.
  destruct (region_outcome service boto configuration account region out s instance Hnd Hin)
    as (H1 & _).
  fold s1 last in H1. rewrite H1.
  apply decision_start_iff; assumption.
Qed.

Lemma started_exactly_when_witness :
  "i-1" ∈ ids (scheduler_start_list (pass_over (one_stopped "office") (office false) []))
  <-> to_be_started (Scenario.schedule "office" STATE_RUNNING None false false true)
        (desired_state_and_type (Scenario.sdk Scenario.sts_ok)
           (Scenario.schedule "office" STATE_RUNNING None false false true)
           (observed (one_stopped "office") 0)).1
        (default STATE_UNKNOWN (record_of (new_scheduler (scope_table [])) "i-1"))
        (is_running (observed (one_stopped "office") 0)).
Proof.
  refine (started_exactly_when (Scenario.driver (one_stopped "office") true)
            (Scenario.sdk Scenario.sts_ok) (office false) Scenario.host "us-east-1"
            (∅, ∅, ∅) (new_scheduler (scope_table []))
            (observed (one_stopped "office") 0)
            (Scenario.schedule "office" STATE_RUNNING None false false true) _ _ _ _).
  - apply (bool_decide_unpack _). vm_compute. exact I.
  - vm_compute. apply list_elem_of_here.
  - reflexivity.
  - vm_compute. reflexivity.
Defined.

Example started_in_scenario :
  "i-1" ∈ ids (scheduler_start_list (pass_over (one_stopped "office") (office false) [])).
Proof. vm_compute. apply list_elem_of_here. Qed.

(** X29: an instance that is not terminated and has a known schedule is in
    the stop list of a pass over its region (instance ids distinct in the
    region) exactly when it is running, its record is not retain-running, and
    either the schedule wants it stopped, and it has no record yet under a
    schedule with [stop_new_instances], or it has a record under a schedule
    that is enforced or with a record that is not stopped already; or the
    schedule wants it stopped for a resize, and it has no record yet, or the
    schedule is not enforced and the record is not stopped-for-resize
    already. *)
Theorem stopped_exactly_when (service : Service) (boto : Boto)
    (configuration : SchedulerConfig.t) (account : Account) (region : string)
    (out : Batches) (s : Scheduler) (instance : Instance) (sch : Schedule) :
  let todo := _scheduled_instances_in_region service account region in
  NoDup (ids todo) ->
  instance ∈ todo ->
  is_terminated instance = false ->
  SchedulerConfig.get_schedule configuration (schedule_name instance) = Some sch ->
  let last :=
    default STATE_UNKNOWN
      (recorded (instance_states s) (acc_name account) region (inst_id instance)) in
  let s1 := exec (process_region service boto configuration account region out) s in
  inst_id instance ∈ ids (scheduler_stop_list s1)
  <-> to_be_stopped sch (desired_state_and_type boto sch instance).1 last
        (is_running instance).
Proof.
  intros todo Hnd Hin Hterm Hsch last s1.
  destruct (region_outcome service boto configuration account region out s instance Hnd Hin)
    as (_ & H2 & _).
  fold s1 last in H2. rewrite H2.
  apply decision_stop_iff; assumption.
Qed.

Lemma stopped_exactly_when_witness :
  "i-1" ∈ ids (scheduler_stop_list
                 (pass_over (one_running "night") (night false true)
                    [("i-1", STATE_RUNNING)]))
  <-> to_be_stopped (Scenario.schedule "night" STATE_STOPPED None false false true)
        (desired_state_and_type (Scenario.sdk Scenario.sts_ok)
           (Scenario.schedule "night" STATE_STOPPED None false false true)
           (observed (one_running "night") 0)).1
        (default STATE_UNKNOWN
           (record_of (new_scheduler (scope_table [("i-1", STATE_RUNNING)])) "i-1"))
        (is_running (observed (one_running "night") 0)).
Proof.
  refine (stopped_exactly_when (Scenario.driver (one_running "night") true)
            (Scenario.sdk Scenario.sts_ok) (night false true) Scenario.host "us-east-1"
            (∅, ∅, ∅) (new_scheduler (scope_table [("i-1", STATE_RUNNING)]))
            (observed (one_running "night") 0)
            (Scenario.schedule "night" STATE_STOPPED None false false true) _ _ _ _).
  - apply (bool_decide_unpack _). vm_compute. exact I.
  - vm_compute. apply list_elem_of_here.
  - reflexivity.
  - vm_compute. reflexivity.
Defined.

Example stopped_in_scenario :
  "i-1" ∈ ids (scheduler_stop_list
                 (pass_over (one_running "night") (night false true)
                    [("i-1", STATE_RUNNING)])).
Proof. vm_compute. apply list_elem_of_here. Qed.
